(** * mini-pow-blockchain: the consensus node of apps/blockchain/server.js

    A shallow embedding of the full node: compact target arithmetic,
    transaction and block validation, the UTXO index, the mempool, the
    difficulty retargeter, the candidate assembler and the ingress
    handlers, followed by the properties of the specification that are
    stated about them.

    Modelling conventions.
    - JSON integers (heights, timestamps, amounts, indices, config values)
      are [Z]; the model is exact while they stay in the range where a JS
      number is an exact integer.  BigInt values are [Z] as well.
    - The retargeter's ratio is computed in IEEE-754 binary64, as JS does,
      with Rocq's primitive floats.
    - A JS string, and a Buffer, is a [string] (a sequence of bytes).
    - A thrown [Error] is [Err msg]; a handler's [try/catch] turns it into
      a 400 (or 500) response.
    - Requests are typed: a transaction has an [inputs] and an [outputs]
      array, so the shape errors of untyped JSON do not arise.  [Module Js]
      has the validators, [applyBlock] and [POST /blocks] once more
      without that typing, on binary64 amounts that may be missing and on
      inputs that need not be an array; the typed functions are shown to
      agree with them on typed requests whose sums stay below [2^53].
    - The cryptographic primitives, [JSON.stringify] and [Date.now] are
      parameters. *)

From Stdlib Require Import ZArith Floats Lia List String Ascii.
From stdpp Require Import gmap strings list fin_maps pretty.

Open Scope Z_scope.

(** ** Exceptions *)

Inductive result (A : Type) : Type :=
| Ok (a : A)
| Err (msg : string).
Arguments Ok {A} a.
Arguments Err {A} msg.

Definition rbind {A B} (r : result A) (k : A -> result B) : result B :=
  match r with
  | Ok a => k a
  | Err m => Err m
  end.

#[global] Instance result_bind : MBind result := fun A B k r => rbind r k.
#[global] Instance result_ret : MRet result := @Ok.

(** [if (c) throw new Error(msg)] *)
Definition throwIf (c : bool) (msg : string) : result unit :=
  if c then Err msg else Ok tt.

(** ** Hexadecimal strings and Buffers *)

Module Hex.

Definition digitChar (d : Z) : ascii :=
  nth (Z.to_nat d) (list_ascii_of_string "0123456789abcdef") "0"%char.

(** Value of a hexadecimal digit, either case. *)
Definition digitVal (c : ascii) : option Z :=
  let n := Z.of_nat (nat_of_ascii c) in
  if (48 <=? n) && (n <=? 57) then Some (n - 48)
  else if (97 <=? n) && (n <=? 102) then Some (n - 87)
  else if (65 <=? n) && (n <=? 70) then Some (n - 55)
  else None.

(** Digits of a positive number, least significant first. *)
Fixpoint digitsLE (fuel : nat) (z : Z) : list Z :=
  match fuel with
  | O => []
  | S f => if z <=? 0 then [] else (z mod 16) :: digitsLE f (z / 16)
  end.

(** [z.toString(16)] for a BigInt [z >= 0]. *)
Definition toString16 (z : Z) : string :=
  if z <=? 0 then "0"%string
  else string_of_list_ascii
         (map digitChar (rev (digitsLE (S (Z.to_nat (Z.log2 z))) z))).

(** Value of the leading hexadecimal digits of [s], from accumulator [acc];
    the second component tells whether a digit was read. *)
Fixpoint parseDigits (s : string) (acc : Z) (seen : bool) : Z * bool :=
  match s with
  | EmptyString => (acc, seen)
  | String c r =>
      match digitVal c with
      | Some d => parseDigits r (16 * acc + d) true
      | None => (acc, seen)
      end
  end.

(** [parseInt(s, 16)]: [None] is NaN. *)
Definition parseInt16 (s : string) : option Z :=
  let '(v, seen) := parseDigits s 0 false in
  if seen then Some v else None.

(** [ToInt32] of a [parseInt] result that is a small non-negative integer
    or NaN, as the operand of [&]. *)
Definition toInt32 (n : option Z) : Z :=
  match n with
  | Some v => v
  | None => 0
  end.

(** All characters are hexadecimal digits. *)
Fixpoint allHex (s : string) : bool :=
  match s with
  | EmptyString => true
  | String c r => match digitVal c with Some _ => allHex r | None => false end
  end.

(** [BigInt('0x' + s)]: a SyntaxError ([None]) unless [s] is a non-empty
    string of hexadecimal digits. *)
Definition bigIntOfHex (s : string) : option Z :=
  match s with
  | EmptyString => None
  | _ => if allHex s then Some (fst (parseDigits s 0 false)) else None
  end.

(** [s.padStart(n, '0')] *)
Definition padStart0 (n : nat) (s : string) : string :=
  string_of_list_ascii (repeat "0"%char (n - String.length s)) ++ s.

(** [s.slice(0, n)] *)
Definition slice0 (n : nat) (s : string) : string := substring 0 n s.

(** [Buffer.from(s, 'hex')]: decodes pairs of digits and stops at the first
    pair that is not hexadecimal, or at a trailing single character. *)
Fixpoint bufferFromHex (s : string) : string :=
  match s with
  | String c1 (String c2 r) =>
      match digitVal c1, digitVal c2 with
      | Some h, Some l =>
          String (ascii_of_nat (Z.to_nat (16 * h + l))) (bufferFromHex r)
      | _, _ => EmptyString
      end
  | _ => EmptyString
  end.

(** [buf.toString('hex')] *)
Fixpoint bufferToHex (b : string) : string :=
  match b with
  | EmptyString => EmptyString
  | String c r =>
      let n := Z.of_nat (nat_of_ascii c) in
      String (digitChar (n / 16)) (String (digitChar (n mod 16)) (bufferToHex r))
  end.

Definition isDigit (d : Z) : Prop := 0 <= d < 16.

(** The number a list of digits writes, most significant first. *)
Definition digitsValue (ds : list Z) : Z :=
  fold_left (fun acc d => 16 * acc + d) ds 0.

(** The number a buffer holds, big-endian, after the prefix value [acc]. *)
Fixpoint bufferValue (b : string) (acc : Z) : Z :=
  match b with
  | EmptyString => acc
  | String c r => bufferValue r (256 * acc + Z.of_nat (nat_of_ascii c))
  end.

End Hex.

(** ** Compact target bits *)

Module Compact.

Definition two32 : Z := 2 ^ 32.

(** [x >>> 0]: the unsigned 32-bit value of a number. *)
Definition toUint32 (x : Z) : Z := x mod two32.

(** [bitsToTarget(bits)] *)
Definition bitsToTarget (bits : Z) : Z :=
  let size := Z.land (Z.shiftr (toUint32 bits) 24) 255 in
  let mant := Z.land (toUint32 bits) 8388607 in
  if size <=? 3 then Z.shiftr mant (8 * (3 - size))
  else Z.shiftl mant (8 * (size - 3)).

(** [target.toString(16)], with a leading 0 when its length is odd. *)
Definition evenHex (target : Z) : string :=
  let hex := Hex.toString16 target in
  if Nat.odd (String.length hex) then ("0" ++ hex)%string else hex.

(** [targetToBits(target)] *)
Definition targetToBits (target : Z) : Z :=
  if target <=? 0 then 0
  else
    let hex := evenHex target in
    (* Math.ceil(hex.length / 2), the length being even *)
    let size := Z.of_nat (String.length hex / 2) in
    let '(mantBytes, size) :=
      if size <=? 3 then (Hex.padStart0 6 hex, size)
      else
        let mb := Hex.slice0 6 hex in
        if negb (Z.land (Hex.toInt32 (Hex.parseInt16 (Hex.slice0 2 mb))) 128 =? 0)
        then (("00" ++ Hex.slice0 4 mb)%string, size + 1)
        else (mb, size) in
    let mant := Z.land (Hex.toInt32 (Hex.parseInt16 mantBytes)) 8388607 in
    toUint32 (Z.lor (Z.shiftl size 24) mant).

(** [hashMeetsBits(hexHash, bits)]; [BigInt] throws on a malformed hash. *)
Definition hashMeetsBits (hexHash : string) (bits : Z) : result bool :=
  match Hex.bigIntOfHex hexHash with
  | None => Err ("Cannot convert 0x" ++ hexHash ++ " to a BigInt")
  | Some h => Ok (h <=? bitsToTarget bits)
  end.

End Compact.

(** ** JS numbers in the retargeter *)

Module JSNum.

(** The double nearest to an integer: the value of a JSON integer. *)
Definition ofZ (z : Z) : float := SF2Prim (binary_normalize prec emax z 0 false).

(** [x || 1]: [x] is falsy when it is 0, -0 or NaN. *)
Definition orOne (x : float) : float :=
  if PrimFloat.is_zero x || PrimFloat.is_nan x then 1%float else x.

(** [BigInt(Math.round(x))]: the nearest integer, a tie going up;
    [None] is the RangeError for NaN and the infinities. *)
Definition roundToBigInt (x : float) : option Z :=
  match Prim2SF x with
  | S754_zero _ => Some 0
  | S754_finite s m e =>
      let sm := if s then Z.neg m else Z.pos m in
      if 0 <=? e then Some (sm * 2 ^ e)
      else Some ((2 * sm + 2 ^ (- e)) / 2 ^ (1 - e))
  | _ => None
  end.

End JSNum.

(** ** Data model *)

Record TxInput := {
  in_txid : string;
  in_index : Z;
  in_pubKey : string;
  in_sig : string
}.

Record TxOutput := {
  out_address : string;
  out_amount : Z
}.

(** [tx_id] is the empty string when the [id] field is missing: both are
    falsy, and the code only ever tests [!tx.id]. *)
Record Tx := {
  tx_id : string;
  tx_isCoinbase : bool;
  tx_inputs : list TxInput;
  tx_outputs : list TxOutput
}.

Record Block := {
  blk_index : Z;
  blk_previousHash : string;
  blk_timestamp : Z;
  blk_transactions : list Tx;
  blk_merkleRoot : string;
  blk_nonce : Z;
  blk_bits : Z
}.

Record UtxoEntry := {
  ue_amount : Z;
  ue_address : string;
  ue_blockHeight : Z;
  ue_isCoinbase : bool
}.

Record Config := {
  adjustEvery : Z;
  targetBlockTimeSec : Z;
  blockSubsidy : Z;
  halvingInterval : Z;
  coinbaseMaturity : Z;
  maxBlockTx : Z;
  cfg_bits : Z
}.

(** The values the source starts from when there is no config file. *)
Definition defaultConfig : Config := {|
  adjustEvery := 10;
  targetBlockTimeSec := 10;
  blockSubsidy := 5;
  halvingInterval := 100;
  coinbaseMaturity := 2;
  maxBlockTx := 25;
  cfg_bits := 0x1e00ffff
|}.

Definition setBits (c : Config) (b : Z) : Config := {|
  adjustEvery := adjustEvery c;
  targetBlockTimeSec := targetBlockTimeSec c;
  blockSubsidy := blockSubsidy c;
  halvingInterval := halvingInterval c;
  coinbaseMaturity := coinbaseMaturity c;
  maxBlockTx := maxBlockTx c;
  cfg_bits := b
|}.

(** The process-wide state.  [mempool] is a JS object used as a map: an
    association list in insertion order, one pair per key.  (Ids are taken
    not to be property names of [Object.prototype], nor array indices,
    which [Object.values] would list first.) *)
Record State := {
  chain : list Block;
  mempool : list (string * Tx);
  utxo : gmap string UtxoEntry;
  seenTx : gset string;
  seenBlockHash : gset string;
  mempoolSpent : gset string;
  config : Config
}.

(** [`${txid}:${index}`] *)
Definition outpointKey (txid : string) (index : Z) : string :=
  (txid ++ ":" ++ pretty index)%string.

(** *** The mempool object *)

Fixpoint mempoolGet (id : string) (m : list (string * Tx)) : option Tx :=
  match m with
  | [] => None
  | (k, t) :: r => if decide (k = id) then Some t else mempoolGet id r
  end.

(** [mempool[id] = tx] *)
Fixpoint mempoolSet (id : string) (tx : Tx) (m : list (string * Tx)) : list (string * Tx) :=
  match m with
  | [] => [(id, tx)]
  | (k, t) :: r => if decide (k = id) then (k, tx) :: r else (k, t) :: mempoolSet id tx r
  end.

(** [delete mempool[id]] *)
Fixpoint mempoolDelete (id : string) (m : list (string * Tx)) : list (string * Tx) :=
  match m with
  | [] => []
  | (k, t) :: r => if decide (k = id) then r else (k, t) :: mempoolDelete id r
  end.

(** *** JSON values handed to [JSON.stringify] *)

#[local] Unset Elimination Schemes.
Inductive json : Type :=
| JNum (n : Z)
| JStr (s : string)
| JArr (items : list json)
| JObj (fields : list (string * json))
| JNull                                   (* what an infinity is printed as *)
| JFrac (m e : Z).                        (* the number m * 2^e, e < 0, m odd *)
#[local] Set Elimination Schemes.

Definition outputJson (o : TxOutput) : json :=
  JObj [("address"%string, JStr (out_address o)); ("amount"%string, JNum (out_amount o))].

(** ** The node *)

(** SHA-256 and RIPEMD-160 digests of a buffer (raw bytes), [JSON.stringify],
    and elliptic's [keyFromPublic] (which throws on a malformed key) and
    [key.verify] (an exception of which the source turns into [false]). *)
Class Primitives : Type := {
  sha256 : string -> string;
  ripemd160 : string -> string;
  JSON_stringify : json -> string;
  ECKey : Type;
  keyFromPublic : string -> result ECKey;
  keyVerify : ECKey -> string -> string -> bool
}.

Section Node.

Context `{Primitives}.

Definition sha256Hex (buf : string) : string := Hex.bufferToHex (sha256 buf).

Definition txIdFor (tx : Tx) : string :=
  let copy := JObj
    [("inputs"%string,
      JArr (map (fun i => JObj [("txid"%string, JStr (in_txid i));
                                ("index"%string, JNum (in_index i));
                                ("pubKey"%string, JStr (in_pubKey i))])
                (tx_inputs tx)));
     ("outputs"%string, JArr (map outputJson (tx_outputs tx)))] in
  sha256Hex (JSON_stringify copy).

Definition headerHash (block : Block) : string :=
  let header :=
    (pretty (blk_index block) ++ "|" ++ blk_previousHash block ++ "|" ++
     pretty (blk_timestamp block) ++ "|" ++ blk_merkleRoot block ++ "|" ++
     pretty (blk_nonce block) ++ "|" ++ pretty (blk_bits block))%string in
  sha256Hex header.

(** One pass of the [while] loop of [merkleRoot]: an odd layer pairs its
    last node with itself. *)
Fixpoint merkleLayer (nodes : list string) : list string :=
  match nodes with
  | [] => []
  | [a] => [Hex.bufferFromHex (sha256Hex (a ++ a))]
  | a :: b :: rest => Hex.bufferFromHex (sha256Hex (a ++ b)) :: merkleLayer rest
  end.

Fixpoint merkleLoop (fuel : nat) (nodes : list string) : list string :=
  match fuel with
  | O => nodes
  | S f => if (1 <? length nodes)%nat then merkleLoop f (merkleLayer nodes) else nodes
  end.

Definition merkleRoot (txids : list string) : string :=
  match txids with
  | [] => sha256Hex ""
  | _ =>
      let nodes := map Hex.bufferFromHex txids in
      match merkleLoop (length nodes) nodes with
      | n0 :: _ => Hex.bufferToHex n0
      | [] => ""%string
      end
  end.

(** [for (const i of tx.inputs || []) m.delete(`${i.txid}:${i.index}`)] *)
Fixpoint deleteInputs (ins : list TxInput) (m : gmap string UtxoEntry) : gmap string UtxoEntry :=
  match ins with
  | [] => m
  | i :: rest => deleteInputs rest (delete (outpointKey (in_txid i) (in_index i)) m)
  end.

(** [outs.forEach((o, idx) => m.set(`${id}:${idx}`, {amount, address,
    blockHeight, isCoinbase}))], from position [idx] on. *)
Fixpoint setOutputs (id : string) (height : Z) (cb : bool) (outs : list TxOutput)
    (idx : nat) (m : gmap string UtxoEntry) : gmap string UtxoEntry :=
  match outs with
  | [] => m
  | o :: rest =>
      setOutputs id height cb rest (S idx)
        (<[outpointKey id (Z.of_nat idx) :=
             {| ue_amount := out_amount o; ue_address := out_address o;
                ue_blockHeight := height; ue_isCoinbase := cb |}]> m)
  end.

(** [rebuildUTXO()]: the inner loop over one block's transactions, then the
    loop over the chain, from [new Map()]. *)
Fixpoint rebuildTxs (b : Block) (txs : list Tx) (u : gmap string UtxoEntry) : gmap string UtxoEntry :=
  match txs with
  | [] => u
  | tx :: rest =>
      let u := deleteInputs (tx_inputs tx) u in
      let u := setOutputs (tx_id tx) (blk_index b) (tx_isCoinbase tx) (tx_outputs tx) 0 u in
      rebuildTxs b rest u
  end.

Fixpoint rebuildBlocks (c : list Block) (u : gmap string UtxoEntry) : gmap string UtxoEntry :=
  match c with
  | [] => u
  | b :: rest => rebuildBlocks rest (rebuildTxs b (blk_transactions b) u)
  end.

Definition rebuildUTXO (c : list Block) : gmap string UtxoEntry := rebuildBlocks c ∅.

(** [getBlockReward(height)]: [Math.pow(2, halvings)] is a fraction for a
    negative exponent.  Exact for [halvingInterval <> 0]. *)
Definition getBlockReward (cfg : Config) (height : Z) : Z :=
  let halvings := height / halvingInterval cfg in
  let r := if halvings <? 0 then blockSubsidy cfg * 2 ^ (- halvings)
           else blockSubsidy cfg / 2 ^ halvings in
  Z.max r 0.

Definition pubKeyToAddress (pubKeyHex : string) : string :=
  Hex.bufferToHex (ripemd160 (sha256 (Hex.bufferFromHex pubKeyHex))).

(** [verifyInputSig(tx, inputIndex)], with [inp = tx.inputs[inputIndex]]. *)
Definition verifyInputSig (tx : Tx) (inp : TxInput) : result unit :=
  _ ← throwIf (bool_decide (in_pubKey inp = ""%string) || bool_decide (in_sig inp = ""%string))
        "missing pubKey or sig";
  let msg := sha256Hex (JSON_stringify (JObj
    [("inputs"%string,
      JArr (map (fun i => JObj [("txid"%string, JStr (in_txid i));
                                ("index"%string, JNum (in_index i))])
                (tx_inputs tx)));
     ("outputs"%string, JArr (map outputJson (tx_outputs tx)))])) in
  key ← keyFromPublic (in_pubKey inp);
  throwIf (negb (keyVerify key msg (Hex.bufferFromHex (in_sig inp)))) "bad signature".

Definition sumAmounts (outs : list TxOutput) : Z :=
  fold_left (fun s o => s + out_amount o) outs 0.

(** The loop of [validateTx] over the inputs, from the set [used] and the
    running [inSum]. *)
Fixpoint validateTxInputs (st : State) (currentHeight : Z) (tx : Tx)
    (ins : list TxInput) (used : gset string) (inSum : Z) : result Z :=
  match ins with
  | [] => Ok inSum
  | i :: rest =>
      let key := outpointKey (in_txid i) (in_index i) in
      _ ← throwIf (bool_decide (key ∈ used)) "double spend in tx";
      match utxo st !! key with
      | None => Err ("missing UTXO " ++ key)
      | Some entry =>
          _ ← throwIf (ue_isCoinbase entry &&
                        (currentHeight - ue_blockHeight entry <? coinbaseMaturity (config st)))
                "coinbase not mature";
          _ ← verifyInputSig tx i;
          _ ← throwIf (negb (bool_decide (pubKeyToAddress (in_pubKey i) = ue_address entry)))
                "pubKey does not match UTXO address";
          validateTxInputs st currentHeight tx rest ({[key]} ∪ used) (inSum + ue_amount entry)
      end
  end.

(** The loop of [validateTx] over the outputs. *)
Fixpoint validateTxOutputs (outs : list TxOutput) (outSum : Z) : result Z :=
  match outs with
  | [] => Ok outSum
  | o :: rest =>
      _ ← throwIf (out_amount o <=? 0) "output <= 0";
      validateTxOutputs rest (outSum + out_amount o)
  end.

(** [validateTx(tx, currentHeight)].  The test of the request's shape
    ([invalid tx format]) is the typing of [Tx]. *)
Definition validateTx (st : State) (tx : Tx) (currentHeight : Z) : result unit :=
  if tx_isCoinbase tx then
    _ ← throwIf (negb (length (tx_inputs tx) =? 0)%nat) "coinbase must have no inputs";
    throwIf (existsb (fun o => out_amount o <=? 0) (tx_outputs tx)) "coinbase bad amount"
  else
    inSum ← validateTxInputs st currentHeight tx (tx_inputs tx) ∅ 0;
    outSum ← validateTxOutputs (tx_outputs tx) 0;
    throwIf (inSum <? outSum) "inputs < outputs".

(** The loop of [validateBlock] over the inputs of a spend, against the
    temporary map. *)
Fixpoint spendInputs (cfg : Config) (block : Block) (tx : Tx) (ins : list TxInput)
    (temp : gmap string UtxoEntry) (inSum : Z) : result (gmap string UtxoEntry * Z) :=
  match ins with
  | [] => Ok (temp, inSum)
  | i :: rest =>
      let key := outpointKey (in_txid i) (in_index i) in
      match temp !! key with
      | None => Err ("missing input " ++ key)
      | Some ent =>
          _ ← throwIf (ue_isCoinbase ent &&
                        (blk_index block - ue_blockHeight ent <? coinbaseMaturity cfg))
                "coinbase not mature";
          _ ← verifyInputSig tx i;
          _ ← throwIf (negb (bool_decide (pubKeyToAddress (in_pubKey i) = ue_address ent)))
                "pubKey!=address";
          spendInputs cfg block tx rest (delete key temp) (inSum + ue_amount ent)
      end
  end.

(** The loop of [validateBlock] over the transactions. *)
Fixpoint validateBlockTxs (cfg : Config) (block : Block) (txs : list Tx)
    (coinbaseCount : Z) (feeTotal : Z) (temp : gmap string UtxoEntry)
    : result (Z * Z * gmap string UtxoEntry) :=
  match txs with
  | [] => Ok (coinbaseCount, feeTotal, temp)
  | tx :: rest =>
      if tx_isCoinbase tx then
        _ ← throwIf (negb (length (tx_inputs tx) =? 0)%nat) "coinbase has inputs";
        validateBlockTxs cfg block rest (coinbaseCount + 1) feeTotal
          (setOutputs (tx_id tx) (blk_index block) true (tx_outputs tx) 0 temp)
      else
        '(temp, inSum) ← spendInputs cfg block tx (tx_inputs tx) temp 0;
        let outSum := sumAmounts (tx_outputs tx) in
        _ ← throwIf (inSum <? outSum) "tx spends more than inputs";
        validateBlockTxs cfg block rest coinbaseCount (feeTotal + (inSum - outSum))
          (setOutputs (tx_id tx) (blk_index block) false (tx_outputs tx) 0 temp)
  end.

Definition MAX_FUTURE : Z := 2 * 60 * 60 * 1000.

(** [validateBlock(block)], at time [now = Date.now()]. *)
Definition validateBlock (st : State) (now : Z) (block : Block) : result unit :=
  _ ← match last (chain st) with
      | None => throwIf (negb (blk_index block =? 0)) "genesis index must be 0"
      | Some tip =>
          _ ← throwIf (negb (blk_index block =? blk_index tip + 1)) "bad index";
          throwIf (negb (bool_decide (blk_previousHash block = headerHash tip)))
            "prev hash mismatch"
      end;
  _ ← throwIf (now + MAX_FUTURE <? blk_timestamp block) "timestamp too far in future";
  let txids := map tx_id (blk_transactions block) in
  _ ← throwIf (negb (bool_decide (merkleRoot txids = blk_merkleRoot block))) "merkle mismatch";
  let hh := headerHash block in
  meets ← Compact.hashMeetsBits hh (blk_bits block);
  _ ← throwIf (negb meets) "insufficient PoW";
  '(coinbaseCount, feeTotal, _) ←
    validateBlockTxs (config st) block (blk_transactions block) 0 0 (utxo st);
  _ ← throwIf (negb (coinbaseCount =? 1)) "block must have exactly 1 coinbase";
  let expected := getBlockReward (config st) (blk_index block) + feeTotal in
  match find tx_isCoinbase (blk_transactions block) with
  | None => Err "Cannot read properties of undefined (reading 'outputs')"
  | Some coinbase =>
      let cbOut := sumAmounts (tx_outputs coinbase) in
      throwIf (expected <? cbOut)
        ("coinbase too large: " ++ pretty cbOut ++ " > " ++ pretty expected)
  end.

(** [for (const i of tx.inputs || []) mempoolSpent.delete(key)] *)
Fixpoint releaseInputs (ins : list TxInput) (spent : gset string) : gset string :=
  match ins with
  | [] => spent
  | i :: rest => releaseInputs rest (spent ∖ {[outpointKey (in_txid i) (in_index i)]})
  end.

(** The loop of [applyBlock] over the transactions, on the live UTXO map,
    the mempool and the mempool-spent set. *)
Fixpoint applyBlockTxs (block : Block) (txs : list Tx)
    (u : gmap string UtxoEntry) (mp : list (string * Tx)) (ms : gset string)
    : gmap string UtxoEntry * list (string * Tx) * gset string :=
  match txs with
  | [] => (u, mp, ms)
  | tx :: rest =>
      let u := deleteInputs (tx_inputs tx) u in
      let u := setOutputs (tx_id tx) (blk_index block) (tx_isCoinbase tx) (tx_outputs tx) 0 u in
      match mempoolGet (tx_id tx) mp with
      | Some _ =>
          applyBlockTxs block rest u (mempoolDelete (tx_id tx) mp)
            (releaseInputs (tx_inputs tx) ms)
      | None => applyBlockTxs block rest u mp ms
      end
  end.

(** [applyBlock(block)]; the writes of the block file and of the config
    file are not part of the state. *)
Definition applyBlock (st : State) (block : Block) : State :=
  let '(u, mp, ms) :=
    applyBlockTxs block (blk_transactions block) (utxo st) (mempool st) (mempoolSpent st) in
  {| chain := chain st ++ [block];
     mempool := mp;
     utxo := u;
     seenTx := seenTx st;
     seenBlockHash := {[headerHash block]} ∪ seenBlockHash st;
     mempoolSpent := ms;
     config := config st |}.

(** [chain[i]] for a number [i]: [undefined] out of range. *)
Definition chainAt (c : list Block) (i : Z) : option Block :=
  if i <? 0 then None else c !! Z.to_nat i.

(** The clamp of [maybeRetarget]: [ratio] between [minR] and [maxR]. *)
Definition clampRatio (ratio : float) : float :=
  let ratio := if (ratio <? 0.25)%float then 0.25%float else ratio in
  if (4 <? ratio)%float then 4%float else ratio.

(** [expected / (actual || 1)] of [maybeRetarget], clamped. *)
Definition retargetRatio (cfg : Config) (last first : Block) : float :=
  let actual := ((JSNum.ofZ (blk_timestamp last) - JSNum.ofZ (blk_timestamp first)) / 1000)%float in
  let expected := (JSNum.ofZ (adjustEvery cfg) * JSNum.ofZ (targetBlockTimeSec cfg))%float in
  clampRatio (expected / JSNum.orOne actual)%float.

(** [BigInt(Math.round(1 / ratio * 1e6))] for the window from [first] to
    [last]; [None] is the RangeError of [BigInt]. *)
Definition retargetDivisor (cfg : Config) (last first : Block) : option Z :=
  JSNum.roundToBigInt (1 / retargetRatio cfg last first * 1000000)%float.

(** [BigInt(curTarget / divisor) * BigInt(1e6)], then the clamp to 1. *)
Definition scaleTarget (curTarget divisor : Z) : Z :=
  let newTarget := Z.quot curTarget divisor * 1000000 in
  if newTarget <=? 0 then 1 else newTarget.

(** [maybeRetarget()]: throws when [chain[h - adjustEvery]] is undefined,
    and when [BigInt] is given a NaN or divides by zero. *)
Definition maybeRetarget (st : State) : result State :=
  let cfg := config st in
  let h := Z.of_nat (length (chain st)) in
  if (h =? 0) || negb (Z.rem h (adjustEvery cfg) =? 0) then Ok st
  else
    match chainAt (chain st) (h - 1), chainAt (chain st) (h - adjustEvery cfg) with
    | Some last, Some first =>
        let curTarget := Compact.bitsToTarget (cfg_bits cfg) in
        match retargetDivisor cfg last first with
        | None => Err "The number NaN cannot be converted to a BigInt because it is not an integer"
        | Some divisor =>
            if divisor =? 0 then Err "Division by zero"
            else
              let newTarget := scaleTarget curTarget divisor in
              let newBits := Compact.targetToBits newTarget in
              Ok {| chain := chain st; mempool := mempool st; utxo := utxo st;
                    seenTx := seenTx st; seenBlockHash := seenBlockHash st;
                    mempoolSpent := mempoolSpent st;
                    config := setBits cfg (Compact.toUint32 newBits) |}
        end
    | _, _ => Err "Cannot read properties of undefined (reading 'timestamp')"
    end.

(** ** Ingress handlers *)

Inductive Response : Type :=
| TxOk (id : string)                      (* 200 {ok: true, id} *)
| TxDuplicate (id : string)               (* 200 {ok: true, id, note: 'duplicate in mempool'} *)
| BlockOk (height : Z)                    (* 200 {ok: true, height} *)
| Candidate (block : Block)               (* 200, the block template *)
| BadRequest (error : string)             (* 400 {error} *)
| ServerError (error : string)            (* 500 {error} *)
| Ignored.                                (* a peer message that is dropped *)

(** [if (!t.id) t.id = txIdFor(t)] *)
Definition assignId (tx : Tx) : Tx :=
  if bool_decide (tx_id tx = ""%string)
  then {| tx_id := txIdFor tx; tx_isCoinbase := tx_isCoinbase tx;
          tx_inputs := tx_inputs tx; tx_outputs := tx_outputs tx |}
  else tx.

Definition withTransactions (b : Block) (txs : list Tx) : Block :=
  {| blk_index := blk_index b; blk_previousHash := blk_previousHash b;
     blk_timestamp := blk_timestamp b; blk_transactions := txs;
     blk_merkleRoot := blk_merkleRoot b; blk_nonce := blk_nonce b;
     blk_bits := blk_bits b |}.

(** [for (const t of block.transactions) if (!t.id) t.id = txIdFor(t)] *)
Definition assignIds (b : Block) : Block :=
  withTransactions b (map assignId (blk_transactions b)).

(** The loop that rejects an input reserved by the mempool. *)
Fixpoint checkMempoolSpent (ins : list TxInput) (spent : gset string) : result unit :=
  match ins with
  | [] => Ok tt
  | i :: rest =>
      _ ← throwIf (bool_decide (outpointKey (in_txid i) (in_index i) ∈ spent))
            "mempool double spend";
      checkMempoolSpent rest spent
  end.

(** [for (const i of tx.inputs) mempoolSpent.add(key)] *)
Fixpoint reserveInputs (ins : list TxInput) (spent : gset string) : gset string :=
  match ins with
  | [] => spent
  | i :: rest => reserveInputs rest ({[outpointKey (in_txid i) (in_index i)]} ∪ spent)
  end.

(** The admission that both the HTTP and the peer path end with. *)
Definition admitTx (st : State) (tx : Tx) : State :=
  {| chain := chain st;
     mempool := mempoolSet (tx_id tx) tx (mempool st);
     utxo := utxo st;
     seenTx := {[tx_id tx]} ∪ seenTx st;
     seenBlockHash := seenBlockHash st;
     mempoolSpent := reserveInputs (tx_inputs tx) (mempoolSpent st);
     config := config st |}.

(** [app.post('/transactions')] *)
Definition postTransactions (st : State) (body : Tx) : Response * State :=
  let tx := assignId body in
  match
    (_ ← validateTx st tx (Z.of_nat (length (chain st)));
     checkMempoolSpent (tx_inputs tx) (mempoolSpent st))
  with
  | Err e => (BadRequest e, st)
  | Ok _ =>
      match mempoolGet (tx_id tx) (mempool st) with
      | Some _ => (TxDuplicate (tx_id tx), st)
      | None => (TxOk (tx_id tx), admitTx st tx)
      end
  end.

(** [app.post('/blocks')]: an exception of [maybeRetarget] is answered by
    a 400 after [applyBlock] has run. *)
Definition postBlocks (st : State) (now : Z) (body : Block) : Response * State :=
  let block := assignIds body in
  match validateBlock st now block with
  | Err e => (BadRequest e, st)
  | Ok _ =>
      let st1 := applyBlock st block in
      match maybeRetarget st1 with
      | Err e => (BadRequest e, st1)
      | Ok st2 => (BlockOk (blk_index block), st2)
      end
  end.

(** The peer handler for [{type: 'tx'}]; errors are logged and dropped. *)
Definition p2pTx (st : State) (body : Tx) : Response * State :=
  let tx := assignId body in
  if bool_decide (tx_id tx ∈ seenTx st) || bool_decide (is_Some (mempoolGet (tx_id tx) (mempool st)))
  then (Ignored, st)
  else
    match
      (_ ← validateTx st tx (Z.of_nat (length (chain st)));
       checkMempoolSpent (tx_inputs tx) (mempoolSpent st))
    with
    | Err e => (Ignored, st)
    | Ok _ => (TxOk (tx_id tx), admitTx st tx)
    end.

(** The peer handler for [{type: 'block'}]. *)
Definition p2pBlock (st : State) (now : Z) (b : Block) : Response * State :=
  if bool_decide (headerHash b ∈ seenBlockHash st) then (Ignored, st)
  else
    let block := assignIds b in
    match validateBlock st now block with
    | Err e => (Ignored, st)
    | Ok _ =>
        let st1 := applyBlock st block in
        match maybeRetarget st1 with
        | Err e => (Ignored, st1)
        | Ok st2 => (BlockOk (blk_index block), st2)
        end
    end.

(** [arr.slice(0, end)] *)
Definition slice0 {A} (l : list A) (end_ : Z) : list A :=
  if end_ <? 0 then take (Z.to_nat (Z.of_nat (length l) + end_)) l
  else take (Z.to_nat end_) l.

(** The fee the candidate assembler credits for one pool entry. *)
Definition candidateFee (u : gmap string UtxoEntry) (t : Tx) : Z :=
  let inSum :=
    fold_left (fun s i =>
      match u !! outpointKey (in_txid i) (in_index i) with
      | Some e => s + ue_amount e
      | None => s
      end) (tx_inputs t) 0 in
  let outSum := sumAmounts (tx_outputs t) in
  if outSum <? inSum then inSum - outSum else 0.

(** [Object.values(mempool).slice(0, config.maxBlockTx)] *)
Definition candidatePool (st : State) : list Tx :=
  slice0 (map snd (mempool st)) (maxBlockTx (config st)).

(** [app.get('/block/candidate/:address')].  The pool entries are the
    mempool's own objects, so an id assigned here is assigned in the
    mempool too. *)
Definition getBlockCandidate (st : State) (now : Z) (addr : string) : Response * State :=
  match last (chain st) with
  | None => (ServerError "Cannot read properties of undefined (reading 'index')", st)
  | Some tip =>
      let index := blk_index tip + 1 in
      let previousHash := headerHash tip in
      let pool := candidatePool st in
      let fee := fold_left (fun f t => f + candidateFee (utxo st) t) pool 0 in
      let coinbase0 :=
        {| tx_id := ""; tx_isCoinbase := true; tx_inputs := [];
           tx_outputs := [{| out_address := addr;
                             out_amount := getBlockReward (config st) index + fee |}] |} in
      let coinbase := assignId coinbase0 in
      let list_ := coinbase :: map assignId pool in
      let n := length pool in
      let block :=
        {| blk_index := index; blk_previousHash := previousHash; blk_timestamp := now;
           blk_transactions := list_;
           blk_merkleRoot := merkleRoot (map tx_id list_);
           blk_nonce := 0; blk_bits := cfg_bits (config st) |} in
      (Candidate block,
       {| chain := chain st;
          mempool := map (fun kt => (fst kt, assignId (snd kt))) (take n (mempool st))
                     ++ drop n (mempool st);
          utxo := utxo st; seenTx := seenTx st; seenBlockHash := seenBlockHash st;
          mempoolSpent := mempoolSpent st; config := config st |})
  end.

(** ** Boot *)

Definition genesisBlock (cfg : Config) (now : Z) : Block :=
  {| blk_index := 0; blk_previousHash := "0"; blk_timestamp := now;
     blk_transactions :=
       [{| tx_id := "genesis"; tx_isCoinbase := true; tx_inputs := [];
           tx_outputs := [{| out_address := "genesis"; out_amount := 0 |}] |}];
     blk_merkleRoot := merkleRoot ["genesis"%string];
     blk_nonce := 0; blk_bits := cfg_bits cfg |}.

(** The [app.listen] callback: [loadBlocks()] from the block files [disk],
    a genesis block when there is none, then [rebuildUTXO()]. *)
Definition boot (cfg : Config) (disk : list Block) (now : Z) : State :=
  let c := match disk with [] => [genesisBlock cfg now] | _ => disk end in
  {| chain := c; mempool := []; utxo := rebuildUTXO c; seenTx := ∅;
     seenBlockHash := list_to_set (map headerHash c);
     mempoolSpent := ∅; config := cfg |}.

(** The states the node goes through: boot, then one request or peer
    message at a time. *)
Inductive reachable : State -> Prop :=
| reach_boot cfg disk now : reachable (boot cfg disk now)
| reach_postTransactions st body :
    reachable st -> reachable (snd (postTransactions st body))
| reach_postBlocks st now body :
    reachable st -> reachable (snd (postBlocks st now body))
| reach_p2pTx st body :
    reachable st -> reachable (snd (p2pTx st body))
| reach_p2pBlock st now b :
    reachable st -> reachable (snd (p2pBlock st now b))
| reach_getBlockCandidate st now addr :
    reachable st -> reachable (snd (getBlockCandidate st now addr)).

End Node.

(** ** Fees, as the specification words them

    The fee of a spend is the sum of the amounts of the outputs it
    references minus the sum of its own outputs; within a block each
    transaction is read against the UTXO map left by the ones before it. *)

Definition inputAmount (u : gmap string UtxoEntry) (i : TxInput) : Z :=
  match u !! outpointKey (in_txid i) (in_index i) with
  | Some e => ue_amount e
  | None => 0
  end.

Definition sumZ (l : list Z) : Z := foldr Z.add 0 l.

Definition txFee (u : gmap string UtxoEntry) (tx : Tx) : Z :=
  sumZ (map (inputAmount u) (tx_inputs tx)) - sumZ (map out_amount (tx_outputs tx)).

Fixpoint blockFees (b : Block) (txs : list Tx) (u : gmap string UtxoEntry) : Z :=
  match txs with
  | [] => 0
  | tx :: rest =>
      (if tx_isCoinbase tx then 0 else txFee u tx)
      + blockFees b rest (rebuildTxs b [tx] u)
  end.


(** ** Blocks a submitter can build

    A block on top of the current tip that carries the transactions [txs],
    with the Merkle root of their ids and a [bits] field whose target is
    above every 256-bit hash. *)

Definition easyBits : Z := 0x227fffff.

Definition nextIndex (st : State) : Z :=
  match last (chain st) with
  | None => 0
  | Some tip => blk_index tip + 1
  end.

Section Submitter.

Context `{Primitives}.

Definition extendWith (st : State) (now : Z) (txs : list Tx) : Block :=
  {| blk_index := nextIndex st;
     blk_previousHash :=
       match last (chain st) with
       | None => "0"
       | Some tip => headerHash tip
       end;
     blk_timestamp := now;
     blk_transactions := txs;
     blk_merkleRoot := merkleRoot (map tx_id txs);
     blk_nonce := 0;
     blk_bits := easyBits |}.

End Submitter.

(** A coinbase with the id [id] paying [amount] to [addr]. *)
Definition coinbaseTx (id addr : string) (amount : Z) : Tx :=
  {| tx_id := id; tx_isCoinbase := true; tx_inputs := [];
     tx_outputs := [{| out_address := addr; out_amount := amount |}] |}.

(** A spend with no input and no output. *)
Definition emptySpend : Tx :=
  {| tx_id := "e0"; tx_isCoinbase := false; tx_inputs := []; tx_outputs := [] |}.

(** SHA-256 digests are 32 bytes long. *)
Definition digest32 `{Primitives} : Prop :=
  forall buf, String.length (sha256 buf) = 32%nat.

(** The property names an empty object inherits from [Object.prototype]:
    [mempool[id]] is truthy for each of them although the mempool holds no
    such entry. *)
Definition objectPrototypeNames : list string :=
  ["constructor"; "__defineGetter__"; "__defineSetter__"; "hasOwnProperty";
   "__lookupGetter__"; "__lookupSetter__"; "isPrototypeOf"; "propertyIsEnumerable";
   "toString"; "valueOf"; "__proto__"; "toLocaleString"]%string.

(** [mempool[id]] read as a condition: an entry of the mempool, or an
    inherited property. *)
Definition mempoolTruthy (id : string) (m : list (string * Tx)) : bool :=
  bool_decide (id ∈ objectPrototypeNames) || bool_decide (is_Some (mempoolGet id m)).

(** The node with another value for the [maxBlockTx] entry of its
    configuration, everything else being the same. *)
Definition withMaxBlockTx (st : State) (m : Z) : State :=
  {| chain := chain st; mempool := mempool st; utxo := utxo st; seenTx := seenTx st;
     seenBlockHash := seenBlockHash st; mempoolSpent := mempoolSpent st;
     config := {| adjustEvery := adjustEvery (config st);
                  targetBlockTimeSec := targetBlockTimeSec (config st);
                  blockSubsidy := blockSubsidy (config st);
                  halvingInterval := halvingInterval (config st);
                  coinbaseMaturity := coinbaseMaturity (config st);
                  maxBlockTx := m;
                  cfg_bits := cfg_bits (config st) |} |}.

(** ** The miner's target arithmetic (apps/miner/server.js)

    The miner, and the scanner, decode the bits with their own function:
    bit 23 is part of the mantissa, and one shift serves both directions
    (a BigInt shifted left by a negative count is shifted right). *)

Module Miner.

(** [bitsToTarget(bits)] of the miner *)
Definition bitsToTarget (bits : Z) : Z :=
  let exp := Z.land (Z.shiftr (Compact.toUint32 bits) 24) 255 in
  let mant := Z.land (Compact.toUint32 bits) 8388607 in
  let mant :=
    if negb (Z.land (Compact.toUint32 bits) 8388608 =? 0)
    then Z.lor mant (Z.shiftl 1 23) else mant in
  let shift := 8 * (exp - 3) in
  Z.shiftl mant shift.

(** [meets(hexHash, bits)] of the miner *)
Definition meets (hexHash : string) (bits : Z) : result bool :=
  match Hex.bigIntOfHex hexHash with
  | None => Err ("Cannot convert 0x" ++ hexHash ++ " to a BigInt")
  | Some h => Ok (h <=? bitsToTarget bits)
  end.

End Miner.

(** An id as the Merkle tree reads it: decoded from hexadecimal and printed
    again. *)
Definition hexNormalForm (id : string) : string :=
  Hex.bufferToHex (Hex.bufferFromHex id).

(** The key of the outpoint an input spends. *)
Definition inputKey (i : TxInput) : string := outpointKey (in_txid i) (in_index i).

(** An entry is made by an output of a transaction of a block. *)
Definition madeBy (b : Block) (tx : Tx) (k : string) (e : UtxoEntry) : Prop :=
  exists j o,
    tx_outputs tx !! j = Some o /\ k = outpointKey (tx_id tx) (Z.of_nat j) /\
    e = {| ue_amount := out_amount o; ue_address := out_address o;
           ue_blockHeight := blk_index b; ue_isCoinbase := tx_isCoinbase tx |}.

(** ** Runs of the node, and the read-only routes *)

Section Runs.

Context `{Primitives}.

(** One request or peer message. *)
Inductive step : State -> State -> Prop :=
| step_postTransactions st body : step st (postTransactions st body).2
| step_postBlocks st now body : step st (postBlocks st now body).2
| step_p2pTx st body : step st (p2pTx st body).2
| step_p2pBlock st now b : step st (p2pBlock st now b).2
| step_getBlockCandidate st now addr : step st (getBlockCandidate st now addr).2.

(** The state after a block has been validated: [applyBlock], then
    [maybeRetarget] if it does not throw. *)
Definition accepted (st : State) (block : Block) : State :=
  match maybeRetarget (applyBlock st block) with
  | Ok st2 => st2
  | Err _ => applyBlock st block
  end.

(** Every block but the first has the index after its predecessor's and
    carries its predecessor's header hash. *)
Fixpoint linked (c : list Block) : Prop :=
  match c with
  | [] => True
  | b :: rest =>
      match rest with
      | [] => True
      | b' :: _ =>
          blk_index b' = blk_index b + 1 /\ blk_previousHash b' = headerHash b
      end /\ linked rest
  end.

(** The answer of [GET /tx/:id]: the transaction and the height of its
    block, or [null] for a transaction of the mempool; or a 404. *)
Inductive TxLookup : Type :=
| TxFound (tx : Tx) (blockHeight : option Z)
| TxNotFound.

(** The loop of [GET /tx/:id] over the chain. *)
Fixpoint findInChain (c : list Block) (id : string) : option (Tx * Z) :=
  match c with
  | [] => None
  | b :: rest =>
      match find (fun x => bool_decide (tx_id x = id)) (blk_transactions b) with
      | Some t => Some (t, blk_index b)
      | None => findInChain rest id
      end
  end.

(** [app.get('/tx/:id')] *)
Definition getTx (st : State) (id : string) : TxLookup :=
  match findInChain (chain st) id with
  | Some (t, h) => TxFound t (Some h)
  | None =>
      match mempoolGet id (mempool st) with
      | Some t => TxFound t None
      | None => TxNotFound
      end
  end.

(** [app.get('/tip')]: the last block, or [null]. *)
Definition getTip (st : State) : option Block := last (chain st).

(** [app.get('/block/:h')] for a number [h]: the block, or a 404. *)
Definition getBlock (st : State) (h : Z) : option Block :=
  if (h <? 0) || (Z.of_nat (length (chain st)) <=? h) then None
  else chain st !! Z.to_nat h.

End Runs.

(** What the miner's loop does to a candidate before it tests the hash:
    [block.nonce = nonce++; block.timestamp = Date.now()]. *)
Definition minerTry (b : Block) (nonce now : Z) : Block :=
  {| blk_index := blk_index b; blk_previousHash := blk_previousHash b;
     blk_timestamp := now; blk_transactions := blk_transactions b;
     blk_merkleRoot := blk_merkleRoot b; blk_nonce := nonce;
     blk_bits := blk_bits b |}.

(** The colon that separates the two parts of an outpoint key. *)
Fixpoint hasColon (s : string) : bool :=
  match s with
  | EmptyString => false
  | String c r => if Ascii.eqb c ":" then true else hasColon r
  end.

(** * The node on what a request can carry

    The validators and [applyBlock] once more, in [Module Js], without
    the typing of the requests: an amount is any JS number or is missing,
    sums are binary64 sums, and the [inputs] of a transaction need not be
    an array.  The state holds what these functions write.  What stays
    typed: ids, addresses, keys and signatures are strings, heights,
    indices and timestamps are integers, [outputs] is an array. *)

Module Js.

(** ** Numbers

    A JS number is [m * 2^e] with [|m| < 2^53] and [-1074 <= e <= 971], an
    infinity, or NaN.  A missing amount is [NaN]: [undefined] is read as
    NaN by every [<=], [<] and [+] of the code.  The sign of a zero plays
    no part. *)

Inductive number : Type :=
| Fin (m e : Z)
| Inf (negative : bool)
| NaN.

Definition ofZ (z : Z) : number := Fin z 0.

Definition zero : number := Fin 0 0.

(** Whether [a * 2^e] reaches [2^1024], for [0 <= a]. *)
Definition overflows (a e : Z) : bool :=
  if 0 <=? e then 2 ^ 1024 <=? a * 2 ^ e else 2 ^ (1024 - e) <=? a.

(** The binary64 number nearest to [m * 2^e], for [-1074 <= e]: at most 53
    significant bits are kept, a tie goes to the even significand, and
    what reaches [2^1024] is an infinity. *)
Definition round (m e : Z) : number :=
  let a := Z.abs m in
  let k := Z.log2 a + 1 - 53 in
  let '(a', e') :=
    if k <=? 0 then (a, e)
    else
      let q := a / 2 ^ k in
      let r := a mod 2 ^ k in
      let half := 2 ^ (k - 1) in
      (if (half <? r) || ((r =? half) && Z.odd q) then q + 1 else q, e + k) in
  if overflows a' e' then Inf (m <? 0) else Fin (Z.sgn m * a') e'.

Definition neg (x : number) : number :=
  match x with
  | Fin m e => Fin (- m) e
  | Inf s => Inf (negb s)
  | NaN => NaN
  end.

(** [x + y] *)
Definition add (x y : number) : number :=
  match x, y with
  | NaN, _ | _, NaN => NaN
  | Inf s, Inf t => if Bool.eqb s t then Inf s else NaN
  | Inf s, Fin _ _ | Fin _ _, Inf s => Inf s
  | Fin m1 e1, Fin m2 e2 =>
      let e := Z.min e1 e2 in
      round (m1 * 2 ^ (e1 - e) + m2 * 2 ^ (e2 - e)) e
  end.

(** [x - y] *)
Definition sub (x y : number) : number := add x (neg y).

(** [x < y] *)
Definition ltb (x y : number) : bool :=
  match x, y with
  | NaN, _ | _, NaN => false
  | Inf s, Inf t => s && negb t
  | Inf s, Fin _ _ => s
  | Fin _ _, Inf t => negb t
  | Fin m1 e1, Fin m2 e2 =>
      let e := Z.min e1 e2 in
      m1 * 2 ^ (e1 - e) <? m2 * 2 ^ (e2 - e)
  end.

(** [x <= y] *)
Definition leb (x y : number) : bool :=
  match x, y with
  | NaN, _ | _, NaN => false
  | Inf s, Inf t => s || negb t
  | Inf s, Fin _ _ => s
  | Fin _ _, Inf t => negb t
  | Fin m1 e1, Fin m2 e2 =>
      let e := Z.min e1 e2 in
      m1 * 2 ^ (e1 - e) <=? m2 * 2 ^ (e2 - e)
  end.

(** The same numbers as Rocq's binary64 floats have them, to compare the
    operations above with the machine's. *)
Definition ofSpecFloat (f : spec_float) : number :=
  match f with
  | S754_zero _ => Fin 0 0
  | S754_infinity s => Inf s
  | S754_nan => NaN
  | S754_finite s m e => Fin (if s then Z.neg m else Z.pos m) e
  end.

Definition toFloat (x : number) : float :=
  match x with
  | Fin m e => SF2Prim (binary_normalize prec emax m e false)
  | Inf s => if s then neg_infinity else infinity
  | NaN => nan
  end.

Definition same (x y : number) : bool :=
  match x, y with
  | NaN, NaN => true
  | Inf s, Inf t => Bool.eqb s t
  | Fin m1 e1, Fin m2 e2 =>
      let e := Z.min e1 e2 in
      m1 * 2 ^ (e1 - e) =? m2 * 2 ^ (e2 - e)
  | _, _ => false
  end.

(** What [JSON.stringify] is given for a number that is not NaN. *)
Definition numberJson (x : number) : json :=
  match x with
  | Fin m e =>
      if 0 <=? e then JNum (m * 2 ^ e)
      else if m mod 2 ^ (- e) =? 0 then JNum (m / 2 ^ (- e))
      else let t := Z.log2 (Z.land m (- m)) in JFrac (m / 2 ^ t) (e + t)
  | _ => JNull
  end.

(** ** Requests and state *)

(** The [inputs] field: an array, or [InOther], a value that is truthy,
    has no [length] and cannot be iterated, such as [{}] or [5]. *)
Inductive inputsField : Type :=
| InArray (items : list TxInput)
| InOther.

Record Output := {
  o_address : string;
  o_amount : number
}.

Record Tx := {
  t_id : string;
  t_isCoinbase : bool;
  t_inputs : inputsField;
  t_outputs : list Output
}.

Record Block := {
  b_index : Z;
  b_previousHash : string;
  b_timestamp : Z;
  b_transactions : list Tx;
  b_merkleRoot : string;
  b_nonce : Z;
  b_bits : Z
}.

Record Entry := {
  u_amount : number;
  u_address : string;
  u_blockHeight : Z;
  u_isCoinbase : bool
}.

Record State := {
  s_chain : list Block;
  s_mempool : list (string * Tx);
  s_utxo : gmap string Entry;
  s_seenTx : gset string;
  s_seenBlockHash : gset string;
  s_mempoolSpent : gset string;
  s_config : Config
}.

Fixpoint mempoolGet (id : string) (m : list (string * Tx)) : option Tx :=
  match m with
  | [] => None
  | (k, t) :: r => if decide (k = id) then Some t else mempoolGet id r
  end.

(** [delete mempool[id]] *)
Fixpoint mempoolDelete (id : string) (m : list (string * Tx)) : list (string * Tx) :=
  match m with
  | [] => []
  | (k, t) :: r => if decide (k = id) then r else (k, t) :: mempoolDelete id r
  end.

(** [mempool[id]] read as a condition: an entry of the mempool, or a
    property inherited from [Object.prototype]. *)
Definition mempoolTruthy (id : string) (m : list (string * Tx)) : bool :=
  bool_decide (id ∈ objectPrototypeNames) || bool_decide (is_Some (mempoolGet id m)).

Section Node.

Context `{Primitives}.

(** [{address: o.address, amount: o.amount}] as [JSON.stringify] sees it:
    a missing amount leaves no key. *)
Definition outputJson (o : Output) : json :=
  JObj (("address"%string, JStr (o_address o))
        :: match o_amount o with
           | NaN => []
           | a => [("amount"%string, numberJson a)]
           end).

(** [txIdFor(tx)]: [(tx.inputs || []).map] is not a function when the
    inputs are not an array. *)
Definition txIdFor (tx : Tx) : result string :=
  match t_inputs tx with
  | InOther => Err "(tx.inputs || []).map is not a function"
  | InArray ins =>
      let copy := JObj
        [("inputs"%string,
          JArr (map (fun i => JObj [("txid"%string, JStr (in_txid i));
                                    ("index"%string, JNum (in_index i));
                                    ("pubKey"%string, JStr (in_pubKey i))])
                    ins));
         ("outputs"%string, JArr (map outputJson (t_outputs tx)))] in
      Ok (sha256Hex (JSON_stringify copy))
  end.

Definition headerHash (block : Block) : string :=
  let header :=
    (pretty (b_index block) ++ "|" ++ b_previousHash block ++ "|" ++
     pretty (b_timestamp block) ++ "|" ++ b_merkleRoot block ++ "|" ++
     pretty (b_nonce block) ++ "|" ++ pretty (b_bits block))%string in
  sha256Hex header.

(** [outs.forEach((o, idx) => m.set(`${id}:${idx}`, {...}))], from
    position [idx] on. *)
Fixpoint setOutputs (id : string) (height : Z) (cb : bool) (outs : list Output)
    (idx : nat) (m : gmap string Entry) : gmap string Entry :=
  match outs with
  | [] => m
  | o :: rest =>
      setOutputs id height cb rest (S idx)
        (<[outpointKey id (Z.of_nat idx) :=
             {| u_amount := o_amount o; u_address := o_address o;
                u_blockHeight := height; u_isCoinbase := cb |}]> m)
  end.

Fixpoint deleteInputs (ins : list TxInput) (m : gmap string Entry) : gmap string Entry :=
  match ins with
  | [] => m
  | i :: rest => deleteInputs rest (delete (outpointKey (in_txid i) (in_index i)) m)
  end.

(** [verifyInputSig(tx, inputIndex)], for a transaction whose inputs are
    the array [ins] and with [inp = ins[inputIndex]]. *)
Definition verifyInputSig (ins : list TxInput) (outs : list Output) (inp : TxInput)
    : result unit :=
  _ ← throwIf (bool_decide (in_pubKey inp = ""%string) || bool_decide (in_sig inp = ""%string))
        "missing pubKey or sig";
  let msg := sha256Hex (JSON_stringify (JObj
    [("inputs"%string,
      JArr (map (fun i => JObj [("txid"%string, JStr (in_txid i));
                                ("index"%string, JNum (in_index i))])
                ins));
     ("outputs"%string, JArr (map outputJson outs))])) in
  key ← keyFromPublic (in_pubKey inp);
  throwIf (negb (keyVerify key msg (Hex.bufferFromHex (in_sig inp)))) "bad signature".

(** [cbOut]: [outputs.reduce((s, o) => s + o.amount, 0)] *)
Definition sumAmounts (outs : list Output) : number :=
  fold_left (fun s o => add s (o_amount o)) outs zero.

(** The loop of [validateTx] over the inputs. *)
Fixpoint validateTxInputs (st : State) (currentHeight : Z)
    (all : list TxInput) (outs : list Output)
    (ins : list TxInput) (used : gset string) (inSum : number) : result number :=
  match ins with
  | [] => Ok inSum
  | i :: rest =>
      let key := outpointKey (in_txid i) (in_index i) in
      _ ← throwIf (bool_decide (key ∈ used)) "double spend in tx";
      match s_utxo st !! key with
      | None => Err ("missing UTXO " ++ key)
      | Some entry =>
          _ ← throwIf (u_isCoinbase entry &&
                        (currentHeight - u_blockHeight entry <? coinbaseMaturity (s_config st)))
                "coinbase not mature";
          _ ← verifyInputSig all outs i;
          _ ← throwIf (negb (bool_decide (pubKeyToAddress (in_pubKey i) = u_address entry)))
                "pubKey does not match UTXO address";
          validateTxInputs st currentHeight all outs rest ({[key]} ∪ used)
            (add inSum (u_amount entry))
      end
  end.

(** The loop of [validateTx] over the outputs. *)
Fixpoint validateTxOutputs (outs : list Output) (outSum : number) : result number :=
  match outs with
  | [] => Ok outSum
  | o :: rest =>
      _ ← throwIf (leb (o_amount o) zero) "output <= 0";
      validateTxOutputs rest (add outSum (o_amount o))
  end.

(** [validateTx(tx, currentHeight)] *)
Definition validateTx (st : State) (tx : Tx) (currentHeight : Z) : result unit :=
  match t_inputs tx with
  | InOther => Err "invalid tx format"
  | InArray ins =>
      if t_isCoinbase tx then
        _ ← throwIf (negb (length ins =? 0)%nat) "coinbase must have no inputs";
        throwIf (existsb (fun o => leb (o_amount o) zero) (t_outputs tx)) "coinbase bad amount"
      else
        inSum ← validateTxInputs st currentHeight ins (t_outputs tx) ins ∅ zero;
        outSum ← validateTxOutputs (t_outputs tx) zero;
        throwIf (ltb inSum outSum) "inputs < outputs"
  end.

(** The loop of [validateBlock] over the inputs of a spend. *)
Fixpoint spendInputs (cfg : Config) (block : Block)
    (all : list TxInput) (outs : list Output) (ins : list TxInput)
    (temp : gmap string Entry) (inSum : number) : result (gmap string Entry * number) :=
  match ins with
  | [] => Ok (temp, inSum)
  | i :: rest =>
      let key := outpointKey (in_txid i) (in_index i) in
      match temp !! key with
      | None => Err ("missing input " ++ key)
      | Some ent =>
          _ ← throwIf (u_isCoinbase ent &&
                        (b_index block - u_blockHeight ent <? coinbaseMaturity cfg))
                "coinbase not mature";
          _ ← verifyInputSig all outs i;
          _ ← throwIf (negb (bool_decide (pubKeyToAddress (in_pubKey i) = u_address ent)))
                "pubKey!=address";
          spendInputs cfg block all outs rest (delete key temp) (add inSum (u_amount ent))
      end
  end.

(** The loop of [validateBlock] over the transactions.  For inputs that
    are not an array, [tx.inputs.length] is [undefined]: it differs from
    0, and the loop over the inputs of a spend does not run. *)
Fixpoint validateBlockTxs (cfg : Config) (block : Block) (txs : list Tx)
    (coinbaseCount : Z) (feeTotal : number) (temp : gmap string Entry)
    : result (Z * number * gmap string Entry) :=
  match txs with
  | [] => Ok (coinbaseCount, feeTotal, temp)
  | tx :: rest =>
      if t_isCoinbase tx then
        _ ← throwIf (match t_inputs tx with
                     | InArray ins => negb (length ins =? 0)%nat
                     | InOther => true
                     end) "coinbase has inputs";
        validateBlockTxs cfg block rest (coinbaseCount + 1) feeTotal
          (setOutputs (t_id tx) (b_index block) true (t_outputs tx) 0 temp)
      else
        '(temp, inSum) ←
          match t_inputs tx with
          | InArray ins => spendInputs cfg block ins (t_outputs tx) ins temp zero
          | InOther => Ok (temp, zero)
          end;
        let outSum := sumAmounts (t_outputs tx) in
        _ ← throwIf (ltb inSum outSum) "tx spends more than inputs";
        validateBlockTxs cfg block rest coinbaseCount (add feeTotal (sub inSum outSum))
          (setOutputs (t_id tx) (b_index block) false (t_outputs tx) 0 temp)
  end.

(** [validateBlock(block)], at time [now = Date.now()].  The last message
    also shows the two numbers. *)
Definition validateBlock (st : State) (now : Z) (block : Block) : result unit :=
  _ ← match last (s_chain st) with
      | None => throwIf (negb (b_index block =? 0)) "genesis index must be 0"
      | Some tip =>
          _ ← throwIf (negb (b_index block =? b_index tip + 1)) "bad index";
          throwIf (negb (bool_decide (b_previousHash block = headerHash tip)))
            "prev hash mismatch"
      end;
  _ ← throwIf (now + MAX_FUTURE <? b_timestamp block) "timestamp too far in future";
  let txids := map t_id (b_transactions block) in
  _ ← throwIf (negb (bool_decide (merkleRoot txids = b_merkleRoot block))) "merkle mismatch";
  let hh := headerHash block in
  meets ← Compact.hashMeetsBits hh (b_bits block);
  _ ← throwIf (negb meets) "insufficient PoW";
  '(coinbaseCount, feeTotal, _) ←
    validateBlockTxs (s_config st) block (b_transactions block) 0 zero (s_utxo st);
  _ ← throwIf (negb (coinbaseCount =? 1)) "block must have exactly 1 coinbase";
  let expected := add (ofZ (getBlockReward (s_config st) (b_index block))) feeTotal in
  match find t_isCoinbase (b_transactions block) with
  | None => Err "Cannot read properties of undefined (reading 'outputs')"
  | Some coinbase =>
      let cbOut := sumAmounts (t_outputs coinbase) in
      throwIf (ltb expected cbOut) "coinbase too large"
  end.

(** The loop of [applyBlock] over the transactions, with the exception
    it ends with, if any: [for (const i of tx.inputs || [])] throws on
    inputs that cannot be iterated, and what the loop has written by then
    stays written. *)
Fixpoint applyBlockTxs (block : Block) (txs : list Tx)
    (u : gmap string Entry) (mp : list (string * Tx)) (ms : gset string)
    : gmap string Entry * list (string * Tx) * gset string * option string :=
  match txs with
  | [] => (u, mp, ms, None)
  | tx :: rest =>
      match t_inputs tx with
      | InOther => (u, mp, ms, Some "tx.inputs is not iterable"%string)
      | InArray ins =>
          let u := deleteInputs ins u in
          let u := setOutputs (t_id tx) (b_index block) (t_isCoinbase tx) (t_outputs tx) 0 u in
          if mempoolTruthy (t_id tx) mp
          then applyBlockTxs block rest u (mempoolDelete (t_id tx) mp) (releaseInputs ins ms)
          else applyBlockTxs block rest u mp ms
      end
  end.

(** [applyBlock(block)]: the state it leaves, and the exception if it
    threw before [chain.push]. *)
Definition applyBlock (st : State) (block : Block) : State * option string :=
  let '(u, mp, ms, thrown) :=
    applyBlockTxs block (b_transactions block) (s_utxo st) (s_mempool st) (s_mempoolSpent st) in
  match thrown with
  | Some e =>
      ({| s_chain := s_chain st; s_mempool := mp; s_utxo := u; s_seenTx := s_seenTx st;
          s_seenBlockHash := s_seenBlockHash st; s_mempoolSpent := ms;
          s_config := s_config st |}, Some e)
  | None =>
      ({| s_chain := s_chain st ++ [block]; s_mempool := mp; s_utxo := u;
          s_seenTx := s_seenTx st;
          s_seenBlockHash := {[headerHash block]} ∪ s_seenBlockHash st;
          s_mempoolSpent := ms; s_config := s_config st |}, None)
  end.

(** The header of a block, which is all [maybeRetarget] reads of the
    chain. *)
Definition header (b : Block) :=
  {| blk_index := b_index b; blk_previousHash := b_previousHash b;
     blk_timestamp := b_timestamp b; blk_transactions := [];
     blk_merkleRoot := b_merkleRoot b; blk_nonce := b_nonce b; blk_bits := b_bits b |}.

(** [maybeRetarget()] *)
Definition maybeRetarget (st : State) : result State :=
  st' ← maybeRetarget
          {| chain := map header (s_chain st); mempool := []; utxo := ∅; seenTx := ∅;
             seenBlockHash := ∅; mempoolSpent := ∅; config := s_config st |};
  Ok {| s_chain := s_chain st; s_mempool := s_mempool st; s_utxo := s_utxo st;
        s_seenTx := s_seenTx st; s_seenBlockHash := s_seenBlockHash st;
        s_mempoolSpent := s_mempoolSpent st; s_config := config st' |}.

(** [if (!t.id) t.id = txIdFor(t)] *)
Definition assignId (tx : Tx) : result Tx :=
  if bool_decide (t_id tx = ""%string)
  then id ← txIdFor tx;
       Ok {| t_id := id; t_isCoinbase := t_isCoinbase tx;
             t_inputs := t_inputs tx; t_outputs := t_outputs tx |}
  else Ok tx.

Fixpoint assignAll (txs : list Tx) : result (list Tx) :=
  match txs with
  | [] => Ok []
  | tx :: rest => tx' ← assignId tx; rest' ← assignAll rest; Ok (tx' :: rest')
  end.

(** [for (const t of block.transactions) if (!t.id) t.id = txIdFor(t)] *)
Definition assignIds (b : Block) : result Block :=
  txs ← assignAll (b_transactions b);
  Ok {| b_index := b_index b; b_previousHash := b_previousHash b;
        b_timestamp := b_timestamp b; b_transactions := txs;
        b_merkleRoot := b_merkleRoot b; b_nonce := b_nonce b; b_bits := b_bits b |}.

(** [app.post('/blocks')]: every exception is answered by a 400, also the
    one of [applyBlock], after which the state is the one the loop left. *)
Definition postBlocks (st : State) (now : Z) (body : Block) : Response * State :=
  match assignIds body with
  | Err e => (BadRequest e, st)
  | Ok block =>
      match validateBlock st now block with
      | Err e => (BadRequest e, st)
      | Ok _ =>
          match applyBlock st block with
          | (st1, Some e) => (BadRequest e, st1)
          | (st1, None) =>
              match maybeRetarget st1 with
              | Err e => (BadRequest e, st1)
              | Ok st2 => (BlockOk (b_index block), st2)
              end
          end
      end
  end.

(** [rebuildUTXO()] over a chain: it throws where [applyBlock] does. *)
Fixpoint rebuildTxs (b : Block) (txs : list Tx) (u : gmap string Entry)
    : result (gmap string Entry) :=
  match txs with
  | [] => Ok u
  | tx :: rest =>
      match t_inputs tx with
      | InOther => Err "tx.inputs is not iterable"
      | InArray ins =>
          rebuildTxs b rest
            (setOutputs (t_id tx) (b_index b) (t_isCoinbase tx) (t_outputs tx) 0
               (deleteInputs ins u))
      end
  end.

Fixpoint rebuildBlocks (c : list Block) (u : gmap string Entry) : result (gmap string Entry) :=
  match c with
  | [] => Ok u
  | b :: rest => u' ← rebuildTxs b (b_transactions b) u; rebuildBlocks rest u'
  end.

Definition rebuildUTXO (c : list Block) : result (gmap string Entry) := rebuildBlocks c ∅.

End Node.

End Js.

(** ** Pairs of numbers to compare the operations on

    Pairs of binary64 numbers from a linear congruential generator:
    significands of up to 53 bits of either sign, exponents over the whole
    range, the two exponents of a pair at most 65 apart. *)

Definition nextSeed (x : Z) : Z := (x * 6364136223846793005 + 1442695040888963407) mod 2 ^ 64.

Fixpoint numberPairs (n : nat) (seed : Z) : list (Js.number * Js.number) :=
  match n with
  | O => []
  | S n =>
      let a := nextSeed seed in
      let b := nextSeed a in
      let c := nextSeed b in
      let d := nextSeed c in
      let m1 := (a / 2 ^ 11) * (if Z.odd (a / 2 ^ 5) then 1 else -1) in
      let m2 := (b / 2 ^ 11) * (if Z.odd (b / 2 ^ 5) then 1 else -1) in
      let m1 := if Z.even (d / 2 ^ 20) then m1 else m1 / 2 ^ ((d / 2 ^ 30) mod 53) in
      let e1 := Z.min 971 (c mod 2046 - 1074) in
      let e2 := Z.max (-1074) (Z.min 971 (e1 + d mod 131 - 65)) in
      (Js.Fin m1 e1, Js.Fin m2 e2) :: numberPairs n d
  end.

(** Whether the four operations give on a pair what the machine's give. *)
Definition agreesWithBinary64 (p : Js.number * Js.number) : bool :=
  let '(x, y) := p in
  Js.same (Js.ofSpecFloat (Prim2SF (Js.toFloat x + Js.toFloat y))) (Js.add x y)
  && Js.same (Js.ofSpecFloat (Prim2SF (Js.toFloat x - Js.toFloat y))) (Js.sub x y)
  && Bool.eqb (PrimFloat.ltb (Js.toFloat x) (Js.toFloat y)) (Js.ltb x y)
  && Bool.eqb (PrimFloat.leb (Js.toFloat x) (Js.toFloat y)) (Js.leb x y).

(** ** Typed requests among the untyped ones

    A typed transaction, block or state read as an untyped one: its
    amounts are the integers they are, its inputs are arrays. *)

Definition embedOutput (o : TxOutput) : Js.Output :=
  {| Js.o_address := out_address o; Js.o_amount := Js.ofZ (out_amount o) |}.

Definition embedTx (tx : Tx) : Js.Tx :=
  {| Js.t_id := tx_id tx; Js.t_isCoinbase := tx_isCoinbase tx;
     Js.t_inputs := Js.InArray (tx_inputs tx);
     Js.t_outputs := map embedOutput (tx_outputs tx) |}.

Definition embedBlock (b : Block) : Js.Block :=
  {| Js.b_index := blk_index b; Js.b_previousHash := blk_previousHash b;
     Js.b_timestamp := blk_timestamp b;
     Js.b_transactions := map embedTx (blk_transactions b);
     Js.b_merkleRoot := blk_merkleRoot b; Js.b_nonce := blk_nonce b;
     Js.b_bits := blk_bits b |}.

Definition embedEntry (e : UtxoEntry) : Js.Entry :=
  {| Js.u_amount := Js.ofZ (ue_amount e); Js.u_address := ue_address e;
     Js.u_blockHeight := ue_blockHeight e; Js.u_isCoinbase := ue_isCoinbase e |}.

Definition embedState (st : State) : Js.State :=
  {| Js.s_chain := map embedBlock (chain st);
     Js.s_mempool := map (fun kt => (kt.1, embedTx kt.2)) (mempool st);
     Js.s_utxo := embedEntry <$> utxo st;
     Js.s_seenTx := seenTx st;
     Js.s_seenBlockHash := seenBlockHash st;
     Js.s_mempoolSpent := mempoolSpent st;
     Js.s_config := config st |}.

(** ** Amounts in the range where binary64 sums are exact

    The outputs, and the entries of a UTXO map, whose amounts are at most
    [A] in absolute value; and the number of amounts that the validation
    of a list of transactions adds up. *)

Definition amountsWithin (A : Z) (outs : list TxOutput) : Prop :=
  Forall (fun o => Z.abs (out_amount o) <= A) outs.

Definition entriesWithin (A : Z) (u : gmap string UtxoEntry) : Prop :=
  forall k e, u !! k = Some e -> Z.abs (ue_amount e) <= A.

Definition txTerms (tx : Tx) : Z :=
  Z.of_nat (length (tx_inputs tx)) + Z.of_nat (length (tx_outputs tx)).


(** ** Untyped blocks a submitter can build *)

(** A spend whose [inputs] field is not an array, with no output. *)
Definition notIterableSpend (id : string) : Js.Tx :=
  {| Js.t_id := id; Js.t_isCoinbase := false; Js.t_inputs := Js.InOther; Js.t_outputs := [] |}.

Section UntypedSubmitter.

Context `{Primitives}.

(** [extendWith] for untyped transactions. *)
Definition extendWithUntyped (st : State) (now : Z) (txs : list Js.Tx) : Js.Block :=
  {| Js.b_index := nextIndex st;
     Js.b_previousHash :=
       match last (chain st) with
       | None => "0"
       | Some tip => headerHash tip
       end;
     Js.b_timestamp := now;
     Js.b_transactions := txs;
     Js.b_merkleRoot := merkleRoot (map Js.t_id txs);
     Js.b_nonce := 0;
     Js.b_bits := easyBits |}.

End UntypedSubmitter.

(** ** Sample primitives and states

    Stand-ins for the primitives, on which the node can be run: every
    digest is zero and every signature verifies. *)

Definition zeroDigest (n : nat) : string :=
  string_of_list_ascii (repeat (ascii_of_nat 0) n).

Definition samplePrimitives : Primitives := {|
  sha256 := fun _ => zeroDigest 32;
  ripemd160 := fun _ => zeroDigest 20;
  JSON_stringify := fun _ => ""%string;
  ECKey := string;
  keyFromPublic := fun pub => Ok pub;
  keyVerify := fun _ _ _ => true
|}.

Definition sampleAddress : string := "0000000000000000000000000000000000000000".

Definition sampleState : State := boot (H := samplePrimitives) defaultConfig [] 1000.

(** Two blocks with a coinbase each on top of the genesis block, then a
    spend of the first coinbase, which is mature at height 3. *)

Definition sampleState1 : State :=
  (postBlocks (H := samplePrimitives) sampleState 1500
     (extendWith (H := samplePrimitives) sampleState 1500
        [coinbaseTx "c1" sampleAddress 5])).2.

Definition sampleState2 : State :=
  (postBlocks (H := samplePrimitives) sampleState1 2500
     (extendWith (H := samplePrimitives) sampleState1 2500
        [coinbaseTx "c2" sampleAddress 5])).2.

Definition sampleSpend : Tx :=
  {| tx_id := "d3"; tx_isCoinbase := false;
     tx_inputs := [{| in_txid := "c1"; in_index := 0; in_pubKey := "02ab"; in_sig := "3045" |}];
     tx_outputs := [{| out_address := sampleAddress; out_amount := 3 |};
                    {| out_address := sampleAddress; out_amount := 1 |}] |}.

Definition sampleBlock3 : Block :=
  extendWith (H := samplePrimitives) sampleState2 3500
    [coinbaseTx "c3" sampleAddress 6; sampleSpend].

(** [n] blocks with one coinbase each, submitted to [POST /blocks] one
    after the other, [gap] milliseconds apart from the genesis block on. *)
Fixpoint mineBlocks (n : nat) (gap : Z) (st : State) : State :=
  match n with
  | O => st
  | S k =>
      let st' := mineBlocks k gap st in
      let now := 1000 + gap * Z.of_nat (length (chain st')) in
      (postBlocks (H := samplePrimitives) st' now
         (extendWith (H := samplePrimitives) st' now [coinbaseTx "c0" sampleAddress 0])).2
  end.

(** States for the retargeter, which reads the length of the chain, two
    timestamps and the config: ten blocks, [gap] milliseconds apart. *)

Definition timedBlock (i gap : Z) : Block :=
  {| blk_index := i; blk_previousHash := ""; blk_timestamp := 1000 + i * gap;
     blk_transactions := []; blk_merkleRoot := ""; blk_nonce := 0;
     blk_bits := cfg_bits defaultConfig |}.

Definition timedState (cfg : Config) (gap : Z) : State :=
  {| chain := map (fun i => timedBlock i gap) [0; 1; 2; 3; 4; 5; 6; 7; 8; 9];
     mempool := []; utxo := ∅; seenTx := ∅; seenBlockHash := ∅;
     mempoolSpent := ∅; config := cfg |}.

(** Blocks every 0.5 s where 10 s are wanted, and every 100 s. *)
Definition fastState : State := timedState defaultConfig 500.
Definition slowState : State := timedState defaultConfig 100000.

(** A config file with a small target, and blocks on schedule. *)
Definition smallTargetState : State :=
  timedState (setBits defaultConfig 0x0300ffff) 10000.

(** The config after [maybeRetarget], the old one if it throws. *)
Definition bitsAfterRetarget (st : State) : Z :=
  match maybeRetarget st with
  | Ok st' => cfg_bits (config st')
  | Err _ => cfg_bits (config st)
  end.

(** A spend of the first sample coinbase that has no output. *)
Definition sampleSpendNoOutput : Tx :=
  {| tx_id := "d4"; tx_isCoinbase := false;
     tx_inputs := tx_inputs sampleSpend; tx_outputs := [] |}.

(** The sample spend waiting in the mempool. *)
Definition sampleStatePending : State :=
  (postTransactions (H := samplePrimitives) sampleState2 sampleSpend).2.

(** The template the node hands out with an empty mempool. *)
Definition sampleTemplate : Block :=
  match getBlockCandidate (H := samplePrimitives) sampleState2 3500 sampleAddress with
  | (Candidate b, _) => b
  | _ => genesisBlock (H := samplePrimitives) defaultConfig 0
  end.

(** A transaction marked as a coinbase, posted to the mempool, and the
    template the node hands out then. *)
Definition sampleMint : Tx := coinbaseTx "f1" sampleAddress 1000000.

Definition sampleStateMint : State :=
  (postTransactions (H := samplePrimitives) sampleState2 sampleMint).2.

Definition sampleTemplateMint : Block :=
  match getBlockCandidate (H := samplePrimitives) sampleStateMint 3500 sampleAddress with
  | (Candidate b, _) => b
  | _ => genesisBlock (H := samplePrimitives) defaultConfig 0
  end.

(** Two templates for one address, each mined and posted on top of the
    genesis block. *)
Definition sampleReward1 : Block :=
  match getBlockCandidate (H := samplePrimitives) sampleState 1500 sampleAddress with
  | (Candidate b, _) => b
  | _ => genesisBlock (H := samplePrimitives) defaultConfig 0
  end.

Definition sampleStateReward1 : State :=
  (postBlocks (H := samplePrimitives) sampleState 1600 (minerTry sampleReward1 7 1600)).2.

Definition sampleReward2 : Block :=
  match getBlockCandidate (H := samplePrimitives) sampleStateReward1 2500 sampleAddress with
  | (Candidate b, _) => b
  | _ => genesisBlock (H := samplePrimitives) defaultConfig 0
  end.






(** * Properties *)

(** ** Exceptions *)

Lemma bind_Ok {A B} (k : A -> result B) (r : result A) (b : B) :
  mbind k r = Ok b -> exists a, r = Ok a /\ k a = Ok b.
Proof. destruct r as [a|m]; [eauto|discriminate]. Qed.

Lemma bind_Err {A B} (k : A -> result B) (r : result A) (e : string) :
  r = Err e -> mbind k r = Err e.
Proof. intros ->. reflexivity. Qed.

Lemma throwIf_Ok c msg u : throwIf c msg = Ok u -> c = false.
Proof. destruct c; [discriminate|reflexivity]. Qed.

Lemma throwIf_true msg : throwIf true msg = Err msg.
Proof. reflexivity. Qed.

Lemma throwIf_false c msg : c = false -> throwIf c msg = Ok tt.
Proof. intros ->. reflexivity. Qed.

(** Opens [x ← r; k = Ok b] in [H] into [r = Ok x] and [k x = Ok b]. *)
Tactic Notation "bind_inv" hyp(H) :=
  let a := fresh "a" in
  let Ha := fresh "Hstep" in
  apply bind_Ok in H as (a & Ha & H).

Tactic Notation "bind_inv" hyp(H) "as" simple_intropattern(a) ident(Ha) :=
  apply bind_Ok in H as (a & Ha & H).

Section ChainProperties.

Context `{Primitives}.

(** *** The UTXO map is the replay of the chain *)

Lemma applyBlockTxs_utxo block txs u mp ms :
  (applyBlockTxs block txs u mp ms).1.1 = rebuildTxs block txs u.
Proof.
  revert u mp ms.
  induction txs as [|tx rest IH]; intros u mp ms; [reflexivity|].
  cbn [applyBlockTxs rebuildTxs].
  destruct (mempoolGet (tx_id tx) mp); apply IH.
Qed.

Lemma applyBlock_utxo st block :
  utxo (applyBlock st block) = rebuildTxs block (blk_transactions block) (utxo st).
Proof.
  unfold applyBlock.
  rewrite <- (applyBlockTxs_utxo block _ (utxo st) (mempool st) (mempoolSpent st)).
  destruct (applyBlockTxs _ _ _ _ _) as [[u mp] ms]. reflexivity.
Qed.

Lemma applyBlock_chain st block : chain (applyBlock st block) = chain st ++ [block].
Proof.
  unfold applyBlock.
  destruct (applyBlockTxs _ _ _ _ _) as [[u mp] ms]. reflexivity.
Qed.

Lemma rebuildBlocks_snoc c b u :
  rebuildBlocks (c ++ [b]) u = rebuildTxs b (blk_transactions b) (rebuildBlocks c u).
Proof.
  revert u. induction c as [|b0 c IH]; intros u; [reflexivity|].
  cbn [app rebuildBlocks]. apply IH.
Qed.

Lemma maybeRetarget_keeps st st' :
  maybeRetarget st = Ok st' ->
  chain st' = chain st /\ utxo st' = utxo st /\ mempool st' = mempool st /\
  mempoolSpent st' = mempoolSpent st.
Proof.
  unfold maybeRetarget.
  destruct (_ || _); [intros [= <-]; auto|].
  destruct (chainAt _ _); [|discriminate].
  destruct (chainAt _ _); [|discriminate].
  destruct (retargetDivisor _ _ _); [|discriminate].
  destruct (_ =? 0); [discriminate|].
  intros [= <-]. auto.
Qed.

(** The replay invariant is kept by [applyBlock]. *)
Lemma applyBlock_replay st block :
  utxo st = rebuildUTXO (chain st) ->
  utxo (applyBlock st block) = rebuildUTXO (chain (applyBlock st block)).
Proof.
  intros Hinv. rewrite applyBlock_utxo, applyBlock_chain.
  unfold rebuildUTXO. rewrite rebuildBlocks_snoc. f_equal. exact Hinv.
Qed.

Lemma accept_replay st block :
  utxo st = rebuildUTXO (chain st) ->
  let st1 := applyBlock st block in
  utxo (match maybeRetarget st1 with Ok st2 => st2 | Err _ => st1 end)
  = rebuildUTXO (chain (match maybeRetarget st1 with Ok st2 => st2 | Err _ => st1 end)).
Proof.
  intros Hinv st1. pose proof (applyBlock_replay st block Hinv) as H1.
  destruct (maybeRetarget st1) as [st2|e] eqn:E; [|exact H1].
  destruct (maybeRetarget_keeps _ _ E) as (-> & -> & _). exact H1.
Qed.

Lemma postBlocks_replay st now body :
  utxo st = rebuildUTXO (chain st) ->
  utxo (postBlocks st now body).2 = rebuildUTXO (chain (postBlocks st now body).2).
Proof.
  intros Hinv. unfold postBlocks.
  destruct (validateBlock st now (assignIds body)); [|exact Hinv].
  pose proof (accept_replay st (assignIds body) Hinv) as H1. cbv zeta in H1.
  destruct (maybeRetarget _); exact H1.
Qed.

Lemma p2pBlock_replay st now b :
  utxo st = rebuildUTXO (chain st) ->
  utxo (p2pBlock st now b).2 = rebuildUTXO (chain (p2pBlock st now b).2).
Proof.
  intros Hinv. unfold p2pBlock.
  destruct (bool_decide _); [exact Hinv|].
  destruct (validateBlock st now (assignIds b)); [|exact Hinv].
  pose proof (accept_replay st (assignIds b) Hinv) as H1. cbv zeta in H1.
  destruct (maybeRetarget _); exact H1.
Qed.

Lemma postTransactions_keeps st body :
  chain (postTransactions st body).2 = chain st /\
  utxo (postTransactions st body).2 = utxo st.
Proof.
  unfold postTransactions.
  destruct (_ ≫= _); [|auto].
  destruct (mempoolGet _ _); auto.
Qed.

Lemma p2pTx_keeps st body :
  chain (p2pTx st body).2 = chain st /\ utxo (p2pTx st body).2 = utxo st.
Proof.
  unfold p2pTx.
  destruct (_ || _); [auto|].
  destruct (_ ≫= _); auto.
Qed.

Lemma getBlockCandidate_keeps st now addr :
  chain (getBlockCandidate st now addr).2 = chain st /\
  utxo (getBlockCandidate st now addr).2 = utxo st.
Proof.
  unfold getBlockCandidate. destruct (last (chain st)); auto.
Qed.

(** On typed requests the invariant holds: in every state reached through
    them the live UTXO map is [rebuildUTXO] of the chain, the replay of
    every block in height order from the empty map; and applying one more
    block with [applyBlock] gives the same map as replaying the extended
    chain from the empty map. *)
Lemma utxo_is_replay_of_typed_runs st :
  reachable st ->
  utxo st = rebuildUTXO (chain st) /\
  forall block, utxo (applyBlock st block) = rebuildUTXO (chain st ++ [block]).
Proof.
  intros Hr.
  assert (Hinv : utxo st = rebuildUTXO (chain st)).
  { induction Hr as [cfg disk now | st body _ IH | st now body _ IH
                    | st body _ IH | st now b _ IH | st now addr _ IH].
    - reflexivity.
    - destruct (postTransactions_keeps st body) as [-> ->]. exact IH.
    - apply postBlocks_replay, IH.
    - destruct (p2pTx_keeps st body) as [-> ->]. exact IH.
    - apply p2pBlock_replay, IH.
    - destruct (getBlockCandidate_keeps st now addr) as [-> ->]. exact IH. }
  split; [exact Hinv|].
  intros block. rewrite <- applyBlock_chain. apply applyBlock_replay, Hinv.
Qed.

(** *** Rejected blocks leave no trace *)

(** C7. When [validateBlock] rejects the submitted block, whatever the
    rule that failed, [POST /blocks] answers 400 with that error and the
    state (chain, UTXO map, mempool, mempool-spent set, and the rest) is
    the one before the submission; the same block coming from a peer
    leaves the state as it was too. *)
Theorem rejected_block_leaves_state st now body e :
  validateBlock st now (assignIds body) = Err e ->
  postBlocks st now body = (BadRequest e, st) /\
  p2pBlock st now body = (Ignored, st).
Proof.
  intros Hv. split.
  - unfold postBlocks. rewrite Hv. reflexivity.
  - unfold p2pBlock. rewrite Hv. destruct (bool_decide _); reflexivity.
Qed.

(** The state changes only when [validateBlock] has accepted the block. *)
Lemma state_changes_only_after_validation st now body :
  (postBlocks st now body).2 <> st ->
  validateBlock st now (assignIds body) = Ok tt.
Proof.
  unfold postBlocks.
  destruct (validateBlock st now (assignIds body)) as [[]|e]; [reflexivity|].
  intros Hne. exfalso. apply Hne. reflexivity.
Qed.

End ChainProperties.

Section MerkleProperties.

Context `{Primitives}.

(** *** The loop of [merkleRoot] ends *)

Lemma merkleLayer_length n nodes :
  (length nodes <= n)%nat ->
  (length (merkleLayer nodes) <= length nodes)%nat /\
  (2 <= length nodes -> length (merkleLayer nodes) < length nodes)%nat.
Proof.
  revert nodes. induction n as [|n IH]; intros nodes Hn.
  - destruct nodes; [cbn; lia|cbn in Hn; lia].
  - destruct nodes as [|a [|b rest]]; [cbn; lia|cbn; lia|].
    cbn [merkleLayer length] in *.
    destruct (IH rest ltac:(lia)) as [Hle _]. lia.
Qed.

(** The fuel [merkleRoot] gives the loop is enough: the loop stops on a
    single node. *)
Lemma merkleLoop_single fuel nodes :
  (length nodes <= S fuel)%nat -> (length (merkleLoop fuel nodes) <= 1)%nat.
Proof.
  revert nodes. induction fuel as [|f IH]; intros nodes Hlen; [exact Hlen|].
  cbn [merkleLoop]. destruct (Nat.ltb_spec 1 (length nodes)) as [Hlt|Hge]; [|lia].
  apply IH.
  destruct (merkleLayer_length (length nodes) nodes ltac:(lia)) as [_ Hlt']. lia.
Qed.

(** The root of a single id is that id, read as hexadecimal and printed
    again; no hash is taken. *)
Lemma merkleRoot_single id :
  merkleRoot [id] = Hex.bufferToHex (Hex.bufferFromHex id).
Proof. reflexivity. Qed.

End MerkleProperties.

Section ValidationProperties.

Context `{Primitives}.

(** *** The coinbase bound *)

Lemma sumAmounts_from outs s :
  fold_left (fun s o => s + out_amount o) outs s = s + sumZ (map out_amount outs).
Proof.
  revert s. induction outs as [|o outs IH]; intros s; cbn; [lia|].
  rewrite IH. unfold sumZ. lia.
Qed.

Lemma sumAmounts_sumZ outs : sumAmounts outs = sumZ (map out_amount outs).
Proof. unfold sumAmounts. rewrite sumAmounts_from. lia. Qed.

(** Every input of a spend that went through was found in the map. *)
Lemma spendInputs_found cfg block tx ins temp s r :
  spendInputs cfg block tx ins temp s = Ok r ->
  Forall (fun i => is_Some (temp !! outpointKey (in_txid i) (in_index i))) ins.
Proof.
  revert temp s. induction ins as [|i rest IH]; intros temp s Hs; [constructor|].
  cbn [spendInputs] in Hs.
  destruct (temp !! _) as [ent|] eqn:E; [|discriminate].
  do 3 bind_inv Hs.
  constructor; [rewrite E; eauto|].
  apply IH in Hs. eapply Forall_impl; [exact Hs|].
  intros i' [e' He']. apply lookup_delete_Some in He' as [_ He']. eauto.
Qed.

Lemma spendInputs_spec cfg block tx ins temp s temp' s' :
  spendInputs cfg block tx ins temp s = Ok (temp', s') ->
  temp' = deleteInputs ins temp /\ s' = s + sumZ (map (inputAmount temp) ins).
Proof.
  revert temp s. induction ins as [|i rest IH]; intros temp s Hs.
  - cbn in Hs. simplify_eq. cbn. split; [reflexivity|lia].
  - cbn [spendInputs] in Hs.
    destruct (temp !! outpointKey (in_txid i) (in_index i)) as [ent|] eqn:E; [|discriminate].
    do 3 bind_inv Hs.
    pose proof (spendInputs_found _ _ _ _ _ _ _ Hs) as Hfound.
    apply IH in Hs as [-> ->]. split; [reflexivity|].
    cbn [map sumZ foldr]. unfold inputAmount at 2. rewrite E.
    assert (Heq : map (inputAmount (delete (outpointKey (in_txid i) (in_index i)) temp)) rest
                  = map (inputAmount temp) rest).
    { apply map_ext_Forall. eapply Forall_impl; [exact Hfound|].
      intros i' [e' He']. unfold inputAmount.
      apply lookup_delete_Some in He' as [Hne He'].
      rewrite lookup_delete_ne by exact Hne. reflexivity. }
    rewrite Heq. unfold sumZ. lia.
Qed.

Lemma validateBlockTxs_spec cfg block txs c f temp c' f' temp' :
  validateBlockTxs cfg block txs c f temp = Ok (c', f', temp') ->
  c' = c + Z.of_nat (length (filter (fun t => tx_isCoinbase t = true) txs)) /\
  f' = f + blockFees block txs temp /\
  temp' = rebuildTxs block txs temp.
Proof.
  revert c f temp. induction txs as [|tx rest IH]; intros c f temp Hv.
  - cbn in Hv. simplify_eq. cbn. repeat split; lia.
  - cbn [validateBlockTxs] in Hv. cbn [blockFees rebuildTxs].
    rewrite filter_cons.
    destruct (tx_isCoinbase tx) eqn:Hcb.
    + destruct (decide (true = true)); [|congruence].
      bind_inv Hv as ? Hnil. apply throwIf_Ok, negb_false_iff, Nat.eqb_eq in Hnil.
      apply nil_length_inv in Hnil. rewrite Hnil.
      apply IH in Hv as (-> & -> & ->).
      cbn [deleteInputs length]. repeat split; lia.
    + destruct (decide (false = true)); [congruence|].
      bind_inv Hv as [t1 inSum] Hspend. bind_inv Hv.
      apply spendInputs_spec in Hspend as [-> ->].
      apply IH in Hv as (-> & -> & ->).
      unfold txFee. rewrite sumAmounts_sumZ. repeat split; lia.
Qed.




End ValidationProperties.

(** ** Hexadecimal digests *)

Lemma digitVal_digitChar d : 0 <= d < 16 -> Hex.digitVal (Hex.digitChar d) = Some d.
Proof.
  intros Hd.
  assert (Hcases : d = 0 \/ d = 1 \/ d = 2 \/ d = 3 \/ d = 4 \/ d = 5 \/ d = 6 \/ d = 7 \/
                   d = 8 \/ d = 9 \/ d = 10 \/ d = 11 \/ d = 12 \/ d = 13 \/ d = 14 \/ d = 15)
    by lia.
  repeat (destruct Hcases as [-> | Hcases]; [reflexivity|]). subst d. reflexivity.
Qed.

Lemma ascii_byte_range c : 0 <= Z.of_nat (nat_of_ascii c) < 256.
Proof. pose proof (nat_ascii_bounded c). lia. Qed.

Lemma parseDigits_bufferToHex b acc seen :
  Hex.parseDigits (Hex.bufferToHex b) acc seen
  = (Hex.bufferValue b acc,
     seen || match b with EmptyString => false | String _ _ => true end).
Proof.
  revert acc seen. induction b as [|c r IH]; intros acc seen.
  - cbn. rewrite orb_false_r. reflexivity.
  - pose proof (ascii_byte_range c) as Hc.
    cbn [Hex.bufferToHex Hex.parseDigits Hex.bufferValue].
    rewrite !digitVal_digitChar
      by (try apply Z.mod_pos_bound; try (split; [apply Z.div_pos|apply Z.div_lt_upper_bound]); lia).
    rewrite IH. f_equal.
    + f_equal. pose proof (Z.div_mod (Z.of_nat (nat_of_ascii c)) 16). lia.
    + rewrite orb_true_r. destruct r; reflexivity.
Qed.

Lemma allHex_bufferToHex b : Hex.allHex (Hex.bufferToHex b) = true.
Proof.
  induction b as [|c r IH]; [reflexivity|].
  pose proof (ascii_byte_range c) as Hc.
  cbn [Hex.bufferToHex Hex.allHex].
  rewrite !digitVal_digitChar
    by (try apply Z.mod_pos_bound; try (split; [apply Z.div_pos|apply Z.div_lt_upper_bound]); lia).
  exact IH.
Qed.

Lemma bufferValue_bound b acc :
  0 <= acc ->
  0 <= Hex.bufferValue b acc < (acc + 1) * 256 ^ Z.of_nat (String.length b).
Proof.
  revert acc. induction b as [|c r IH]; intros acc Hacc.
  - cbn. lia.
  - pose proof (ascii_byte_range c) as Hc.
    cbn [Hex.bufferValue String.length].
    rewrite Nat2Z.inj_succ, Z.pow_succ_r by lia.
    specialize (IH (256 * acc + Z.of_nat (nat_of_ascii c))).
    assert (0 < 256 ^ Z.of_nat (String.length r)) by (apply Z.pow_pos_nonneg; lia).
    nia.
Qed.

(** A non-empty buffer printed in hexadecimal reads back as a BigInt below
    256 to the power of its length. *)
Lemma bigIntOfHex_bufferToHex b :
  b <> ""%string ->
  exists v, Hex.bigIntOfHex (Hex.bufferToHex b) = Some v /\
            0 <= v < 256 ^ Z.of_nat (String.length b).
Proof.
  intros Hb. exists (Hex.bufferValue b 0). split.
  - unfold Hex.bigIntOfHex. rewrite allHex_bufferToHex, parseDigits_bufferToHex.
    destruct b; [congruence|reflexivity].
  - pose proof (bufferValue_bound b 0). lia.
Qed.

Section SubmitterProperties.

Context `{Primitives}.

Lemma hash_meets_easyBits buf :
  digest32 -> Compact.hashMeetsBits (sha256Hex buf) easyBits = Ok true.
Proof.
  intros Hd. unfold Compact.hashMeetsBits, sha256Hex.
  destruct (bigIntOfHex_bufferToHex (sha256 buf)) as (v & -> & Hv).
  { intros E. specialize (Hd buf). rewrite E in Hd. discriminate. }
  rewrite Hd in Hv. f_equal. apply Z.leb_le.
  change (Compact.bitsToTarget easyBits) with (8388607 * 2 ^ 248).
  change (256 ^ Z.of_nat 32) with (2 ^ 256) in Hv. lia.
Qed.

(** For a block built by [extendWith], the header rules of
    [validateBlock] hold and the verdict is the one of the transactions. *)
Lemma validateBlock_extendWith st now txs :
  digest32 ->
  validateBlock st now (extendWith st now txs)
  = ('(coinbaseCount, feeTotal, _) ←
       validateBlockTxs (config st) (extendWith st now txs) txs 0 0 (utxo st);
     _ ← throwIf (negb (coinbaseCount =? 1)) "block must have exactly 1 coinbase";
     let expected := getBlockReward (config st) (nextIndex st) + feeTotal in
     match find tx_isCoinbase txs with
     | None => Err "Cannot read properties of undefined (reading 'outputs')"
     | Some coinbase =>
         let cbOut := sumAmounts (tx_outputs coinbase) in
         throwIf (expected <? cbOut)
           ("coinbase too large: " ++ pretty cbOut ++ " > " ++ pretty expected)
     end).
Proof.
  intros Hd. unfold validateBlock.
  assert (Hhead :
    match last (chain st) with
    | None => throwIf (negb (blk_index (extendWith st now txs) =? 0)) "genesis index must be 0"
    | Some tip =>
        _ ← throwIf (negb (blk_index (extendWith st now txs) =? blk_index tip + 1)) "bad index";
        throwIf (negb (bool_decide (blk_previousHash (extendWith st now txs) = headerHash tip)))
          "prev hash mismatch"
    end = Ok tt).
  { unfold extendWith, nextIndex. cbn.
    destruct (last (chain st)) as [tip|]; [|reflexivity].
    rewrite Z.eqb_refl. cbn. rewrite bool_decide_eq_true_2 by reflexivity. reflexivity. }
  rewrite Hhead. cbn [mbind result_bind rbind].
  assert (Hts : (now + MAX_FUTURE <? blk_timestamp (extendWith st now txs)) = false).
  { apply Z.ltb_ge. cbn. unfold MAX_FUTURE. lia. }
  rewrite Hts. cbn [throwIf mbind result_bind rbind].
  rewrite bool_decide_eq_true_2 by reflexivity. cbn [negb throwIf mbind result_bind rbind].
  change (blk_bits (extendWith st now txs)) with easyBits.
  unfold headerHash at 1. rewrite hash_meets_easyBits by exact Hd. reflexivity.
Qed.

End SubmitterProperties.

(** ** Outpoint keys *)

Lemma string_length_app (a b : string) :
  String.length (a ++ b) = (String.length a + String.length b)%nat.
Proof. induction a as [|c a IH]; [reflexivity|]. simpl. f_equal. exact IH. Qed.

Lemma string_app_inv_tail (a b s : string) : (a ++ s = b ++ s)%string -> a = b.
Proof.
  revert b. induction a as [|c a IH]; intros [|d b] Heq.
  - reflexivity.
  - apply (f_equal String.length) in Heq.
    rewrite !string_length_app in Heq. cbn in Heq. lia.
  - apply (f_equal String.length) in Heq.
    rewrite !string_length_app in Heq. cbn in Heq. lia.
  - cbn in Heq. injection Heq as -> Heq. f_equal. apply IH, Heq.
Qed.

(** Two ids that give the same key for one index are the same id. *)
Lemma outpointKey_inj_id a b index : outpointKey a index = outpointKey b index -> a = b.
Proof. unfold outpointKey. apply string_app_inv_tail. Qed.

Section IdProperties.

Context `{Primitives}.

Lemma getBlockReward_nonneg cfg h : 0 <= getBlockReward cfg h.
Proof. unfold getBlockReward. lia. Qed.

Lemma assignId_nonempty tx : tx_id tx <> ""%string -> assignId tx = tx.
Proof. intros Hid. unfold assignId. rewrite bool_decide_eq_false_2 by exact Hid. reflexivity. Qed.

(** The UTXO map after [POST /blocks] of a block that [validateBlock]
    accepts, whatever [maybeRetarget] then does. *)
Lemma postBlocks_accepted_utxo st now body :
  validateBlock st now (assignIds body) = Ok tt ->
  utxo (postBlocks st now body).2
  = rebuildTxs (assignIds body) (blk_transactions (assignIds body)) (utxo st).
Proof.
  intros Hv. unfold postBlocks. rewrite Hv.
  rewrite <- applyBlock_utxo.
  destruct (maybeRetarget (applyBlock st (assignIds body))) as [st2|e] eqn:E;
    cbn [snd]; [|reflexivity].
  apply maybeRetarget_keeps in E as (_ & -> & _). reflexivity.
Qed.

(** C9. [validateBlock] never compares a transaction's [id] with
    [txIdFor] of its content.  For any non-empty string [supplied], the
    block on top of the tip whose only transaction is a coinbase carrying
    [supplied] as its id, with the Merkle root computed over that string,
    is accepted; afterwards the UTXO map has the coinbase output under the
    key of [supplied], and nothing new under the key of the id derived
    from the content. *)
Theorem supplied_tx_id_is_not_checked st now supplied addr :
  digest32 ->
  supplied <> ""%string ->
  let cb := coinbaseTx supplied addr 0 in
  let block := extendWith st now [cb] in
  blk_merkleRoot block = merkleRoot [supplied] /\
  assignIds block = block /\
  validateBlock st now block = Ok tt /\
  utxo (postBlocks st now block).2 !! outpointKey supplied 0
  = Some {| ue_amount := 0; ue_address := addr;
            ue_blockHeight := nextIndex st; ue_isCoinbase := true |} /\
  (txIdFor cb <> supplied ->
   utxo (postBlocks st now block).2 !! outpointKey (txIdFor cb) 0
   = utxo st !! outpointKey (txIdFor cb) 0).
Proof.
  intros Hd Hid cb block.
  assert (Hassign : assignIds block = block).
  { unfold assignIds, block, extendWith, withTransactions. cbn.
    rewrite (assignId_nonempty cb) by exact Hid. reflexivity. }
  assert (Hvalid : validateBlock st now block = Ok tt).
  { unfold block. rewrite validateBlock_extendWith by exact Hd. cbn.
    change (0 + 1 =? 1) with true. cbn [negb throwIf mbind result_bind rbind].
    pose proof (getBlockReward_nonneg (config st) (nextIndex st)).
    apply throwIf_false, Z.ltb_ge. lia. }
  assert (Hutxo : utxo (postBlocks st now block).2
                  = <[outpointKey supplied 0 :=
                        {| ue_amount := 0; ue_address := addr;
                           ue_blockHeight := nextIndex st; ue_isCoinbase := true |}]> (utxo st)).
  { rewrite postBlocks_accepted_utxo by (rewrite Hassign; exact Hvalid).
    rewrite Hassign. reflexivity. }
  repeat split; [exact Hassign | exact Hvalid | |].
  - rewrite Hutxo. apply lookup_insert_eq.
  - intros Hne. rewrite Hutxo. apply lookup_insert_ne.
    intros Heq. apply outpointKey_inj_id in Heq. congruence.
Qed.

(** *** The number of transactions in a block *)

Lemma validateBlockTxs_emptySpends cfg block n c f temp :
  validateBlockTxs cfg block (repeat emptySpend n) c f temp = Ok (c, f, temp).
Proof.
  induction n as [|n IH]; [reflexivity|].
  cbn [repeat validateBlockTxs]. cbn. rewrite Z.add_0_r. exact IH.
Qed.

Lemma find_coinbase_head cb rest :
  tx_isCoinbase cb = true -> find tx_isCoinbase (cb :: rest) = Some cb.
Proof. intros Hcb. cbn. rewrite Hcb. reflexivity. Qed.

Lemma slice0_length {A} (l : list A) n :
  0 <= n -> length (slice0 l n) = Nat.min (Z.to_nat n) (length l).
Proof.
  intros Hn. unfold slice0.
  destruct (Z.ltb_spec n 0); [lia|]. apply length_take.
Qed.

Lemma spendInputs_maxBlockTx st m block tx ins temp inSum :
  spendInputs (config (withMaxBlockTx st m)) block tx ins temp inSum
  = spendInputs (config st) block tx ins temp inSum.
Proof.
  revert temp inSum. induction ins as [|i rest IH]; intros temp inSum; [reflexivity|].
  cbn [spendInputs]. destruct (temp !! _) as [ent|]; [|reflexivity].
  change (coinbaseMaturity (config (withMaxBlockTx st m))) with (coinbaseMaturity (config st)).
  destruct (throwIf _ _); [|reflexivity]. cbn [mbind result_bind rbind].
  destruct (verifyInputSig tx i); [|reflexivity]. cbn [mbind result_bind rbind].
  destruct (throwIf _ _); [|reflexivity]. cbn [mbind result_bind rbind].
  apply IH.
Qed.

Lemma validateBlockTxs_maxBlockTx st m block txs c f temp :
  validateBlockTxs (config (withMaxBlockTx st m)) block txs c f temp
  = validateBlockTxs (config st) block txs c f temp.
Proof.
  revert c f temp. induction txs as [|tx rest IH]; intros c f temp; [reflexivity|].
  cbn [validateBlockTxs]. destruct (tx_isCoinbase tx).
  - destruct (throwIf _ _); [|reflexivity]. cbn [mbind result_bind rbind]. apply IH.
  - rewrite spendInputs_maxBlockTx.
    destruct (spendInputs _ _ _ _ _ _) as [[t inSum]|e]; [|reflexivity].
    cbn [mbind result_bind rbind].
    destruct (throwIf _ _); [|reflexivity]. cbn [mbind result_bind rbind]. apply IH.
Qed.

(** C10. [maxBlockTx] is not a rule of [validateBlock]: the verdict on a
    block, whatever its number of transactions, is the same for every
    value of [maxBlockTx], so a block with more than [maxBlockTx]
    transactions that passes the other rules is accepted; for every [n]
    there is such a block with [n + 1] transactions.  The limit only
    bounds the number of mempool entries the candidate assembler takes,
    so that a candidate has at most [maxBlockTx + 1] transactions. *)
Theorem maxBlockTx_only_limits_candidates st now :
  digest32 ->
  (forall m block,
     validateBlock (withMaxBlockTx st m) now block = validateBlock st now block) /\
  (forall n, exists block,
     length (blk_transactions block) = S n /\
     validateBlock st now (assignIds block) = Ok tt) /\
  (exists block,
     maxBlockTx (config st) < Z.of_nat (length (blk_transactions block)) /\
     validateBlock st now (assignIds block) = Ok tt) /\
  (0 <= maxBlockTx (config st) ->
   length (candidatePool st)
   = Nat.min (Z.to_nat (maxBlockTx (config st))) (length (mempool st)) /\
   forall addr block st',
     getBlockCandidate st now addr = (Candidate block, st') ->
     Z.of_nat (length (blk_transactions block)) <= maxBlockTx (config st) + 1).
Proof.
  intros Hd.
  split.
  { intros m block. unfold validateBlock.
    change (chain (withMaxBlockTx st m)) with (chain st).
    change (utxo (withMaxBlockTx st m)) with (utxo st).
    rewrite validateBlockTxs_maxBlockTx. reflexivity. }
  assert (Hany : forall n, exists block,
            length (blk_transactions block) = S n /\
            validateBlock st now (assignIds block) = Ok tt).
  { intros n.
    exists (extendWith st now (coinbaseTx "c0" "" 0 :: repeat emptySpend n)).
    split; [cbn; rewrite repeat_length; reflexivity|].
    assert (Hassign : map assignId (coinbaseTx "c0" "" 0 :: repeat emptySpend n)
                      = coinbaseTx "c0" "" 0 :: repeat emptySpend n).
    { cbn [map]. f_equal. induction n as [|n IH]; [reflexivity|].
      cbn [repeat map]. rewrite IH. reflexivity. }
    unfold assignIds, withTransactions.
    cbn [extendWith blk_transactions blk_index blk_previousHash blk_timestamp
         blk_merkleRoot blk_nonce blk_bits].
    rewrite Hassign.
    change (validateBlock st now
              (extendWith st now (coinbaseTx "c0" "" 0 :: repeat emptySpend n)) = Ok tt).
    rewrite validateBlock_extendWith by exact Hd.
    cbn [validateBlockTxs coinbaseTx tx_isCoinbase tx_inputs length Nat.eqb negb throwIf
         mbind result_bind rbind].
    rewrite validateBlockTxs_emptySpends. cbn.
    change (0 + 1 =? 1) with true. cbn [negb throwIf mbind result_bind rbind].
    pose proof (getBlockReward_nonneg (config st) (nextIndex st)).
    apply throwIf_false, Z.ltb_ge. unfold sumAmounts. cbn. lia. }
  split; [exact Hany|]. split.
  - destruct (Hany (Z.to_nat (maxBlockTx (config st)))) as (block & Hlen & Hv).
    exists block. split; [rewrite Hlen; lia|exact Hv].
  - intros Hmax.
    assert (Hpool : length (candidatePool st)
                    = Nat.min (Z.to_nat (maxBlockTx (config st))) (length (mempool st))).
    { unfold candidatePool. rewrite slice0_length by exact Hmax.
      rewrite length_map. reflexivity. }
    split; [exact Hpool|].
    intros addr block st' Hc. unfold getBlockCandidate in Hc.
    destruct (last (chain st)); [|discriminate].
    injection Hc as <- _. cbn [blk_transactions length].
    rewrite length_map, Hpool. lia.
Qed.

End IdProperties.

Section MempoolProperties.

Context `{Primitives}.

(** *** Submitting a transaction twice *)

Lemma validateTxInputs_ext st st' h tx ins used s :
  utxo st' = utxo st -> config st' = config st ->
  validateTxInputs st' h tx ins used s = validateTxInputs st h tx ins used s.
Proof.
  intros Hu Hc. revert used s.
  induction ins as [|i rest IH]; intros used s; [reflexivity|].
  cbn [validateTxInputs]. rewrite Hu, Hc.
  destruct (throwIf _ _); [|reflexivity]. cbn [mbind result_bind rbind].
  destruct (utxo st !! _); [|reflexivity].
  destruct (throwIf _ _); [|reflexivity]. cbn [mbind result_bind rbind].
  destruct (verifyInputSig tx i); [|reflexivity]. cbn [mbind result_bind rbind].
  destruct (throwIf _ _); [|reflexivity]. cbn [mbind result_bind rbind].
  apply IH.
Qed.

(** [validateTx] reads the UTXO map and the config only. *)
Lemma validateTx_ext st st' tx h :
  utxo st' = utxo st -> config st' = config st ->
  validateTx st' tx h = validateTx st tx h.
Proof.
  intros Hu Hc. unfold validateTx.
  destruct (tx_isCoinbase tx); [reflexivity|].
  rewrite (validateTxInputs_ext st st') by assumption. reflexivity.
Qed.

Lemma reserveInputs_mono ins spent : spent ⊆ reserveInputs ins spent.
Proof.
  revert spent. induction ins as [|i rest IH]; intros spent; [done|].
  cbn [reserveInputs]. etrans; [|apply IH]. set_solver.
Qed.

Lemma checkMempoolSpent_reserved i rest spent :
  checkMempoolSpent (i :: rest) (reserveInputs (i :: rest) spent)
  = Err "mempool double spend".
Proof.
  cbn [checkMempoolSpent reserveInputs].
  rewrite bool_decide_eq_true_2; [reflexivity|].
  apply (reserveInputs_mono rest). set_solver.
Qed.

Lemma mempoolGet_set id tx m : mempoolGet id (mempoolSet id tx m) = Some tx.
Proof.
  induction m as [|[k t] m IH]; cbn.
  - destruct (decide (id = id)); [reflexivity|congruence].
  - destruct (decide (k = id)) as [->|Hne]; cbn.
    + destruct (decide (id = id)); [reflexivity|congruence].
    + destruct (decide (k = id)); [congruence|exact IH].
Qed.

(** A transaction whose id is in the mempool never changes the state. *)
Lemma known_id_leaves_state st body :
  is_Some (mempoolGet (tx_id (assignId body)) (mempool st)) ->
  (postTransactions st body).2 = st.
Proof.
  intros [t Ht]. unfold postTransactions.
  destruct (_ ≫= _); [|reflexivity]. rewrite Ht. reflexivity.
Qed.

(** C4, on the code.  A transaction with at least one input that
    [POST /transactions] has admitted is in the mempool under its id, and
    submitting the same body again is answered by the 400 error
    [mempool double spend]: its own reserved outpoints are looked up
    before the duplicate test.  The state is unchanged. *)
Theorem resubmitted_tx_is_rejected st body id st1 :
  postTransactions st body = (TxOk id, st1) ->
  tx_inputs body <> [] ->
  is_Some (mempoolGet id (mempool st1)) /\
  postTransactions st1 body = (BadRequest "mempool double spend", st1).
Proof.
  intros Hfirst Hins. unfold postTransactions in Hfirst.
  destruct (_ ≫= _) as [u|e] eqn:Hchecks; [|discriminate].
  destruct (mempoolGet _ _) eqn:Hget; [discriminate|].
  injection Hfirst as <- <-.
  split; [cbn; rewrite mempoolGet_set; eauto|].
  bind_inv Hchecks as [] Hvalid.
  unfold postTransactions.
  rewrite (validateTx_ext st (admitTx st (assignId body))) by reflexivity.
  assert (Hlen : length (chain (admitTx st (assignId body))) = length (chain st))
    by reflexivity.
  rewrite Hlen, Hvalid. cbn [mbind result_bind rbind].
  assert (Hin : tx_inputs (assignId body) = tx_inputs body).
  { unfold assignId. destruct (bool_decide _); reflexivity. }
  rewrite Hin. destruct (tx_inputs body) as [|i rest] eqn:Hi; [congruence|].
  change (mempoolSpent (admitTx st (assignId body)))
    with (reserveInputs (tx_inputs (assignId body)) (mempoolSpent st)).
  rewrite Hin, checkMempoolSpent_reserved. reflexivity.
Qed.

End MempoolProperties.

(** ** The properties on the sample chain *)

Lemma sample_digest32 : digest32 (H := samplePrimitives).
Proof. intros buf. reflexivity. Qed.

Lemma rejected_block_leaves_state_witness :
  postBlocks (H := samplePrimitives) sampleState2 3500
    (extendWith (H := samplePrimitives) sampleState 3500 [coinbaseTx "c3" sampleAddress 5])
  = (BadRequest "bad index", sampleState2).
Proof.
  refine (proj1 (@rejected_block_leaves_state samplePrimitives sampleState2 3500 _ _ _)).
  vm_compute. reflexivity.
Defined.

Lemma supplied_tx_id_is_not_checked_witness :
  validateBlock (H := samplePrimitives) sampleState2 3500
    (extendWith (H := samplePrimitives) sampleState2 3500 [coinbaseTx "beef" sampleAddress 0])
  = Ok tt.
Proof.
  refine (proj1 (proj2 (proj2 (@supplied_tx_id_is_not_checked samplePrimitives
                                 sampleState2 3500 "beef" sampleAddress _ _)))).
  - exact sample_digest32.
  - discriminate.
Defined.

Lemma maxBlockTx_only_limits_candidates_witness :
  exists block,
    maxBlockTx (config sampleState2) < Z.of_nat (length (blk_transactions block)) /\
    validateBlock (H := samplePrimitives) sampleState2 3500
      (assignIds (H := samplePrimitives) block) = Ok tt.
Proof.
  refine (proj1 (proj2 (proj2 (@maxBlockTx_only_limits_candidates samplePrimitives
                                 sampleState2 3500 _)))).
  exact sample_digest32.
Defined.

Lemma resubmitted_tx_is_rejected_witness :
  postTransactions (H := samplePrimitives)
    (postTransactions (H := samplePrimitives) sampleState2 sampleSpend).2 sampleSpend
  = (BadRequest "mempool double spend",
     (postTransactions (H := samplePrimitives) sampleState2 sampleSpend).2).
Proof.
  refine (proj2 (@resubmitted_tx_is_rejected samplePrimitives
                   sampleState2 sampleSpend "d3" _ _ _)).
  - vm_compute. reflexivity.
  - discriminate.
Defined.

(** ** The retargeter and the compact encoding *)

(** The clamp of [maybeRetarget] gives a target of at least 1. *)
Lemma scaleTarget_positive cur divisor : 1 <= scaleTarget cur divisor.
Proof.
  unfold scaleTarget.
  destruct (Z.leb_spec (Z.quot cur divisor * 1000000) 0); lia.
Qed.

(** The scaling is by about [1000000 / divisor]: a divisor below a million
    raises a target that is large enough, a divisor above it lowers it. *)
Lemma scaleTarget_raises cur divisor :
  0 < divisor < 1000000 -> divisor * divisor <= cur -> cur < scaleTarget cur divisor.
Proof.
  intros Hd Hcur. unfold scaleTarget.
  rewrite Z.quot_div_nonneg by nia.
  pose proof (Z.div_mod cur divisor ltac:(lia)) as Hdm.
  pose proof (Z.mod_pos_bound cur divisor ltac:(lia)) as Hm.
  assert (divisor <= cur / divisor) by (apply Z.div_le_lower_bound; lia).
  destruct (Z.leb_spec (cur / divisor * 1000000) 0); nia.
Qed.

Lemma scaleTarget_lowers cur divisor :
  1000000 < divisor -> divisor <= cur -> scaleTarget cur divisor < cur.
Proof.
  intros Hd Hcur. unfold scaleTarget.
  rewrite Z.quot_div_nonneg by lia.
  pose proof (Z.div_mod cur divisor ltac:(lia)) as Hdm.
  pose proof (Z.mod_pos_bound cur divisor ltac:(lia)) as Hm.
  assert (1 <= cur / divisor) by (apply Z.div_le_lower_bound; lia).
  destruct (Z.leb_spec (cur / divisor * 1000000) 0); nia.
Qed.

(** Whenever the clamp to 1 applies, the bits that are stored decode
    to 0. *)
Lemma clamped_target_decodes_to_zero cur divisor :
  Z.quot cur divisor * 1000000 <= 0 ->
  Compact.bitsToTarget (Compact.toUint32 (Compact.targetToBits (scaleTarget cur divisor))) = 0.
Proof.
  intros Hq. unfold scaleTarget.
  destruct (Z.leb_spec (Z.quot cur divisor * 1000000) 0); [reflexivity|lia].
Qed.

(** C1, on the code.  With ten blocks 0.5 s apart where 10 s are wanted,
    the ratio is clamped to 4 and the retargeter stores a target above the
    old one, about four times it; with blocks 100 s apart the ratio is
    0.25 and the stored target is below the old one.  The target moves
    with the ratio, not against it.  The same bits are in the config
    after nine blocks have been posted to a node that booted on its
    genesis block. *)
Theorem retarget_moves_target_with_ratio :
  cfg_bits (config (mineBlocks 9 500 sampleState)) = 0x1e03fffb /\
  cfg_bits (config (mineBlocks 9 100000 sampleState)) = 0x1d3fffbf /\
  retargetRatio defaultConfig (timedBlock 9 500) (timedBlock 0 500) = 4%float /\
  retargetDivisor defaultConfig (timedBlock 9 500) (timedBlock 0 500) = Some 250000 /\
  bitsAfterRetarget fastState = 0x1e03fffb /\
  Compact.bitsToTarget (cfg_bits (config fastState))
  < Compact.bitsToTarget (bitsAfterRetarget fastState) /\
  retargetRatio defaultConfig (timedBlock 9 100000) (timedBlock 0 100000) = 0.25%float /\
  retargetDivisor defaultConfig (timedBlock 9 100000) (timedBlock 0 100000) = Some 4000000 /\
  bitsAfterRetarget slowState = 0x1d3fffbf /\
  Compact.bitsToTarget (bitsAfterRetarget slowState)
  < Compact.bitsToTarget (cfg_bits (config slowState)).
Proof. vm_compute. repeat split. Qed.

(** C6, on the code.  [targetToBits 1] is [0x01000001], which
    [bitsToTarget] decodes to 0, and encoding that 0 gives the bits 0, not
    the bits it came from; the target [0x800000] loses its only set bit
    in the same way. *)
Theorem compact_round_trip_fails_on_small_targets :
  Compact.targetToBits 1 = 0x01000001 /\
  Compact.bitsToTarget (Compact.targetToBits 1) = 0 /\
  Compact.targetToBits (Compact.bitsToTarget (Compact.targetToBits 1)) = 0 /\
  Compact.targetToBits 0x800000 = 0x03000000 /\
  Compact.bitsToTarget (Compact.targetToBits 0x800000) = 0.
Proof. vm_compute. repeat split. Qed.

(** C8, on the code.  From a config whose bits are [0x0300ffff] (the
    target 65535) and ten blocks on schedule, the scaled target is 0, the
    clamp makes it 1, and the bits that [maybeRetarget] stores are
    [0x01000001], which decode to the target 0; so does a node that
    booted with that config, after nine blocks have been posted. *)
Theorem retarget_can_store_zero_target :
  Compact.bitsToTarget
    (cfg_bits (config (mineBlocks 9 10000
                         (boot (H := samplePrimitives)
                            (setBits defaultConfig 0x0300ffff) [] 1000)))) = 0 /\
  Compact.bitsToTarget (cfg_bits (config smallTargetState)) = 65535 /\
  retargetDivisor (config smallTargetState) (timedBlock 9 10000) (timedBlock 0 10000)
  = Some 900000 /\
  scaleTarget 65535 900000 = 1 /\
  bitsAfterRetarget smallTargetState = 0x01000001 /\
  Compact.bitsToTarget (bitsAfterRetarget smallTargetState) = 0.
Proof. vm_compute. repeat split. Qed.

(** ** The compact encoding of targets of four bytes and more *)

Lemma fold_digits ds acc :
  fold_left (fun acc d => 16 * acc + d) ds acc
  = acc * 16 ^ Z.of_nat (length ds) + Hex.digitsValue ds.
Proof.
  unfold Hex.digitsValue. revert acc.
  induction ds as [|d ds IH]; intros acc; [cbn; lia|].
  cbn [fold_left length]. rewrite IH, (IH (16 * 0 + d)).
  rewrite Nat2Z.inj_succ, Z.pow_succ_r by lia. lia.
Qed.

Lemma digitsValue_app l1 l2 :
  Hex.digitsValue (l1 ++ l2)
  = Hex.digitsValue l1 * 16 ^ Z.of_nat (length l2) + Hex.digitsValue l2.
Proof.
  unfold Hex.digitsValue at 1. rewrite fold_left_app.
  fold (Hex.digitsValue l1). apply fold_digits.
Qed.

Lemma digitsValue_bound ds :
  Forall Hex.isDigit ds -> 0 <= Hex.digitsValue ds < 16 ^ Z.of_nat (length ds).
Proof.
  induction ds as [|d ds IH] using rev_ind; intros Hds; [cbn; lia|].
  apply Forall_app in Hds as [Hds Hd]. apply Forall_inv in Hd.
  specialize (IH Hds). rewrite digitsValue_app, length_app. cbn [length].
  replace (Z.of_nat (length ds + 1)) with (Z.succ (Z.of_nat (length ds))) by lia.
  rewrite Z.pow_succ_r by lia.
  change (Hex.digitsValue [d]) with (16 * 0 + d).
  change (16 ^ Z.of_nat 1) with 16. unfold Hex.isDigit in Hd. lia.
Qed.

(** The first [k] digits write the number without its last digits. *)
Lemma digitsValue_take ds k :
  Forall Hex.isDigit ds -> (k <= length ds)%nat ->
  Hex.digitsValue (take k ds)
  = Hex.digitsValue ds / 16 ^ Z.of_nat (length ds - k).
Proof.
  intros Hds Hk.
  rewrite <- (take_drop k ds) at 2. rewrite digitsValue_app.
  assert (Hlen : length (drop k ds) = (length ds - k)%nat) by apply length_drop.
  rewrite Hlen.
  pose proof (digitsValue_bound (drop k ds) (Forall_drop _ _ _ Hds)) as Hb.
  rewrite Hlen in Hb.
  apply Z.div_unique with (r := Hex.digitsValue (drop k ds)); lia.
Qed.

Lemma digitsLE_isDigit fuel z : Forall Hex.isDigit (Hex.digitsLE fuel z).
Proof.
  revert z. induction fuel as [|f IH]; intros z; [constructor|].
  cbn [Hex.digitsLE]. destruct (z <=? 0); [constructor|].
  constructor; [|apply IH]. unfold Hex.isDigit. apply Z.mod_pos_bound. lia.
Qed.

(** With enough fuel the digits write the number, the last of them is not
    0, and their count tells the size of the number. *)
Lemma digitsLE_spec fuel z :
  0 < z < 16 ^ Z.of_nat fuel ->
  Hex.digitsValue (rev (Hex.digitsLE fuel z)) = z /\
  16 ^ (Z.of_nat (length (Hex.digitsLE fuel z)) - 1) <= z
  < 16 ^ Z.of_nat (length (Hex.digitsLE fuel z)).
Proof.
  revert z. induction fuel as [|f IH]; intros z Hz; [cbn in Hz; lia|].
  cbn [Hex.digitsLE]. destruct (Z.leb_spec z 0); [lia|].
  rewrite Nat2Z.inj_succ, Z.pow_succ_r in Hz by lia.
  pose proof (Z.div_mod z 16 ltac:(lia)) as Hdm.
  pose proof (Z.mod_pos_bound z 16 ltac:(lia)) as Hm.
  cbn [rev length]. rewrite digitsValue_app. cbn [length].
  change (Hex.digitsValue [z mod 16]) with (16 * 0 + z mod 16).
  destruct (Z.eq_dec (z / 16) 0) as [Hq|Hq].
  - rewrite Hq. assert (Hnil : Hex.digitsLE f 0 = []) by (destruct f; reflexivity).
    rewrite Hnil. cbn. lia.
  - assert (Hq' : 0 < z / 16 < 16 ^ Z.of_nat f).
    { split; [pose proof (Z.div_pos z 16); lia|].
      apply Z.div_lt_upper_bound; lia. }
    destruct (IH _ Hq') as (Hv & Hlo & Hhi). rewrite Hv.
    assert (Hpos : (0 < length (Hex.digitsLE f (z / 16)))%nat).
    { destruct (Hex.digitsLE f (z / 16)); [cbn in Hhi; lia|cbn; lia]. }
    set (L := length (Hex.digitsLE f (z / 16))) in *.
    change (16 ^ Z.of_nat 1) with 16.
    replace (Z.of_nat (S L) - 1) with (Z.succ (Z.of_nat L - 1)) by lia.
    replace (Z.of_nat (S L)) with (Z.succ (Z.of_nat L)) by lia.
    rewrite !Z.pow_succ_r by lia. lia.
Qed.

Lemma string_of_list_length l : String.length (string_of_list_ascii l) = length l.
Proof. induction l as [|c l IH]; cbn; [reflexivity|]. rewrite IH. reflexivity. Qed.

Lemma substring_string_of_list k l :
  substring 0 k (string_of_list_ascii l) = string_of_list_ascii (take k l).
Proof.
  revert l. induction k as [|k IH]; intros [|c l]; cbn; try reflexivity.
  rewrite IH. reflexivity.
Qed.

Lemma parseDigits_digits ds acc seen :
  Forall Hex.isDigit ds ->
  Hex.parseDigits (string_of_list_ascii (map Hex.digitChar ds)) acc seen
  = (fold_left (fun acc d => 16 * acc + d) ds acc,
     seen || match ds with [] => false | _ => true end).
Proof.
  intros Hds. revert acc seen.
  induction Hds as [|d ds Hd _ IH]; intros acc seen.
  - cbn. rewrite orb_false_r. reflexivity.
  - cbn [map string_of_list_ascii Hex.parseDigits fold_left].
    rewrite digitVal_digitChar by exact Hd. rewrite IH, orb_true_r.
    destruct ds; reflexivity.
Qed.

Lemma parseInt16_digits ds :
  Forall Hex.isDigit ds -> ds <> [] ->
  Hex.parseInt16 (string_of_list_ascii (map Hex.digitChar ds)) = Some (Hex.digitsValue ds).
Proof.
  intros Hds Hne. unfold Hex.parseInt16. rewrite parseDigits_digits by exact Hds.
  destruct ds; [congruence|reflexivity].
Qed.

Lemma pow16_pow256 n : 16 ^ (2 * Z.of_nat n) = 256 ^ Z.of_nat n.
Proof. rewrite Z.pow_mul_r by lia. reflexivity. Qed.

(** The hexadecimal string that [targetToBits] cuts: an even number [2 n]
    of digits that write [t], [n] being the number of bytes of [t]. *)
Lemma evenHex_digits t :
  0 < t ->
  exists pd n,
    Compact.evenHex t = string_of_list_ascii (map Hex.digitChar pd) /\
    Forall Hex.isDigit pd /\ Hex.digitsValue pd = t /\
    length pd = (2 * n)%nat /\
    256 ^ (Z.of_nat n - 1) <= t < 256 ^ Z.of_nat n.
Proof.
  intros Ht.
  set (fuel := S (Z.to_nat (Z.log2 t))).
  assert (Hfuel : 0 < t < 16 ^ Z.of_nat fuel).
  { split; [exact Ht|].
    pose proof (Z.log2_spec t Ht) as [_ Hlog]. pose proof (Z.log2_nonneg t).
    eapply Z.lt_le_trans; [exact Hlog|].
    change 16 with (2 ^ 4). rewrite <- Z.pow_mul_r by lia.
    apply Z.pow_le_mono_r; lia. }
  destruct (digitsLE_spec fuel t Hfuel) as (Hv & Hlo & Hhi).
  pose proof (digitsLE_isDigit fuel t) as Hdig.
  set (ds := rev (Hex.digitsLE fuel t)) in *.
  assert (Hds : Forall Hex.isDigit ds) by (apply Forall_rev, Hdig).
  assert (Hlen : length ds = length (Hex.digitsLE fuel t)) by apply length_rev.
  rewrite <- Hlen in Hlo, Hhi.
  assert (Hstr : Hex.toString16 t = string_of_list_ascii (map Hex.digitChar ds)).
  { unfold Hex.toString16. destruct (Z.leb_spec t 0); [lia|reflexivity]. }
  assert (Hpos : (0 < length ds)%nat).
  { destruct ds; [cbn in Hhi; lia|cbn; lia]. }
  unfold Compact.evenHex. rewrite Hstr, string_of_list_length, length_map.
  destruct (Nat.odd (length ds)) eqn:Hodd.
  - apply Nat.odd_spec in Hodd as [k Hk].
    exists (0 :: ds), (S k). repeat split.
    + constructor; [unfold Hex.isDigit; lia|exact Hds].
    + unfold Hex.digitsValue in *. cbn [fold_left]. exact Hv.
    + cbn [length]. lia.
    + replace (Z.of_nat (S k) - 1) with (Z.of_nat k) by lia.
      rewrite <- pow16_pow256. replace (2 * Z.of_nat k) with (Z.of_nat (length ds) - 1) by lia.
      exact Hlo.
    + rewrite <- pow16_pow256. eapply Z.lt_le_trans; [exact Hhi|].
      apply Z.pow_le_mono_r; lia.
  - assert (Heven : Nat.even (length ds) = true).
    { rewrite <- Nat.negb_odd, Hodd. reflexivity. }
    apply Nat.even_spec in Heven as [k Hk].
    exists ds, k. repeat split; [exact Hds|exact Hv|exact Hk| |].
    + eapply Z.le_trans; [|exact Hlo].
      replace (Z.of_nat k - 1) with (Z.of_nat (k - 1)) by lia.
      rewrite <- pow16_pow256. apply Z.pow_le_mono_r; lia.
    + rewrite <- pow16_pow256. replace (2 * Z.of_nat k) with (Z.of_nat (length ds)) by lia.
      exact Hhi.
Qed.

Lemma land128_test x : 0 <= x < 256 -> (Z.land x 128 =? 0) = (x <? 128).
Proof.
  intros Hx.
  assert (Hall : forallb (fun x => Bool.eqb (Z.land x 128 =? 0) (x <? 128)) (seqZ 0 256) = true)
    by (vm_compute; reflexivity).
  rewrite forallb_forall in Hall. apply Bool.eqb_prop, Hall.
  apply list_elem_of_In, elem_of_seqZ. lia.
Qed.

Lemma land_mantissa_mask m : 0 <= m < 2 ^ 23 -> Z.land m 8388607 = m.
Proof.
  intros Hm. change 8388607 with (Z.ones 23).
  rewrite Z.land_ones by lia. apply Z.mod_small. lia.
Qed.

Lemma land_size_mant size mant :
  0 <= mant < 2 ^ 24 -> Z.land (size * 2 ^ 24) mant = 0.
Proof.
  intros Hm. apply Z.bits_inj'. intros i Hi.
  rewrite Z.land_spec, Z.bits_0.
  destruct (Z.lt_ge_cases i 24).
  - rewrite Z.mul_pow2_bits_low by lia. reflexivity.
  - destruct (Z.eq_dec mant 0) as [->|Hne].
    + rewrite Z.bits_0, andb_false_r. reflexivity.
    + rewrite (Z.bits_above_log2 mant i), andb_false_r; [reflexivity|lia|].
      apply Z.lt_le_trans with 24; [apply Z.log2_lt_pow2; lia|lia].
Qed.

(** [(size << 24) | mant] is [size * 2^24 + mant] when [mant] has 24 bits. *)
Lemma lor_size_mant size mant :
  0 <= size -> 0 <= mant < 2 ^ 24 ->
  Z.lor (Z.shiftl size 24) mant = size * 2 ^ 24 + mant.
Proof.
  intros Hs Hm. rewrite Z.shiftl_mul_pow2 by lia.
  pose proof (land_size_mant size mant Hm) as Hland.
  rewrite <- Z.lxor_lor by exact Hland.
  symmetry. apply Z.add_nocarry_lxor, Hland.
Qed.

(** Decoding packed bits with a size above 3. *)
Lemma bitsToTarget_pack size mant :
  4 <= size < 256 -> 0 <= mant < 2 ^ 23 ->
  Compact.bitsToTarget (Compact.toUint32 (Z.lor (Z.shiftl size 24) mant))
  = mant * 256 ^ (size - 3).
Proof.
  intros Hs Hm. rewrite lor_size_mant by lia.
  unfold Compact.bitsToTarget, Compact.toUint32, Compact.two32.
  rewrite !(Z.mod_small (size * 2 ^ 24 + mant) (2 ^ 32)) by lia.
  rewrite Z.shiftr_div_pow2 by lia.
  assert (Hdiv : (size * 2 ^ 24 + mant) / 2 ^ 24 = size).
  { symmetry. apply Z.div_unique with (r := mant); lia. }
  rewrite Hdiv. change 255 with (Z.ones 8). rewrite Z.land_ones by lia.
  rewrite (Z.mod_small size) by lia.
  change 8388607 with (Z.ones 23). rewrite Z.land_ones by lia.
  assert (Hmod : (size * 2 ^ 24 + mant) mod 2 ^ 23 = mant).
  { symmetry. apply Z.mod_unique with (q := 2 * size); lia. }
  rewrite Hmod. destruct (Z.leb_spec size 3); [lia|].
  rewrite Z.shiftl_mul_pow2 by lia. f_equal.
  change 256 with (2 ^ 8). rewrite <- Z.pow_mul_r by lia. reflexivity.
Qed.

Lemma digits_prefix_value pd t k j :
  Forall Hex.isDigit pd -> Hex.digitsValue pd = t ->
  (0 < k)%nat -> Z.of_nat (length pd) = Z.of_nat k + 2 * j -> 0 <= j ->
  Hex.toInt32 (Hex.parseInt16 (string_of_list_ascii (map Hex.digitChar (take k pd))))
  = t / 256 ^ j.
Proof.
  intros Hpd Hval Hk Hlen Hj.
  rewrite parseInt16_digits.
  - cbn [Hex.toInt32]. rewrite digitsValue_take by (assumption || lia).
    rewrite Hval. f_equal.
    replace (Z.of_nat (length pd - k)) with (2 * j) by lia.
    rewrite Z.pow_mul_r by lia. reflexivity.
  - apply Forall_take, Hpd.
  - intros Hnil. apply (f_equal length) in Hnil. rewrite length_take in Hnil.
    cbn in Hnil. lia.
Qed.

(** [targetToBits] in arithmetic, for a target of [e + 3] bytes, [e >= 1]:
    the mantissa is the top three bytes, or the top two when the first has
    its high bit set, the size being one more then. *)
Lemma targetToBits_large t e :
  1 <= e -> 65536 * 256 ^ e <= t < 16777216 * 256 ^ e ->
  Compact.targetToBits t
  = Compact.toUint32
      (if t / (65536 * 256 ^ e) <? 128
       then Z.lor (Z.shiftl (e + 3) 24) (t / 256 ^ e)
       else Z.lor (Z.shiftl (e + 4) 24) (t / (256 * 256 ^ e))).
Proof.
  intros He Ht.
  assert (HP : 0 < 256 ^ e) by (apply Z.pow_pos_nonneg; lia).
  assert (Hpos : 0 < t) by lia.
  destruct (evenHex_digits t Hpos) as (pd & n & Hstr & Hpd & Hval & Hlen & Hlo & Hhi).
  assert (Hn : Z.of_nat n = e + 3).
  { assert (H2 : 256 ^ (e + 2) = 65536 * 256 ^ e)
      by (rewrite Z.pow_add_r by lia; lia).
    assert (H3 : 256 ^ (e + 3) = 16777216 * 256 ^ e)
      by (rewrite Z.pow_add_r by lia; lia).
    destruct (Z.lt_trichotomy (Z.of_nat n) (e + 3)) as [Hlt|[Heq|Hgt]]; [|exact Heq|].
    - assert (256 ^ Z.of_nat n <= 256 ^ (e + 2)) by (apply Z.pow_le_mono_r; lia). lia.
    - assert (256 ^ (e + 3) <= 256 ^ (Z.of_nat n - 1)) by (apply Z.pow_le_mono_r; lia). lia. }
  assert (Hslice : forall k, Hex.slice0 k (Compact.evenHex t)
                             = string_of_list_ascii (map Hex.digitChar (take k pd))).
  { intros k. unfold Hex.slice0. rewrite Hstr, substring_string_of_list, firstn_map.
    reflexivity. }
  assert (Hslice2 : forall k, (k <= 6)%nat ->
            Hex.slice0 k (Hex.slice0 6 (Compact.evenHex t))
            = string_of_list_ascii (map Hex.digitChar (take k pd))).
  { intros k Hk. rewrite (Hslice 6%nat). unfold Hex.slice0.
    rewrite substring_string_of_list, firstn_map, take_take.
    replace (k `min` 6)%nat with k by lia. reflexivity. }
  assert (Htop : Hex.toInt32 (Hex.parseInt16 (Hex.slice0 2 (Hex.slice0 6 (Compact.evenHex t))))
                 = t / (65536 * 256 ^ e)).
  { rewrite Hslice2 by lia.
    rewrite (digits_prefix_value pd t 2 (e + 2)) by (assumption || lia).
    rewrite Z.pow_add_r by lia. f_equal. lia. }
  assert (Hm3 : Hex.toInt32 (Hex.parseInt16 (Hex.slice0 6 (Compact.evenHex t)))
                = t / 256 ^ e).
  { rewrite Hslice. apply digits_prefix_value; assumption || lia. }
  assert (Hm2 : Hex.toInt32 (Hex.parseInt16
                  ("00" ++ Hex.slice0 4 (Hex.slice0 6 (Compact.evenHex t))))
                = t / (256 * 256 ^ e)).
  { rewrite Hslice2 by lia.
    change ("00" ++ string_of_list_ascii (map Hex.digitChar (take 4 pd)))%string
      with (string_of_list_ascii (map Hex.digitChar (0 :: 0 :: take 4 pd))).
    rewrite parseInt16_digits; [|repeat constructor; try (unfold Hex.isDigit; lia);
                                  apply Forall_take, Hpd|discriminate].
    cbn [Hex.toInt32].
    change (Hex.digitsValue (0 :: 0 :: take 4 pd)) with (Hex.digitsValue (take 4 pd)).
    rewrite digitsValue_take by (assumption || lia). rewrite Hval. f_equal.
    replace (Z.of_nat (length pd - 4)) with (2 * (e + 1)) by lia.
    rewrite Z.pow_mul_r by lia. change (16 ^ 2) with 256.
    rewrite Z.pow_add_r by lia. lia. }
  assert (Hbyte : 0 <= t / (65536 * 256 ^ e) < 256).
  { split; [apply Z.div_pos; lia|apply Z.div_lt_upper_bound; lia]. }
  unfold Compact.targetToBits.
  destruct (Z.leb_spec t 0); [lia|].
  assert (Hsize : Z.of_nat (String.length (Compact.evenHex t) / 2) = e + 3).
  { rewrite Hstr, string_of_list_length, length_map, Hlen.
    rewrite Nat.mul_comm, Nat.div_mul by lia. exact Hn. }
  rewrite Hsize. destruct (Z.leb_spec (e + 3) 3); [lia|].
  rewrite Htop, land128_test by exact Hbyte.
  destruct (Z.ltb_spec (t / (65536 * 256 ^ e)) 128) as [Hsmall|Hbig]; cbn [negb].
  - rewrite Hm3. rewrite land_mantissa_mask; [reflexivity|].
    split; [apply Z.div_pos; lia|].
    apply Z.div_lt_upper_bound; [lia|].
    pose proof (Z.div_mod t (65536 * 256 ^ e) ltac:(lia)) as Hdm.
    pose proof (Z.mod_pos_bound t (65536 * 256 ^ e) ltac:(lia)) as Hmb.
    nia.
  - rewrite Hm2. replace (e + 3 + 1) with (e + 4) by lia.
    rewrite land_mantissa_mask; [reflexivity|].
    split; [apply Z.div_pos; lia|]. apply Z.div_lt_upper_bound; lia.
Qed.

(** A target between 2^24 and 2^256 has [e + 3] bytes for some [e] from 1
    to 29. *)
Lemma target_byte_size t :
  2 ^ 24 <= t < 2 ^ 256 ->
  exists e, 1 <= e <= 29 /\ 65536 * 256 ^ e <= t < 16777216 * 256 ^ e.
Proof.
  intros Ht.
  assert (Hpos : 0 < t) by lia.
  pose proof (Z.log2_spec t Hpos) as [Hlo Hhi].
  assert (Hl24 : 24 <= Z.log2 t) by (apply Z.log2_le_pow2; lia).
  assert (Hl256 : Z.log2 t < 256) by (apply Z.log2_lt_pow2; lia).
  pose proof (Z.div_mod (Z.log2 t) 8 ltac:(lia)) as Hdm.
  pose proof (Z.mod_pos_bound (Z.log2 t) 8 ltac:(lia)) as Hm.
  set (q := Z.log2 t / 8) in *.
  exists (q - 2). split; [lia|].
  assert (H256 : forall k, 0 <= k -> 256 ^ k = 2 ^ (8 * k)).
  { intros k Hk. rewrite Z.pow_mul_r by lia. reflexivity. }
  replace (65536 * 256 ^ (q - 2)) with (256 ^ q).
  2:{ replace q with (q - 2 + 2) at 1 by lia. rewrite Z.pow_add_r by lia. lia. }
  replace (16777216 * 256 ^ (q - 2)) with (256 ^ (q + 1)).
  2:{ replace (q + 1) with (q - 2 + 3) by lia. rewrite Z.pow_add_r by lia. lia. }
  rewrite !H256 by lia. split.
  - eapply Z.le_trans; [|exact Hlo]. apply Z.pow_le_mono_r; lia.
  - eapply Z.lt_le_trans; [exact Hhi|]. apply Z.pow_le_mono_r; lia.
Qed.

(** X27. For every target [t] from 2^24 up to 256 bits, decoding the bits
    of [t] gives a target that is not above [t] and misses less than
    [t / 2^15]: the bytes below the mantissa are lost; and encoding the
    decoded target gives the same bits again. *)
Theorem compact_round_trip_large t :
  2 ^ 24 <= t < 2 ^ 256 ->
  let b := Compact.targetToBits t in
  Compact.bitsToTarget b <= t /\
  (t - Compact.bitsToTarget b) * 32768 <= t /\
  Compact.targetToBits (Compact.bitsToTarget b) = b.
Proof.
  intros Ht b. subst b.
  destruct (target_byte_size t Ht) as (e & He & Hte).
  rewrite (targetToBits_large t e) by lia.
  assert (HP : 0 < 256 ^ e) by (apply Z.pow_pos_nonneg; lia).
  assert (HP1 : 256 ^ (e + 1) = 256 * 256 ^ e) by (rewrite Z.pow_add_r by lia; lia).
  set (P := 256 ^ e) in *.
  assert (Htop : t / (65536 * P) = t / P / 65536).
  { rewrite Z.div_div by lia. f_equal. lia. }
  destruct (Z.ltb_spec (t / (65536 * P)) 128) as [Hsmall|Hbig].
  - set (m3 := t / P) in *.
    pose proof (Z.div_mod t P ltac:(lia)) as Hdm. fold m3 in Hdm.
    pose proof (Z.mod_pos_bound t P ltac:(lia)) as Hmb.
    assert (Hm3lo : 65536 <= m3) by (apply Z.div_le_lower_bound; lia).
    assert (Hm3hi : m3 < 2 ^ 23).
    { rewrite Htop in Hsmall.
      pose proof (Z.div_mod m3 65536 ltac:(lia)).
      pose proof (Z.mod_pos_bound m3 65536 ltac:(lia)). lia. }
    rewrite bitsToTarget_pack by lia.
    replace (e + 3 - 3) with e by lia. fold P.
    split; [nia|]. split; [nia|].
    rewrite (targetToBits_large (m3 * P) e) by (fold P; nia). fold P.
    replace (m3 * P / (65536 * P)) with (m3 / 65536)
      by (symmetry; apply Z.div_mul_cancel_r; lia).
    rewrite Z.div_mul by lia.
    rewrite Htop in Hsmall.
    destruct (Z.ltb_spec (m3 / 65536) 128); [reflexivity|lia].
  - set (m2 := t / (256 * P)) in *.
    pose proof (Z.div_mod t (256 * P) ltac:(lia)) as Hdm. fold m2 in Hdm.
    pose proof (Z.mod_pos_bound t (256 * P) ltac:(lia)) as Hmb.
    assert (Hbig' : 128 * (65536 * P) <= t).
    { pose proof (Z.mul_div_le t (65536 * P) ltac:(lia)). nia. }
    assert (Hm2lo : 32768 <= m2) by (apply Z.div_le_lower_bound; lia).
    assert (Hm2hi : m2 < 65536) by (apply Z.div_lt_upper_bound; lia).
    rewrite bitsToTarget_pack by lia.
    replace (e + 4 - 3) with (e + 1) by lia. rewrite HP1.
    split; [nia|]. split; [nia|].
    rewrite (targetToBits_large (m2 * (256 * P)) e) by (fold P; nia). fold P.
    replace (m2 * (256 * P) / (65536 * P)) with (m2 / 256).
    2:{ replace (m2 * (256 * P)) with (m2 * (256 * P)) by lia.
        replace (65536 * P) with (256 * (256 * P)) by lia.
        symmetry. apply Z.div_mul_cancel_r; lia. }
    rewrite Z.div_mul by lia.
    assert (128 <= m2 / 256) by (apply Z.div_le_lower_bound; lia).
    destruct (Z.ltb_spec (m2 / 256) 128); [lia|reflexivity].
Qed.

Lemma compact_round_trip_large_example :
  Compact.bitsToTarget (Compact.targetToBits (2 ^ 255 + 12345)) <= 2 ^ 255 + 12345 /\
  Compact.targetToBits (Compact.bitsToTarget (Compact.targetToBits (2 ^ 255 + 12345)))
  = Compact.targetToBits (2 ^ 255 + 12345).
Proof.
  destruct (compact_round_trip_large (2 ^ 255 + 12345)) as (H1 & _ & H3).
  - vm_compute. split; [discriminate|reflexivity].
  - split; [exact H1|exact H3].
Defined.

(** * More of the node *)

(** ** Buffers and hexadecimal *)

Lemma bufferFromHex_bufferToHex b : Hex.bufferFromHex (Hex.bufferToHex b) = b.
Proof.
  induction b as [|c r IH]; [reflexivity|].
  pose proof (ascii_byte_range c) as Hc.
  cbn [Hex.bufferToHex Hex.bufferFromHex].
  rewrite !digitVal_digitChar
    by (try apply Z.mod_pos_bound; try (split; [apply Z.div_pos|apply Z.div_lt_upper_bound]); lia).
  rewrite IH. f_equal.
  pose proof (Z.div_mod (Z.of_nat (nat_of_ascii c)) 16 ltac:(lia)) as Hdm.
  replace (16 * (Z.of_nat (nat_of_ascii c) / 16) + Z.of_nat (nat_of_ascii c) mod 16)
    with (Z.of_nat (nat_of_ascii c)) by lia.
  rewrite Nat2Z.id. apply ascii_nat_embedding.
Qed.

Lemma bufferToHex_length b :
  String.length (Hex.bufferToHex b) = (2 * String.length b)%nat.
Proof. induction b as [|c r IH]; cbn; [reflexivity|]. rewrite IH. lia. Qed.

(** X1. Printing a buffer in hexadecimal and reading it back gives the
    buffer again, the text being twice as long as the buffer and made of
    hexadecimal digits only; so printing is injective. *)
Theorem hex_round_trip b b' :
  Hex.bufferFromHex (Hex.bufferToHex b) = b /\
  String.length (Hex.bufferToHex b) = (2 * String.length b)%nat /\
  Hex.allHex (Hex.bufferToHex b) = true /\
  (Hex.bufferToHex b = Hex.bufferToHex b' -> b = b').
Proof.
  repeat split.
  - apply bufferFromHex_bufferToHex.
  - apply bufferToHex_length.
  - apply allHex_bufferToHex.
  - intros Heq. rewrite <- (bufferFromHex_bufferToHex b), Heq.
    apply bufferFromHex_bufferToHex.
Qed.

(** ** The Merkle root *)

Section MerkleMore.

Context `{Primitives}.

(** The loop gives the same nodes for any fuel that is enough. *)
Lemma merkleLoop_fuel f f' nodes :
  (length nodes <= S f)%nat -> (length nodes <= S f')%nat ->
  merkleLoop f nodes = merkleLoop f' nodes.
Proof.
  revert f' nodes. induction f as [|f IH]; intros f' nodes Hf Hf'.
  - cbn [merkleLoop]. destruct f' as [|f']; [reflexivity|].
    cbn [merkleLoop]. destruct (Nat.ltb_spec 1 (length nodes)); [lia|reflexivity].
  - cbn [merkleLoop]. destruct (Nat.ltb_spec 1 (length nodes)) as [Hlt|Hge].
    + destruct f' as [|f']; [lia|]. cbn [merkleLoop].
      destruct (Nat.ltb_spec 1 (length nodes)); [|lia].
      destruct (merkleLayer_length (length nodes) nodes ltac:(lia)) as [_ Hlayer].
      apply IH; lia.
    + destruct f' as [|f']; [reflexivity|]. cbn [merkleLoop].
      destruct (Nat.ltb_spec 1 (length nodes)); [lia|reflexivity].
Qed.

(** A layer with an odd number of nodes pairs the same nodes as the layer
    with its last node written twice. *)
Lemma merkleLayer_dup_last n nodes x :
  (length nodes <= n)%nat ->
  Nat.odd (length nodes) = true -> last nodes = Some x ->
  merkleLayer (nodes ++ [x]) = merkleLayer nodes.
Proof.
  revert nodes. induction n as [|n IH]; intros nodes Hn Hodd Hlast.
  - destruct nodes; [discriminate|cbn in Hn; lia].
  - destruct nodes as [|a [|b rest]]; [discriminate| |].
    + cbn in Hlast. injection Hlast as <-. reflexivity.
    + cbn [app merkleLayer]. f_equal. apply IH.
      * cbn [length] in Hn. lia.
      * cbn [length] in Hodd. rewrite Nat.odd_succ_succ in Hodd. exact Hodd.
      * destruct rest as [|c rest']; [discriminate|exact Hlast].
Qed.

Lemma map_hexNormalForm ids :
  map Hex.bufferFromHex (map hexNormalForm ids) = map Hex.bufferFromHex ids.
Proof.
  rewrite map_map. apply map_ext. intros id. unfold hexNormalForm.
  apply bufferFromHex_bufferToHex.
Qed.

(** X2. The Merkle root is taken over the ids as [Buffer.from(id, 'hex')]
    reads them: replacing every id by its hexadecimal normal form (the
    decoded bytes printed again, which drops everything from the first
    character pair that is not hexadecimal) leaves the root unchanged. *)
Theorem merkleRoot_reads_ids_as_hex ids :
  merkleRoot (map hexNormalForm ids) = merkleRoot ids.
Proof.
  unfold merkleRoot. destruct ids as [|id ids]; [reflexivity|].
  cbn [map]. change (Hex.bufferFromHex (hexNormalForm id) :: map Hex.bufferFromHex (map hexNormalForm ids))
    with (map Hex.bufferFromHex (map hexNormalForm (id :: ids))).
  change (Hex.bufferFromHex id :: map Hex.bufferFromHex ids)
    with (map Hex.bufferFromHex (id :: ids)).
  rewrite map_hexNormalForm. reflexivity.
Qed.

(** X3. A list of three or more ids of odd length has the same Merkle
    root as the list with its last id written once more: the root does
    not tell the two transaction lists apart. *)
Theorem merkleRoot_duplicated_last ids x :
  (3 <= length ids)%nat ->
  Nat.odd (length ids) = true ->
  last ids = Some x ->
  merkleRoot (ids ++ [x]) = merkleRoot ids.
Proof.
  intros Hlen Hodd Hlast. unfold merkleRoot.
  destruct ids as [|id0 ids0] eqn:Hids; [discriminate|]. rewrite <- Hids in *.
  destruct (ids ++ [x]) as [|y ys] eqn:Happ.
  { apply (f_equal length) in Happ. rewrite length_app in Happ. cbn in Happ. lia. }
  rewrite <- Happ. rewrite map_app. cbn [map].
  set (nodes := map Hex.bufferFromHex ids).
  assert (Hn : length nodes = length ids) by apply length_map.
  assert (Hlastn : last nodes = Some (Hex.bufferFromHex x)).
  { unfold nodes. change (map Hex.bufferFromHex ids) with (Hex.bufferFromHex <$> ids).
    rewrite fmap_last, Hlast. reflexivity. }
  assert (Hdup : merkleLayer (nodes ++ [Hex.bufferFromHex x]) = merkleLayer nodes).
  { apply (merkleLayer_dup_last (length nodes)); [lia|rewrite Hn; exact Hodd|exact Hlastn]. }
  destruct (merkleLayer_length (length nodes) nodes ltac:(lia)) as [_ Hlayer].
  assert (Hstep : forall f l, (1 < length l)%nat ->
            merkleLoop (S f) l = merkleLoop f (merkleLayer l)).
  { intros f l Hl. cbn [merkleLoop]. destruct (Nat.ltb_spec 1 (length l)); [reflexivity|lia]. }
  rewrite length_app. cbn [length].
  replace (length nodes + 1)%nat with (S (length nodes)) by lia.
  rewrite Hstep by (rewrite length_app; cbn; lia).
  rewrite Hdup.
  destruct (length nodes) as [|m] eqn:Hm; [lia|].
  rewrite (Hstep m nodes) by lia.
  rewrite (merkleLoop_fuel (S m) m) by lia. reflexivity.
Qed.

End MerkleMore.

Lemma merkleRoot_duplicated_last_witness :
  merkleRoot (H := samplePrimitives) ["aa"; "bb"; "cc"; "cc"]%string
  = merkleRoot (H := samplePrimitives) ["aa"; "bb"; "cc"]%string.
Proof.
  apply (@merkleRoot_duplicated_last samplePrimitives ["aa"; "bb"; "cc"]%string "cc"%string).
  - cbn. lia.
  - reflexivity.
  - reflexivity.
Defined.

(** ** The node's and the miner's targets *)

Lemma land_shifted_small k s m :
  0 <= k -> 0 <= m < 2 ^ k -> Z.land (s * 2 ^ k) m = 0.
Proof.
  intros Hk Hm. apply Z.bits_inj'. intros i Hi.
  rewrite Z.land_spec, Z.bits_0.
  destruct (Z.lt_ge_cases i k).
  - rewrite Z.mul_pow2_bits_low by lia. reflexivity.
  - destruct (Z.eq_dec m 0) as [->|Hne].
    + rewrite Z.bits_0, andb_false_r. reflexivity.
    + rewrite (Z.bits_above_log2 m i), andb_false_r; [reflexivity|lia|].
      apply Z.lt_le_trans with k; [apply Z.log2_lt_pow2; lia|lia].
Qed.

Lemma mantissa_range x : 0 <= Z.land x 8388607 < 2 ^ 23.
Proof.
  change 8388607 with (Z.ones 23). rewrite Z.land_ones by lia.
  apply Z.mod_pos_bound. lia.
Qed.

Lemma lor_bit23 m : 0 <= m < 2 ^ 23 -> Z.lor m (Z.shiftl 1 23) = m + 2 ^ 23.
Proof.
  intros Hm. rewrite Z.shiftl_mul_pow2 by lia.
  pose proof (land_shifted_small 23 1 m ltac:(lia) Hm) as Hland.
  rewrite Z.lor_comm, <- Z.lxor_lor by exact Hland.
  rewrite <- Z.add_nocarry_lxor by exact Hland. lia.
Qed.

Lemma shiftl_monotone a b n : 0 <= a <= b -> Z.shiftl a n <= Z.shiftl b n.
Proof.
  intros Hab. destruct (Z.le_gt_cases 0 n).
  - rewrite !Z.shiftl_mul_pow2 by lia.
    apply Z.mul_le_mono_nonneg_r; [apply Z.pow_nonneg|]; lia.
  - rewrite !Z.shiftl_div_pow2 by lia.
    apply Z.div_le_mono; [apply Z.pow_pos_nonneg|]; lia.
Qed.

(** The node's decoding, written with the miner's single shift. *)
Lemma bitsToTarget_one_shift bits :
  Compact.bitsToTarget bits
  = Z.shiftl (Z.land (Compact.toUint32 bits) 8388607)
      (8 * (Z.land (Z.shiftr (Compact.toUint32 bits) 24) 255 - 3)).
Proof.
  unfold Compact.bitsToTarget.
  destruct (Z.leb_spec (Z.land (Z.shiftr (Compact.toUint32 bits) 24) 255) 3); [|reflexivity].
  unfold Z.shiftr at 1. f_equal. lia.
Qed.

(** X4. The miner decodes the bits as the node does when bit 23 is clear;
    when it is set the miner's target is the larger one, strictly so from
    a size of 3 on, so that a hash the miner takes for a solution can fail
    the node's proof-of-work rule. *)
Theorem miner_target_against_node_target bits :
  Compact.bitsToTarget bits <= Miner.bitsToTarget bits /\
  (Z.land (Compact.toUint32 bits) 8388608 = 0 ->
   Miner.bitsToTarget bits = Compact.bitsToTarget bits) /\
  (Z.land (Compact.toUint32 bits) 8388608 <> 0 ->
   3 <= Z.land (Z.shiftr (Compact.toUint32 bits) 24) 255 ->
   Compact.bitsToTarget bits < Miner.bitsToTarget bits).
Proof.
  rewrite bitsToTarget_one_shift. unfold Miner.bitsToTarget.
  pose proof (mantissa_range (Compact.toUint32 bits)) as Hm.
  set (m := Z.land (Compact.toUint32 bits) 8388607) in *.
  set (e := Z.land (Z.shiftr (Compact.toUint32 bits) 24) 255).
  destruct (Z.eqb_spec (Z.land (Compact.toUint32 bits) 8388608) 0) as [Hz|Hnz]; cbn [negb].
  - split; [lia|]. split; [reflexivity|]. intros Hc. congruence.
  - rewrite lor_bit23 by exact Hm. split; [|split].
    + apply shiftl_monotone. lia.
    + intros Hc. congruence.
    + intros _ He. rewrite !Z.shiftl_mul_pow2 by lia.
      assert (0 < 2 ^ (8 * (e - 3))) by (apply Z.pow_pos_nonneg; lia). nia.
Qed.

(** Bit 23 of packed bits is clear. *)
Lemma packed_bit23_clear size x :
  Z.land (Compact.toUint32 (Z.lor (Z.shiftl size 24) (Z.land x 8388607))) 8388608 = 0.
Proof.
  apply Z.bits_inj'. intros i Hi.
  rewrite Z.land_spec, Z.bits_0.
  change 8388608 with (2 ^ 23). rewrite Z.pow2_bits_eqb by lia.
  destruct (Z.eqb_spec 23 i) as [<-|Hne]; [|apply andb_false_r].
  rewrite andb_true_r. unfold Compact.toUint32, Compact.two32.
  rewrite Z.mod_pow2_bits_low by lia.
  rewrite Z.lor_spec, Z.shiftl_spec_low by lia.
  rewrite Z.land_spec. change 8388607 with (Z.ones 23).
  rewrite Z.ones_spec_high by lia. rewrite andb_false_r. reflexivity.
Qed.

Lemma toUint32_idem x : Compact.toUint32 (Compact.toUint32 x) = Compact.toUint32 x.
Proof. unfold Compact.toUint32, Compact.two32. apply Z.mod_mod. lia. Qed.

Lemma targetToBits_bit23_clear t :
  Z.land (Compact.toUint32 (Compact.targetToBits t)) 8388608 = 0.
Proof.
  unfold Compact.targetToBits.
  destruct (t <=? 0); [reflexivity|]. cbv zeta.
  destruct (_ <=? 3); [|destruct (negb _)]; cbv beta iota;
    rewrite toUint32_idem; apply packed_bit23_clear.
Qed.

(** X5. Whatever the target, [targetToBits] gives an unsigned 32-bit word
    with bit 23 (the sign bit of the compact format) clear, and the miner
    and the node decode that word to the same target. *)
Theorem targetToBits_word t :
  0 <= Compact.targetToBits t < 2 ^ 32 /\
  Z.land (Compact.targetToBits t) 8388608 = 0 /\
  Miner.bitsToTarget (Compact.targetToBits t)
  = Compact.bitsToTarget (Compact.targetToBits t).
Proof.
  assert (Hrange : 0 <= Compact.targetToBits t < 2 ^ 32).
  { unfold Compact.targetToBits. destruct (t <=? 0); [lia|]. cbv zeta.
    destruct (_ <=? 3); [|destruct (negb _)]; cbv beta iota;
      apply Z.mod_pos_bound; reflexivity. }
  pose proof (targetToBits_bit23_clear t) as Hclear.
  assert (Hid : Compact.toUint32 (Compact.targetToBits t) = Compact.targetToBits t).
  { apply Z.mod_small. exact Hrange. }
  split; [exact Hrange|]. split.
  - rewrite <- Hid at 1. exact Hclear.
  - rewrite bitsToTarget_one_shift. unfold Miner.bitsToTarget.
    rewrite Hclear. reflexivity.
Qed.

(** ** The block reward *)

(** X6. With a positive halving interval and a subsidy that is not
    negative, the reward is the full subsidy during the first interval,
    never more than the subsidy, half the reward (rounded down) one
    interval later, and 0 once 2 to the number of halvings exceeds the
    subsidy. *)
Theorem block_reward_halves cfg h :
  0 < halvingInterval cfg -> 0 <= blockSubsidy cfg -> 0 <= h ->
  (h < halvingInterval cfg -> getBlockReward cfg h = blockSubsidy cfg) /\
  getBlockReward cfg h <= blockSubsidy cfg /\
  getBlockReward cfg (h + halvingInterval cfg) = getBlockReward cfg h / 2 /\
  (blockSubsidy cfg < 2 ^ (h / halvingInterval cfg) -> getBlockReward cfg h = 0).
Proof.
  intros Hhi Hsub Hh.
  assert (Hq : 0 <= h / halvingInterval cfg) by (apply Z.div_pos; lia).
  assert (Hpow : 0 < 2 ^ (h / halvingInterval cfg)) by (apply Z.pow_pos_nonneg; lia).
  assert (Hr : getBlockReward cfg h = blockSubsidy cfg / 2 ^ (h / halvingInterval cfg)).
  { unfold getBlockReward. destruct (Z.ltb_spec (h / halvingInterval cfg) 0); [lia|].
    apply Z.max_l. apply Z.div_pos; lia. }
  split; [|split; [|split]].
  - intros Hfirst. rewrite Hr, (Z.div_small h (halvingInterval cfg)) by lia.
    apply Z.div_1_r.
  - rewrite Hr. apply Z.div_le_upper_bound; [lia|]. nia.
  - rewrite Hr. unfold getBlockReward.
    replace (h + halvingInterval cfg) with (h + 1 * halvingInterval cfg) by lia.
    rewrite Z.div_add by lia.
    destruct (Z.ltb_spec (h / halvingInterval cfg + 1) 0); [lia|].
    rewrite Z.pow_add_r by lia. change (2 ^ 1) with 2.
    rewrite <- Z.div_div by lia.
    apply Z.max_l. apply Z.div_pos; [apply Z.div_pos|]; lia.
  - intros Hbig. rewrite Hr. apply Z.div_small. lia.
Qed.

Lemma block_reward_halves_witness :
  getBlockReward defaultConfig (150 + halvingInterval defaultConfig)
  = getBlockReward defaultConfig 150 / 2.
Proof.
  refine (proj1 (proj2 (proj2 (block_reward_halves defaultConfig 150 _ _ _)))).
  - reflexivity.
  - discriminate.
  - discriminate.
Defined.

(** ** What an accepted transaction and an accepted block satisfy *)

Section AcceptanceProperties.

Context `{Primitives}.

Lemma validateTxInputs_ok st h tx ins used s s' :
  validateTxInputs st h tx ins used s = Ok s' ->
  NoDup (map inputKey ins) /\
  Forall (fun i => inputKey i ∉ used) ins /\
  Forall (fun i => exists e,
            utxo st !! inputKey i = Some e /\
            (ue_isCoinbase e = true -> coinbaseMaturity (config st) <= h - ue_blockHeight e) /\
            pubKeyToAddress (in_pubKey i) = ue_address e /\
            verifyInputSig tx i = Ok tt) ins /\
  s' = s + sumZ (map (inputAmount (utxo st)) ins).
Proof.
  revert used s. induction ins as [|i rest IH]; intros used s Hv.
  - cbn in Hv. simplify_eq. cbn. repeat split; try constructor. lia.
  - cbn [validateTxInputs] in Hv. bind_inv Hv as ? Hused.
    apply throwIf_Ok, bool_decide_eq_false in Hused.
    destruct (utxo st !! outpointKey (in_txid i) (in_index i)) as [e|] eqn:He; [|discriminate].
    bind_inv Hv as ? Hmature. bind_inv Hv as [] Hsig. bind_inv Hv as ? Haddr.
    apply throwIf_Ok in Hmature, Haddr.
    apply negb_false_iff, bool_decide_eq_true in Haddr.
    apply IH in Hv as (Hnd & Hnot & Hall & ->).
    assert (Hsub : Forall (fun i' => inputKey i' <> inputKey i /\ inputKey i' ∉ used) rest).
    { eapply Forall_impl; [exact Hnot|]. intros i' Hi'. cbn in Hi'.
      apply not_elem_of_union in Hi' as [Hk Hu]. split; [|exact Hu].
      intros Heq. apply Hk, elem_of_singleton. exact Heq. }
    repeat split.
    + cbn [map]. constructor; [|exact Hnd].
      intros Hin. apply list_elem_of_fmap in Hin as (i' & Heq & Hin').
      rewrite Forall_forall in Hsub. destruct (Hsub i' Hin') as [Hne _]. congruence.
    + constructor; [exact Hused|]. eapply Forall_impl; [exact Hsub|]. intros ? [_ ?]. done.
    + constructor; [|exact Hall]. exists e.
      split; [exact He|]. split; [|split; [exact Haddr|exact Hsig]].
      intros Hcb. rewrite Hcb in Hmature. cbn in Hmature. apply Z.ltb_ge in Hmature. exact Hmature.
    + cbn [map sumZ foldr]. unfold inputAmount at 2. rewrite He. unfold sumZ. lia.
Qed.

Lemma validateTxOutputs_ok outs s s' :
  validateTxOutputs outs s = Ok s' ->
  Forall (fun o => 0 < out_amount o) outs /\ s' = s + sumZ (map out_amount outs).
Proof.
  revert s. induction outs as [|o outs IH]; intros s Hv.
  - cbn in Hv. simplify_eq. cbn. split; [constructor|lia].
  - cbn [validateTxOutputs] in Hv. bind_inv Hv as ? Hpos.
    apply throwIf_Ok, Z.leb_gt in Hpos. apply IH in Hv as [Hall ->].
    split; [constructor; assumption|]. cbn [map sumZ foldr]. unfold sumZ. lia.
Qed.

(** In integer arithmetic: a spend that the typed [validateTx] accepts has
    inputs that are pairwise different outpoints, each found in the UTXO
    map, mature if it is a coinbase output, owned by the address of the
    input's public key and signed; its outputs are all positive, and
    their sum is at most the sum of the amounts of the outputs it
    spends. *)
Lemma typed_spend_accepted st tx h :
  tx_isCoinbase tx = false ->
  validateTx st tx h = Ok tt ->
  NoDup (map inputKey (tx_inputs tx)) /\
  Forall (fun i => exists e,
            utxo st !! inputKey i = Some e /\
            (ue_isCoinbase e = true -> coinbaseMaturity (config st) <= h - ue_blockHeight e) /\
            pubKeyToAddress (in_pubKey i) = ue_address e /\
            verifyInputSig tx i = Ok tt) (tx_inputs tx) /\
  Forall (fun o => 0 < out_amount o) (tx_outputs tx) /\
  sumZ (map out_amount (tx_outputs tx))
  <= sumZ (map (inputAmount (utxo st)) (tx_inputs tx)).
Proof.
  intros Hcb Hv. unfold validateTx in Hv. rewrite Hcb in Hv.
  bind_inv Hv as inSum Hin. bind_inv Hv as outSum Hout.
  apply throwIf_Ok, Z.ltb_ge in Hv.
  apply validateTxInputs_ok in Hin as (Hnd & _ & Hall & ->).
  apply validateTxOutputs_ok in Hout as (Hpos & ->).
  split; [exact Hnd|]. split; [exact Hall|]. split; [exact Hpos|]. lia.
Qed.

(** What [validateBlock] has checked of the header when it accepts. *)
Lemma validateBlock_header st now block :
  validateBlock st now block = Ok tt ->
  blk_index block = nextIndex st /\
  (forall tip, last (chain st) = Some tip -> blk_previousHash block = headerHash tip) /\
  blk_timestamp block <= now + MAX_FUTURE /\
  merkleRoot (map tx_id (blk_transactions block)) = blk_merkleRoot block /\
  Compact.hashMeetsBits (headerHash block) (blk_bits block) = Ok true.
Proof.
  intros Hv. unfold validateBlock in Hv.
  bind_inv Hv as ? Hhead. bind_inv Hv as ? Hts. bind_inv Hv as ? Hmerkle.
  bind_inv Hv as meets Hpow. bind_inv Hv as ? Hmeets.
  apply throwIf_Ok, Z.ltb_ge in Hts.
  apply throwIf_Ok, negb_false_iff, bool_decide_eq_true in Hmerkle.
  apply throwIf_Ok, negb_false_iff in Hmeets. subst meets.
  unfold nextIndex.
  destruct (last (chain st)) as [tip|].
  - bind_inv Hhead as ? Hidx. apply throwIf_Ok, negb_false_iff, Z.eqb_eq in Hidx.
    apply throwIf_Ok, negb_false_iff, bool_decide_eq_true in Hhead.
    repeat split; try assumption. intros tip' [= <-]. exact Hhead.
  - apply throwIf_Ok, negb_false_iff, Z.eqb_eq in Hhead.
    repeat split; try assumption. intros tip' Hn. discriminate.
Qed.

(** X9. A block that [validateBlock] accepts has the index after the
    tip's (0 on an empty chain) and the tip's header hash as its previous
    hash, a timestamp at most two hours ahead, the Merkle root of its
    transaction ids, and a header hash that, read as a number, is at most
    the target of the block's own bits. *)
Theorem accepted_block_header st now block :
  validateBlock st now block = Ok tt ->
  blk_index block = nextIndex st /\
  (forall tip, last (chain st) = Some tip -> blk_previousHash block = headerHash tip) /\
  blk_timestamp block <= now + 7200000 /\
  merkleRoot (map tx_id (blk_transactions block)) = blk_merkleRoot block /\
  exists hashValue,
    Hex.bigIntOfHex (headerHash block) = Some hashValue /\
    hashValue <= Compact.bitsToTarget (blk_bits block).
Proof.
  intros Hv. apply validateBlock_header in Hv as (Hidx & Hprev & Hts & Hm & Hpow).
  repeat split; try assumption.
  unfold Compact.hashMeetsBits in Hpow.
  destruct (Hex.bigIntOfHex (headerHash block)) as [v|]; [|discriminate].
  exists v. split; [reflexivity|]. injection Hpow as Hle. apply Z.leb_le, Hle.
Qed.

(** The walk of an accepted block. *)
Lemma validateBlock_walk st now block :
  validateBlock st now block = Ok tt ->
  exists f temp,
    validateBlockTxs (config st) block (blk_transactions block) 0 0 (utxo st)
    = Ok (1, f, temp).
Proof.
  intros Hv. unfold validateBlock in Hv.
  do 5 bind_inv Hv. bind_inv Hv as [[c f] temp] Hwalk. bind_inv Hv as ? Hone.
  apply throwIf_Ok, negb_false_iff, Z.eqb_eq in Hone. subst c. eauto.
Qed.


End AcceptanceProperties.

Lemma accepted_block_header_witness :
  blk_index sampleBlock3 = nextIndex sampleState2.
Proof.
  refine (proj1 (@accepted_block_header samplePrimitives sampleState2 3500 sampleBlock3 _)).
  vm_compute. reflexivity.
Defined.

(** ** The chain along a run *)

Section RunProperties.

Context `{Primitives}.

Lemma maybeRetarget_keeps_all st st' :
  maybeRetarget st = Ok st' ->
  chain st' = chain st /\ utxo st' = utxo st /\ mempool st' = mempool st /\
  mempoolSpent st' = mempoolSpent st /\ seenTx st' = seenTx st /\
  seenBlockHash st' = seenBlockHash st.
Proof.
  unfold maybeRetarget.
  destruct (_ || _); [intros [= <-]; repeat split|].
  destruct (chainAt _ _); [|discriminate].
  destruct (chainAt _ _); [|discriminate].
  destruct (retargetDivisor _ _ _); [|discriminate].
  destruct (_ =? 0); [discriminate|].
  intros [= <-]. repeat split.
Qed.

Lemma accepted_fields st block :
  chain (accepted st block) = chain st ++ [block] /\
  utxo (accepted st block) = utxo (applyBlock st block) /\
  mempool (accepted st block) = mempool (applyBlock st block) /\
  mempoolSpent (accepted st block) = mempoolSpent (applyBlock st block) /\
  seenTx (accepted st block) = seenTx st /\
  seenBlockHash (accepted st block) = {[headerHash block]} ∪ seenBlockHash st.
Proof.
  assert (Happly : chain (applyBlock st block) = chain st ++ [block] /\
                   seenTx (applyBlock st block) = seenTx st /\
                   seenBlockHash (applyBlock st block) = {[headerHash block]} ∪ seenBlockHash st).
  { unfold applyBlock. destruct (applyBlockTxs _ _ _ _ _) as [[u mp] ms]. repeat split. }
  destruct Happly as (Hc & Hs & Hb).
  unfold accepted. destruct (maybeRetarget (applyBlock st block)) as [st2|e] eqn:E.
  - apply maybeRetarget_keeps_all in E as (-> & -> & -> & -> & -> & ->). repeat split; assumption.
  - repeat split; assumption.
Qed.

Lemma postBlocks_state st now body :
  (postBlocks st now body).2
  = match validateBlock st now (assignIds body) with
    | Ok _ => accepted st (assignIds body)
    | Err _ => st
    end.
Proof.
  unfold postBlocks, accepted.
  destruct (validateBlock st now (assignIds body)); [|reflexivity].
  destruct (maybeRetarget _); reflexivity.
Qed.

Lemma p2pBlock_state st now b :
  (p2pBlock st now b).2
  = if bool_decide (headerHash b ∈ seenBlockHash st) then st
    else match validateBlock st now (assignIds b) with
         | Ok _ => accepted st (assignIds b)
         | Err _ => st
         end.
Proof.
  unfold p2pBlock, accepted. destruct (bool_decide _); [reflexivity|].
  destruct (validateBlock st now (assignIds b)); [|reflexivity].
  destruct (maybeRetarget _); reflexivity.
Qed.

(** A step leaves the chain as it is or appends one block that
    [validateBlock] has accepted. *)
Lemma step_chain st st' :
  step st st' ->
  chain st' = chain st \/
  exists now block, validateBlock st now block = Ok tt /\ chain st' = chain st ++ [block].
Proof.
  intros Hs. destruct Hs as [st body|st now body|st body|st now b|st now addr].
  - left. apply postTransactions_keeps.
  - rewrite postBlocks_state.
    destruct (validateBlock st now (assignIds body)) as [[]|e] eqn:Hv; [|left; reflexivity].
    right. exists now, (assignIds body). split; [exact Hv|apply accepted_fields].
  - left. apply p2pTx_keeps.
  - rewrite p2pBlock_state. destruct (bool_decide _); [left; reflexivity|].
    destruct (validateBlock st now (assignIds b)) as [[]|e] eqn:Hv; [|left; reflexivity].
    right. exists now, (assignIds b). split; [exact Hv|apply accepted_fields].
  - left. apply getBlockCandidate_keeps.
Qed.

Lemma linked_snoc c b :
  linked c ->
  (forall tip, last c = Some tip ->
     blk_index b = blk_index tip + 1 /\ blk_previousHash b = headerHash tip) ->
  linked (c ++ [b]).
Proof.
  induction c as [|b0 c IH]; intros Hl Htip; [cbn; auto|].
  destruct c as [|b1 c].
  - cbn. split; [|auto]. apply Htip. reflexivity.
  - cbn [linked] in Hl. destruct Hl as [Hhead Hrest].
    change ((b0 :: b1 :: c) ++ [b]) with (b0 :: (b1 :: c) ++ [b]).
    cbn [linked app]. split; [exact Hhead|].
    apply IH; [exact Hrest|]. intros tip Ht. apply Htip. exact Ht.
Qed.

(** X10. If every block of the chain has the index after its
    predecessor's and carries its predecessor's header hash, the same is
    true after any number of requests and peer messages; the chain a node
    boots with on an empty block directory is of that kind. *)
Theorem chain_stays_linked st st' :
  rtc step st st' ->
  linked (chain st) ->
  linked (chain st') /\
  forall cfg now, linked (chain (boot cfg [] now)).
Proof.
  intros Hrun Hl. split; [|intros cfg now; cbn; auto].
  induction Hrun as [st|st st1 st' Hstep _ IH]; [exact Hl|].
  apply IH. destruct (step_chain st st1 Hstep) as [->|(now & block & Hv & ->)]; [exact Hl|].
  apply linked_snoc; [exact Hl|]. intros tip Htip.
  apply validateBlock_header in Hv as (Hidx & Hprev & _).
  unfold nextIndex in Hidx. rewrite Htip in Hidx. split; [exact Hidx|apply Hprev, Htip].
Qed.

(** X11. Requests and peer messages only ever append to the chain: the
    old chain is a prefix of the new one, so [GET /block/h] keeps
    answering the block it answered before. *)
Theorem chain_is_append_only st st' :
  rtc step st st' ->
  chain st `prefix_of` chain st' /\
  forall h b, getBlock st h = Some b -> getBlock st' h = Some b.
Proof.
  intros Hrun.
  assert (Hpre : chain st `prefix_of` chain st').
  { induction Hrun as [st|st st1 st' Hstep _ IH]; [reflexivity|].
    etrans; [|exact IH].
    destruct (step_chain st st1 Hstep) as [->|(now & block & _ & ->)]; [reflexivity|].
    apply prefix_app_r. reflexivity. }
  split; [exact Hpre|].
  intros h b. unfold getBlock.
  destruct Hpre as [ext Hext]. rewrite Hext, length_app.
  destruct (Z.ltb_spec h 0); [discriminate|]. cbn [orb].
  destruct (Z.leb_spec (Z.of_nat (length (chain st))) h); [discriminate|].
  intros Hb.
  destruct (Z.leb_spec (Z.of_nat (length (chain st) + length ext)) h); [lia|].
  rewrite lookup_app_l by lia. exact Hb.
Qed.

Lemma reachable_chain_nonempty st : reachable st -> chain st <> [].
Proof.
  assert (Hstep : forall st st', step st st' -> chain st <> [] -> chain st' <> []).
  { intros s s' Hs Hne.
    destruct (step_chain s s' Hs) as [->|(now & block & _ & ->)]; [exact Hne|].
    intros Heq. apply app_eq_nil in Heq as [_ Heq]. discriminate. }
  induction 1 as [cfg disk now | st body _ IH | st now body _ IH
                 | st body _ IH | st now b _ IH | st now addr _ IH].
  - cbn. destruct disk; discriminate.
  - apply (Hstep st); [constructor|exact IH].
  - apply (Hstep st); [constructor|exact IH].
  - apply (Hstep st); [constructor|exact IH].
  - apply (Hstep st); [constructor|exact IH].
  - apply (Hstep st); [constructor|exact IH].
Qed.

(** X12. From boot on the chain is never empty, so [GET /tip] answers a
    block; and while the mempool is empty [GET /block/candidate/:address]
    answers a template and leaves the state as it is: the template is for
    the index after the tip's, on the tip's header hash, with the node's
    current bits and nonce 0. *)
Theorem booted_node_has_a_tip st now addr :
  reachable st ->
  exists tip,
    getTip st = Some tip /\
    (mempool st = [] ->
     exists block,
       getBlockCandidate st now addr = (Candidate block, st) /\
       blk_index block = blk_index tip + 1 /\
       blk_previousHash block = headerHash tip /\
       blk_timestamp block = now /\
       blk_bits block = cfg_bits (config st) /\
       blk_nonce block = 0).
Proof.
  intros Hr. apply reachable_chain_nonempty in Hr.
  unfold getTip, getBlockCandidate.
  destruct (last (chain st)) as [tip|] eqn:Hlast.
  - exists tip. split; [reflexivity|]. intros Hmp.
    assert (Hpool : candidatePool st = []).
    { unfold candidatePool, slice0. rewrite Hmp. cbn. destruct (_ <? 0); apply take_nil. }
    rewrite Hpool. cbn [map length take drop fold_left app].
    eexists. split.
    { apply (f_equal2 pair); [reflexivity|]. destruct st. cbn in *. subst. reflexivity. }
    repeat split; reflexivity.
  - apply last_None in Hlast. congruence.
Qed.

End RunProperties.

Lemma sample_run : rtc (step (H := samplePrimitives)) sampleState sampleState2.
Proof.
  eapply rtc_l; [apply (step_postBlocks (H := samplePrimitives))|].
  eapply rtc_l; [apply (step_postBlocks (H := samplePrimitives))|].
  apply rtc_refl.
Qed.

Lemma chain_stays_linked_witness : linked (H := samplePrimitives) (chain sampleState2).
Proof.
  refine (proj1 (@chain_stays_linked samplePrimitives sampleState sampleState2 _ _)).
  - exact sample_run.
  - cbn. auto.
Defined.

Lemma chain_is_append_only_witness :
  chain sampleState `prefix_of` chain sampleState2.
Proof.
  refine (proj1 (@chain_is_append_only samplePrimitives sampleState sampleState2 _)).
  exact sample_run.
Defined.

Lemma booted_node_has_a_tip_witness :
  exists tip, getTip sampleState2 = Some tip.
Proof.
  destruct (@booted_node_has_a_tip samplePrimitives sampleState2 3500 sampleAddress)
    as (tip & Htip & _).
  - unfold sampleState2, sampleState1, sampleState.
    apply reach_postBlocks, reach_postBlocks, reach_boot.
  - exists tip. exact Htip.
Defined.

(** ** The mempool *)

Section MempoolMore.

Context `{Primitives}.

Lemma assignId_inputs tx : tx_inputs (assignId tx) = tx_inputs tx.
Proof. unfold assignId. destruct (bool_decide _); reflexivity. Qed.

Lemma checkMempoolSpent_exists ins spent :
  Exists (fun i => inputKey i ∈ spent) ins ->
  checkMempoolSpent ins spent = Err "mempool double spend".
Proof.
  induction 1 as [i rest Hi|i rest _ IH]; cbn [checkMempoolSpent].
  - rewrite bool_decide_eq_true_2 by exact Hi. reflexivity.
  - destruct (bool_decide _); [reflexivity|]. exact IH.
Qed.

Lemma checkMempoolSpent_ok ins spent u :
  checkMempoolSpent ins spent = Ok u -> Forall (fun i => inputKey i ∉ spent) ins.
Proof.
  induction ins as [|i rest IH]; intros Hc; [constructor|].
  cbn [checkMempoolSpent] in Hc. bind_inv Hc as ? Hi.
  apply throwIf_Ok, bool_decide_eq_false in Hi.
  constructor; [exact Hi|apply IH, Hc].
Qed.

Lemma reserveInputs_spec ins spent k :
  k ∈ reserveInputs ins spent <-> k ∈ spent \/ k ∈ map inputKey ins.
Proof.
  revert spent. induction ins as [|i rest IH]; intros spent; cbn [reserveInputs map].
  - split; [auto|]. intros [?|Hin]; [done|]. inversion Hin.
  - rewrite IH, elem_of_union, elem_of_singleton, elem_of_cons.
    unfold inputKey. tauto.
Qed.

Lemma mempoolGet_set_ne id id' tx m :
  id' <> id -> mempoolGet id' (mempoolSet id tx m) = mempoolGet id' m.
Proof.
  intros Hne. induction m as [|[k t] m IH]; cbn.
  - destruct (decide (id = id')); [congruence|reflexivity].
  - destruct (decide (k = id)) as [->|Hk]; cbn.
    + destruct (decide (id = id')); [congruence|reflexivity].
    + destruct (decide (k = id')); [reflexivity|exact IH].
Qed.

(** X13. A transaction that spends an outpoint reserved by the mempool is
    answered 400 by [POST /transactions], with [mempool double spend] if
    it is otherwise valid, and dropped when it comes from a peer; the
    state is unchanged. *)
Theorem reserved_outpoint_is_refused st body :
  Exists (fun i => inputKey i ∈ mempoolSpent st) (tx_inputs body) ->
  (exists e,
     postTransactions st body = (BadRequest e, st) /\
     (validateTx st (assignId body) (Z.of_nat (length (chain st))) = Ok tt ->
      e = "mempool double spend"%string)) /\
  p2pTx st body = (Ignored, st).
Proof.
  intros Hres.
  assert (Hcheck : checkMempoolSpent (tx_inputs (assignId body)) (mempoolSpent st)
                   = Err "mempool double spend").
  { rewrite assignId_inputs. apply checkMempoolSpent_exists, Hres. }
  split.
  - unfold postTransactions. rewrite Hcheck.
    destruct (validateTx st (assignId body) _) as [[]|e]; cbn.
    + eexists. split; reflexivity.
    + eexists. split; [reflexivity|discriminate].
  - unfold p2pTx. rewrite Hcheck.
    destruct (_ || _); [reflexivity|].
    destruct (validateTx st (assignId body) _) as [[]|e]; reflexivity.
Qed.

(** X14. When [POST /transactions] answers ok, the id was not in the
    mempool before and maps to the transaction afterwards, the other
    entries are as before, none of the transaction's outpoints was
    reserved before and all of them are now, and the chain and the UTXO
    map are untouched. *)
Theorem admitted_tx_is_pending st body id st' :
  postTransactions st body = (TxOk id, st') ->
  id = tx_id (assignId body) /\
  mempoolGet id (mempool st) = None /\
  mempoolGet id (mempool st') = Some (assignId body) /\
  (forall id', id' <> id -> mempoolGet id' (mempool st') = mempoolGet id' (mempool st)) /\
  Forall (fun i => (inputKey i ∉ mempoolSpent st) /\ (inputKey i ∈ mempoolSpent st'))
    (tx_inputs body) /\
  (forall k, k ∈ mempoolSpent st' <-> k ∈ mempoolSpent st \/ k ∈ map inputKey (tx_inputs body)) /\
  id ∈ seenTx st' /\
  chain st' = chain st /\ utxo st' = utxo st.
Proof.
  intros Hp. unfold postTransactions in Hp.
  destruct (_ ≫= _) as [u|e] eqn:Hchecks; [|discriminate].
  destruct (mempoolGet _ _) eqn:Hget; [discriminate|].
  injection Hp as <- <-.
  bind_inv Hchecks as [] Hvalid. apply checkMempoolSpent_ok in Hchecks.
  rewrite assignId_inputs in Hchecks.
  assert (Hspent : forall k, k ∈ mempoolSpent (admitTx st (assignId body))
                             <-> k ∈ mempoolSpent st \/ k ∈ map inputKey (tx_inputs body)).
  { intros k. cbn. rewrite assignId_inputs. apply reserveInputs_spec. }
  split; [reflexivity|]. split; [exact Hget|].
  split; [cbn; apply mempoolGet_set|].
  split; [intros id' Hne; cbn; apply mempoolGet_set_ne, Hne|].
  split.
  { rewrite Forall_forall in Hchecks. apply Forall_forall. intros i Hi.
    split; [apply Hchecks, Hi|]. apply Hspent. right.
    apply list_elem_of_fmap. exists i. split; [reflexivity|exact Hi]. }
  split; [exact Hspent|].
  split; [cbn; apply elem_of_union_l, elem_of_singleton; reflexivity|].
  split; reflexivity.
Qed.

(** X15. A transaction that has been admitted, over HTTP or from a peer,
    is dropped without a state change when a peer announces it again. *)
Theorem announced_again_is_ignored st body id st' :
  postTransactions st body = (TxOk id, st') \/ p2pTx st body = (TxOk id, st') ->
  p2pTx st' body = (Ignored, st').
Proof.
  intros Hadm.
  assert (Hst : st' = admitTx st (assignId body)).
  { destruct Hadm as [Hp|Hp].
    - unfold postTransactions in Hp.
      destruct (_ ≫= _); [|discriminate].
      destruct (mempoolGet _ _); [discriminate|]. injection Hp as _ <-. reflexivity.
    - unfold p2pTx in Hp. destruct (_ || _); [discriminate|].
      destruct (_ ≫= _); [|discriminate]. injection Hp as _ <-. reflexivity. }
  subst st'. unfold p2pTx.
  rewrite (bool_decide_eq_true_2 (tx_id (assignId body) ∈ seenTx (admitTx st (assignId body)))).
  - reflexivity.
  - cbn. apply elem_of_union_l, elem_of_singleton. reflexivity.
Qed.



End MempoolMore.

Lemma reserved_outpoint_is_refused_witness :
  p2pTx (H := samplePrimitives)
    (postTransactions (H := samplePrimitives) sampleState2 sampleSpend).2 sampleSpendNoOutput
  = (Ignored, (postTransactions (H := samplePrimitives) sampleState2 sampleSpend).2).
Proof.
  refine (proj2 (@reserved_outpoint_is_refused samplePrimitives _ sampleSpendNoOutput _)).
  apply Exists_cons_hd. vm_compute. reflexivity.
Defined.

Lemma admitted_tx_is_pending_witness :
  mempoolGet "d3" (mempool (postTransactions (H := samplePrimitives) sampleState2 sampleSpend).2)
  = Some (assignId (H := samplePrimitives) sampleSpend).
Proof.
  refine (proj1 (proj2 (proj2 (@admitted_tx_is_pending samplePrimitives
                                 sampleState2 sampleSpend "d3" _ _)))).
  vm_compute. reflexivity.
Defined.

Lemma announced_again_is_ignored_witness :
  p2pTx (H := samplePrimitives)
    (postTransactions (H := samplePrimitives) sampleState2 sampleSpend).2 sampleSpend
  = (Ignored, (postTransactions (H := samplePrimitives) sampleState2 sampleSpend).2).
Proof.
  apply (@announced_again_is_ignored samplePrimitives sampleState2 sampleSpend "d3").
  left. vm_compute. reflexivity.
Defined.


(** ** Blocks and the mempool *)

Section EvictionProperties.

Context `{Primitives}.

Lemma mempoolGet_None id (m : list (string * Tx)) :
  mempoolGet id m = None <-> id ∉ m.*1.
Proof.
  induction m as [|[k t] m IH]; cbn.
  - split; [intros _ Hin; inversion Hin|reflexivity].
  - destruct (decide (k = id)) as [->|Hne].
    + split; [discriminate|]. intros Hn. exfalso. apply Hn. left.
    + rewrite IH, not_elem_of_cons. split; [auto|intros [_ ?]; assumption].
Qed.

Lemma mempoolDelete_keys id id' (m : list (string * Tx)) :
  id' ∈ (mempoolDelete id m).*1 -> id' ∈ m.*1.
Proof.
  induction m as [|[k t] m IH]; cbn; [auto|].
  destruct (decide (k = id)); cbn.
  - intros Hin. right. exact Hin.
  - rewrite !elem_of_cons. intros [?|?]; [left|right]; auto.
Qed.

Lemma mempoolDelete_NoDup id (m : list (string * Tx)) :
  NoDup m.*1 -> NoDup (mempoolDelete id m).*1.
Proof.
  induction m as [|[k t] m IH]; cbn; [auto|].
  intros Hnd. apply NoDup_cons in Hnd as [Hk Hnd].
  destruct (decide (k = id)); [exact Hnd|]. cbn.
  apply NoDup_cons. split; [|apply IH, Hnd].
  intros Hin. apply Hk. eapply mempoolDelete_keys, Hin.
Qed.

Lemma mempoolGet_delete id id' (m : list (string * Tx)) :
  NoDup m.*1 ->
  mempoolGet id' (mempoolDelete id m)
  = if decide (id' = id) then None else mempoolGet id' m.
Proof.
  induction m as [|[k t] m IH]; cbn; intros Hnd.
  - destruct (decide (id' = id)); reflexivity.
  - apply NoDup_cons in Hnd as [Hk Hnd]. specialize (IH Hnd).
    destruct (decide (k = id)) as [->|Hne]; cbn.
    + destruct (decide (id' = id)) as [->|Hne'].
      * apply mempoolGet_None. exact Hk.
      * destruct (decide (id = id')); [congruence|reflexivity].
    + destruct (decide (k = id')) as [->|Hne'].
      * destruct (decide (id' = id)); [congruence|reflexivity].
      * exact IH.
Qed.

Lemma mempoolSet_keys id tx (m : list (string * Tx)) :
  mempoolGet id m = None -> (mempoolSet id tx m).*1 = m.*1 ++ [id].
Proof.
  induction m as [|[k t] m IH]; cbn; [reflexivity|].
  destruct (decide (k = id)); [discriminate|]. intros Hn. cbn. rewrite IH by exact Hn.
  reflexivity.
Qed.

Lemma applyBlockTxs_mempool block txs u mp ms :
  NoDup mp.*1 ->
  NoDup (applyBlockTxs block txs u mp ms).1.2.*1 /\
  forall id,
    mempoolGet id (applyBlockTxs block txs u mp ms).1.2
    = if bool_decide (id ∈ map tx_id txs) then None else mempoolGet id mp.
Proof.
  revert u mp ms. induction txs as [|tx rest IH]; intros u mp ms Hnd.
  - cbn. split; [exact Hnd|]. intros id. rewrite bool_decide_eq_false_2; [reflexivity|].
    intros Hin. inversion Hin.
  - cbn [applyBlockTxs map].
    assert (Hcase : forall mp',
              NoDup mp'.*1 ->
              (forall id, mempoolGet id mp'
                          = if decide (id = tx_id tx) then None else mempoolGet id mp) ->
              forall u' ms',
                NoDup (applyBlockTxs block rest u' mp' ms').1.2.*1 /\
                forall id,
                  mempoolGet id (applyBlockTxs block rest u' mp' ms').1.2
                  = if bool_decide (id ∈ tx_id tx :: map tx_id rest) then None
                    else mempoolGet id mp).
    { intros mp' Hnd' Hget u' ms'. destruct (IH u' mp' ms' Hnd') as [Hnd'' Hrest].
      split; [exact Hnd''|]. intros id. rewrite Hrest, Hget.
      destruct (decide (id = tx_id tx)) as [->|Hne].
      - rewrite (bool_decide_eq_true_2 (tx_id tx ∈ tx_id tx :: map tx_id rest)) by left.
        destruct (bool_decide _); reflexivity.
      - destruct (bool_decide (id ∈ map tx_id rest)) eqn:Hb.
        + apply bool_decide_eq_true in Hb.
          rewrite bool_decide_eq_true_2 by (right; exact Hb). reflexivity.
        + apply bool_decide_eq_false in Hb.
          rewrite bool_decide_eq_false_2; [reflexivity|].
          rewrite elem_of_cons. intros [?|?]; [congruence|contradiction]. }
    destruct (mempoolGet (tx_id tx) mp) eqn:Hg.
    + apply Hcase; [apply mempoolDelete_NoDup, Hnd|].
      intros id. apply mempoolGet_delete, Hnd.
    + apply Hcase; [exact Hnd|].
      intros id. destruct (decide (id = tx_id tx)) as [->|]; [exact Hg|reflexivity].
Qed.

(** The mempool object has one entry per id. *)
Lemma reachable_mempool_keys st : reachable st -> NoDup (mempool st).*1.
Proof.
  assert (Hadmit : forall st tx, NoDup (mempool st).*1 ->
            mempoolGet (tx_id tx) (mempool st) = None ->
            NoDup (mempool (admitTx st tx)).*1).
  { intros s tx Hnd Hget. cbn. rewrite mempoolSet_keys by exact Hget.
    apply NoDup_app. split; [exact Hnd|]. split; [|apply NoDup_singleton].
    intros k Hk Hin. apply list_elem_of_singleton in Hin as ->.
    apply mempoolGet_None in Hget. contradiction. }
  assert (Haccept : forall st block, NoDup (mempool st).*1 ->
            NoDup (mempool (accepted st block)).*1).
  { intros s block Hnd.
    destruct (accepted_fields s block) as (_ & _ & -> & _).
    unfold applyBlock.
    pose proof (applyBlockTxs_mempool block (blk_transactions block) (utxo s)
                  (mempool s) (mempoolSpent s) Hnd) as [Hnd' _].
    destruct (applyBlockTxs _ _ _ _ _) as [[u mp] ms]. exact Hnd'. }
  induction 1 as [cfg disk now | st body _ IH | st now body _ IH
                 | st body _ IH | st now b _ IH | st now addr _ IH].
  - cbn. constructor.
  - unfold postTransactions. destruct (_ ≫= _); [|exact IH].
    destruct (mempoolGet _ _) eqn:Hg; [exact IH|]. apply Hadmit; assumption.
  - rewrite postBlocks_state. destruct (validateBlock _ _ _); [apply Haccept|]; exact IH.
  - unfold p2pTx.
    destruct (bool_decide (tx_id (assignId body) ∈ seenTx st)); [exact IH|].
    destruct (bool_decide (is_Some (mempoolGet (tx_id (assignId body)) (mempool st)))) eqn:Hs;
      [exact IH|]. cbn [orb].
    destruct (_ ≫= _); [|exact IH]. apply Hadmit; [exact IH|].
    apply bool_decide_eq_false in Hs. destruct (mempoolGet _ _); [|reflexivity].
    exfalso. apply Hs. eauto.
  - rewrite p2pBlock_state. destruct (bool_decide _); [exact IH|].
    destruct (validateBlock _ _ _); [apply Haccept|]; exact IH.
  - unfold getBlockCandidate. destruct (last (chain st)); [|exact IH]. cbn.
    rewrite fmap_app, <- list_fmap_compose.
    replace (fst ∘ (fun kt : string * Tx => (kt.1, assignId kt.2))) with (@fst string Tx)
      by reflexivity.
    rewrite <- fmap_app, take_drop. exact IH.
Qed.

(** X17. When [POST /blocks] accepts a block, the transactions whose ids
    it carries leave the mempool and every other entry of the mempool
    stays. *)
Theorem accepted_block_evicts_its_ids st now body id :
  reachable st ->
  validateBlock st now (assignIds body) = Ok tt ->
  mempoolGet id (mempool (postBlocks st now body).2)
  = if bool_decide (id ∈ map tx_id (blk_transactions (assignIds body))) then None
    else mempoolGet id (mempool st).
Proof.
  intros Hr Hv. rewrite postBlocks_state, Hv.
  destruct (accepted_fields st (assignIds body)) as (_ & _ & -> & _).
  apply reachable_mempool_keys in Hr.
  unfold applyBlock.
  pose proof (applyBlockTxs_mempool (assignIds body) (blk_transactions (assignIds body))
                (utxo st) (mempool st) (mempoolSpent st) Hr) as [_ Hget].
  destruct (applyBlockTxs _ _ _ _ _) as [[u mp] ms]. apply Hget.
Qed.

End EvictionProperties.

Lemma sample_reachable2 : reachable (H := samplePrimitives) sampleState2.
Proof.
  unfold sampleState2, sampleState1, sampleState.
  apply reach_postBlocks, reach_postBlocks, reach_boot.
Qed.

Lemma accepted_block_evicts_its_ids_witness :
  mempoolGet "d3" (mempool sampleStatePending) = Some sampleSpend /\
  mempoolGet "d3"
    (mempool (postBlocks (H := samplePrimitives) sampleStatePending 3500 sampleBlock3).2)
  = None.
Proof.
  split; [vm_compute; reflexivity|].
  refine (@accepted_block_evicts_its_ids samplePrimitives sampleStatePending 3500
            sampleBlock3 "d3" _ _).
  - apply reach_postTransactions, sample_reachable2.
  - vm_compute. reflexivity.
Defined.

(** ** The UTXO map and the chain *)

Section ReplayProperties.

Context `{Primitives}.

Lemma deleteInputs_lookup ins (m : gmap string UtxoEntry) k e :
  deleteInputs ins m !! k = Some e -> m !! k = Some e.
Proof.
  revert m. induction ins as [|i rest IH]; intros m Hk; [exact Hk|].
  cbn [deleteInputs] in Hk. apply IH in Hk.
  apply lookup_delete_Some in Hk as [_ Hk]. exact Hk.
Qed.

Lemma setOutputs_lookup id height cb outs n (m : gmap string UtxoEntry) k e :
  setOutputs id height cb outs n m !! k = Some e ->
  m !! k = Some e \/
  exists j o,
    outs !! j = Some o /\ k = outpointKey id (Z.of_nat (n + j)) /\
    e = {| ue_amount := out_amount o; ue_address := out_address o;
           ue_blockHeight := height; ue_isCoinbase := cb |}.
Proof.
  revert n m. induction outs as [|o rest IH]; intros n m Hk; [left; exact Hk|].
  cbn [setOutputs] in Hk. apply IH in Hk as [Hk|(j & o' & Hj & -> & ->)].
  - apply lookup_insert_Some in Hk as [[<- <-]|[_ Hk]]; [|left; exact Hk].
    right. exists 0%nat, o. rewrite Nat.add_0_r. repeat split.
  - right. exists (S j), o'. replace (n + S j)%nat with (S n + j)%nat by lia. repeat split.
    exact Hj.
Qed.

Lemma rebuildTxs_lookup b txs (u : gmap string UtxoEntry) k e :
  rebuildTxs b txs u !! k = Some e ->
  u !! k = Some e \/ exists tx, tx ∈ txs /\ madeBy b tx k e.
Proof.
  revert u. induction txs as [|tx rest IH]; intros u Hk; [left; exact Hk|].
  cbn [rebuildTxs] in Hk. apply IH in Hk as [Hk|(tx' & Hin & Hm)].
  - apply setOutputs_lookup in Hk as [Hk|(j & o & Hj & -> & ->)].
    + left. eapply deleteInputs_lookup, Hk.
    + right. exists tx. split; [left|]. exists j, o. repeat split. exact Hj.
  - right. exists tx'. split; [right; exact Hin|exact Hm].
Qed.

Lemma rebuildBlocks_lookup c (u : gmap string UtxoEntry) k e :
  rebuildBlocks c u !! k = Some e ->
  u !! k = Some e \/
  exists b tx, b ∈ c /\ tx ∈ blk_transactions b /\ madeBy b tx k e.
Proof.
  revert u. induction c as [|b rest IH]; intros u Hk; [left; exact Hk|].
  cbn [rebuildBlocks] in Hk. apply IH in Hk as [Hk|(b' & tx & Hb & Htx & Hm)].
  - apply rebuildTxs_lookup in Hk as [Hk|(tx & Htx & Hm)]; [left; exact Hk|].
    right. exists b, tx. split; [left|split; assumption].
  - right. exists b', tx. split; [right; exact Hb|split; assumption].
Qed.

(** X18. Every entry of the map that [rebuildUTXO] builds from a chain
    was made by an output of a transaction of a block of that chain: its
    key is that transaction's id and the output's position, its amount
    and address are the output's, its height is the block's index and its
    coinbase flag the transaction's. *)
Theorem utxo_entries_come_from_the_chain c k e :
  rebuildUTXO c !! k = Some e ->
  exists b tx j o,
    b ∈ c /\ tx ∈ blk_transactions b /\ tx_outputs tx !! j = Some o /\
    k = outpointKey (tx_id tx) (Z.of_nat j) /\
    ue_amount e = out_amount o /\ ue_address e = out_address o /\
    ue_blockHeight e = blk_index b /\ ue_isCoinbase e = tx_isCoinbase tx.
Proof.
  intros Hk. unfold rebuildUTXO in Hk.
  apply rebuildBlocks_lookup in Hk as [Hk|(b & tx & Hb & Htx & j & o & Hj & -> & ->)].
  - rewrite lookup_empty in Hk. discriminate.
  - exists b, tx, j, o. repeat split; assumption.
Qed.

End ReplayProperties.

Lemma utxo_entries_come_from_the_chain_witness :
  exists b tx j o,
    b ∈ chain sampleState2 /\ tx ∈ blk_transactions b /\ tx_outputs tx !! j = Some o /\
    "c1:0"%string = outpointKey (tx_id tx) (Z.of_nat j) /\
    5 = out_amount o /\ sampleAddress = out_address o /\
    1 = blk_index b /\ true = tx_isCoinbase tx.
Proof.
  refine (@utxo_entries_come_from_the_chain (chain sampleState2) "c1:0"
            {| ue_amount := 5; ue_address := sampleAddress;
               ue_blockHeight := 1; ue_isCoinbase := true |} _).
  vm_compute. reflexivity.
Defined.

(** ** Templates and the miner *)

Section TemplateProperties.

Context `{Primitives}.

Lemma assignId_idempotent tx : assignId (assignId tx) = assignId tx.
Proof.
  destruct (bool_decide (tx_id tx = ""%string)) eqn:Hid.
  - assert (Ha : assignId tx
                 = {| tx_id := txIdFor tx; tx_isCoinbase := tx_isCoinbase tx;
                      tx_inputs := tx_inputs tx; tx_outputs := tx_outputs tx |})
      by (unfold assignId; rewrite Hid; reflexivity).
    rewrite Ha. unfold assignId. cbn [tx_id tx_isCoinbase tx_inputs tx_outputs].
    destruct (bool_decide (txIdFor tx = ""%string)); reflexivity.
  - assert (Ha : assignId tx = tx) by (unfold assignId; rewrite Hid; reflexivity).
    rewrite !Ha. reflexivity.
Qed.

Lemma assignId_isCoinbase tx : tx_isCoinbase (assignId tx) = tx_isCoinbase tx.
Proof. unfold assignId. destruct (bool_decide _); reflexivity. Qed.

Lemma miner_meets_node hash bits :
  Z.land (Compact.toUint32 bits) 8388608 = 0 ->
  Miner.meets hash bits = Compact.hashMeetsBits hash bits.
Proof.
  intros Hclear. unfold Miner.meets, Compact.hashMeetsBits.
  rewrite bitsToTarget_one_shift. unfold Miner.bitsToTarget. rewrite Hclear. reflexivity.
Qed.

(** X20. With an empty mempool, a template that the miner has given a
    nonce and a timestamp at most two hours ahead, and whose hash meets
    the bits by the miner's own test, is accepted by [validateBlock],
    provided bit 23 of the node's bits is clear.  Assembling the template
    has not changed the state. *)
Theorem mined_template_is_accepted st now addr block st' nonce ts now' :
  mempool st = [] ->
  Z.land (Compact.toUint32 (cfg_bits (config st))) 8388608 = 0 ->
  getBlockCandidate st now addr = (Candidate block, st') ->
  ts <= now' + 7200000 ->
  Miner.meets (headerHash (minerTry block nonce ts)) (blk_bits block) = Ok true ->
  st' = st /\
  validateBlock st now' (assignIds (minerTry block nonce ts)) = Ok tt.
Proof.
  intros Hmp Hclear Hc Hts Hmeets. unfold getBlockCandidate in Hc.
  destruct (last (chain st)) as [tip|] eqn:Htip; [|discriminate].
  assert (Hpool : candidatePool st = []).
  { unfold candidatePool, slice0. rewrite Hmp. cbn. destruct (_ <? 0); apply take_nil. }
  rewrite Hpool in Hc. cbn [map length take drop fold_left app] in Hc.
  injection Hc as <- <-.
  split. { destruct st. cbn in *. subst. reflexivity. }
  pose (cb := assignId
               {| tx_id := ""; tx_isCoinbase := true; tx_inputs := [];
                  tx_outputs := [{| out_address := addr;
                                    out_amount := getBlockReward (config st) (blk_index tip + 1) + 0 |}] |}).
  pose (blk := {| blk_index := blk_index tip + 1; blk_previousHash := headerHash tip;
                  blk_timestamp := now; blk_transactions := [cb];
                  blk_merkleRoot := merkleRoot (map tx_id [cb]); blk_nonce := 0;
                  blk_bits := cfg_bits (config st) |}).
  pose (B := assignIds (minerTry blk nonce ts)).
  change (Miner.meets (headerHash B) (blk_bits B) = Ok true) in Hmeets.
  change (validateBlock st now' B = Ok tt).
  assert (Hidx : blk_index B = blk_index tip + 1) by reflexivity.
  assert (Hprev : blk_previousHash B = headerHash tip) by reflexivity.
  assert (HtsB : blk_timestamp B = ts) by reflexivity.
  assert (Htx : blk_transactions B = [cb]).
  { unfold B, assignIds, withTransactions, minerTry, blk. cbn [blk_transactions map].
    unfold cb. rewrite assignId_idempotent. reflexivity. }
  assert (Hmr : blk_merkleRoot B = merkleRoot (map tx_id [cb])) by reflexivity.
  assert (Hpow : Compact.hashMeetsBits (headerHash B) (blk_bits B) = Ok true).
  { rewrite <- miner_meets_node by exact Hclear. exact Hmeets. }
  clear Hmeets.
  assert (Hcb : tx_isCoinbase cb = true) by (unfold cb; apply assignId_isCoinbase).
  assert (Hin : tx_inputs cb = []) by (unfold cb; apply assignId_inputs).
  assert (Hout : sumAmounts (tx_outputs cb)
                 = getBlockReward (config st) (blk_index tip + 1) + 0).
  { unfold cb, assignId. destruct (bool_decide _); reflexivity. }
  clearbody B cb.
  unfold validateBlock. rewrite Htip, Hidx, Hprev, HtsB, Htx, Hmr, Hpow.
  rewrite Z.eqb_refl. cbn [negb throwIf mbind result_bind rbind].
  rewrite bool_decide_eq_true_2 by reflexivity. cbn [negb throwIf mbind result_bind rbind].
  assert (Hfuture : (now' + MAX_FUTURE <? ts) = false)
    by (apply Z.ltb_ge; unfold MAX_FUTURE; lia).
  rewrite Hfuture. cbn [throwIf mbind result_bind rbind].
  rewrite bool_decide_eq_true_2 by reflexivity. cbn [negb throwIf mbind result_bind rbind].
  cbn [validateBlockTxs find]. rewrite Hcb, Hin.
  cbn [length Nat.eqb negb throwIf mbind result_bind rbind validateBlockTxs].
  change (0 + 1 =? 1) with true. cbn [negb throwIf mbind result_bind rbind].
  rewrite Hout. apply throwIf_false, Z.ltb_ge. lia.
Qed.

Lemma filter_coinbase_assignId txs :
  length (filter (fun t => tx_isCoinbase t = true) (map assignId txs))
  = length (filter (fun t => tx_isCoinbase t = true) txs).
Proof.
  induction txs as [|t txs IH]; [reflexivity|].
  cbn [map]. rewrite !filter_cons, assignId_isCoinbase.
  destruct (decide (tx_isCoinbase t = true)); cbn [length]; rewrite IH; reflexivity.
Qed.

Lemma not_one_coinbase_rejected st now block :
  length (filter (fun t => tx_isCoinbase t = true) (blk_transactions block)) <> 1%nat ->
  exists e, validateBlock st now block = Err e.
Proof.
  intros Hlen. destruct (validateBlock st now block) as [[]|e] eqn:Hv; [|eauto].
  exfalso. destruct (validateBlock_walk st now block Hv) as (f & temp & Hwalk).
  apply validateBlockTxs_spec in Hwalk as (Hc & _). lia.
Qed.

(** X21. [POST /transactions] admits a transaction marked as a coinbase
    that has no input and positive outputs, whatever the UTXO map, when
    [mempool[tx.id]] is falsy (no entry under that id, and the id is not
    a property name of [Object.prototype]): it spends nothing, and
    nothing is reserved for it. *)
Theorem coinbase_marked_tx_is_admitted st body :
  tx_isCoinbase body = true ->
  tx_inputs body = [] ->
  Forall (fun o => 0 < out_amount o) (tx_outputs body) ->
  mempoolTruthy (tx_id (assignId body)) (mempool st) = false ->
  postTransactions st body = (TxOk (tx_id (assignId body)), admitTx st (assignId body)) /\
  mempoolSpent (admitTx st (assignId body)) = mempoolSpent st.
Proof.
  intros Hcb Hin Hpos Htruthy.
  assert (Hget : mempoolGet (tx_id (assignId body)) (mempool st) = None).
  { apply orb_false_iff in Htruthy as [_ Hown]. apply bool_decide_eq_false in Hown.
    destruct (mempoolGet _ _) as [t|] eqn:E; [|reflexivity].
    exfalso. apply Hown. eauto. }
  assert (Hcb' : tx_isCoinbase (assignId body) = true) by (rewrite assignId_isCoinbase; exact Hcb).
  assert (Hin' : tx_inputs (assignId body) = []) by (rewrite assignId_inputs; exact Hin).
  assert (Hout' : tx_outputs (assignId body) = tx_outputs body).
  { unfold assignId. destruct (bool_decide _); reflexivity. }
  split; [|cbn; rewrite Hin'; reflexivity].
  unfold postTransactions, validateTx. rewrite Hcb', Hin', Hout', Hget. cbn.
  assert (Hex : existsb (fun o => out_amount o <=? 0) (tx_outputs body) = false).
  { apply not_true_is_false. intros Hex. apply existsb_exists in Hex as (o & Ho & Hle).
    rewrite Forall_forall in Hpos. apply list_elem_of_In in Ho. apply Hpos in Ho.
    apply Z.leb_le in Hle. lia. }
  rewrite Hex. reflexivity.
Qed.

(** X22. While a transaction marked as a coinbase is among the mempool
    entries the assembler takes, the template has two coinbases, and
    every block that carries the template's transactions is rejected by
    [validateBlock], in any state and whatever its header. *)
Theorem coinbase_in_pool_spoils_templates st now addr block st' st2 now2 b2 :
  getBlockCandidate st now addr = (Candidate block, st') ->
  Exists (fun t => tx_isCoinbase t = true) (candidatePool st) ->
  blk_transactions b2 = blk_transactions block ->
  exists e, validateBlock st2 now2 (assignIds b2) = Err e.
Proof.
  intros Hc Hex Htxs. unfold getBlockCandidate in Hc.
  destruct (last (chain st)) as [tip|]; [|discriminate].
  injection Hc as <- _. cbn [blk_transactions] in Htxs.
  apply not_one_coinbase_rejected.
  unfold assignIds, withTransactions. cbn [blk_transactions]. rewrite Htxs.
  rewrite filter_coinbase_assignId. rewrite filter_cons, assignId_isCoinbase.
  cbn [tx_isCoinbase]. destruct (decide (true = true)); [|congruence].
  cbn [length]. rewrite filter_coinbase_assignId.
  assert (Hpos : (0 < length (filter (fun t => tx_isCoinbase t = true) (candidatePool st)))%nat).
  { apply Exists_exists in Hex as (t & Ht & Hcb).
    assert (Hin : t ∈ filter (fun t => tx_isCoinbase t = true) (candidatePool st))
      by (apply list_elem_of_filter; split; assumption).
    destruct (filter _ _); [inversion Hin|cbn; lia]. }
  lia.
Qed.

End TemplateProperties.

Lemma mined_template_is_accepted_witness :
  validateBlock (H := samplePrimitives) sampleState2 3600
    (assignIds (H := samplePrimitives) (minerTry sampleTemplate 7 3600)) = Ok tt.
Proof.
  refine (proj2 (@mined_template_is_accepted samplePrimitives sampleState2 3500 sampleAddress
                   sampleTemplate sampleState2 7 3600 3600 _ _ _ _ _)).
  - reflexivity.
  - reflexivity.
  - vm_compute. reflexivity.
  - discriminate.
  - vm_compute. reflexivity.
Defined.

Lemma coinbase_marked_tx_is_admitted_witness :
  postTransactions (H := samplePrimitives) sampleState2 sampleMint
  = (TxOk "f1", sampleStateMint).
Proof.
  refine (proj1 (@coinbase_marked_tx_is_admitted samplePrimitives sampleState2 sampleMint _ _ _ _)).
  - reflexivity.
  - reflexivity.
  - repeat constructor.
  - vm_compute. reflexivity.
Defined.

Lemma coinbase_in_pool_spoils_templates_witness :
  exists e,
    validateBlock (H := samplePrimitives) sampleStateMint 3600
      (assignIds (H := samplePrimitives) (minerTry sampleTemplateMint 7 3600)) = Err e.
Proof.
  refine (@coinbase_in_pool_spoils_templates samplePrimitives sampleStateMint 3500 sampleAddress
            sampleTemplateMint sampleStateMint sampleStateMint 3600
            (minerTry sampleTemplateMint 7 3600) _ _ _).
  - vm_compute. reflexivity.
  - apply Exists_cons_hd. reflexivity.
  - reflexivity.
Defined.

(** ** Outpoint keys *)

Lemma pretty_N_char_no_colon r : Ascii.eqb (pretty_N_char r) ":" = false.
Proof.
  destruct r as [|p]; [reflexivity|].
  do 4 (try destruct p as [p|p|]); reflexivity.
Qed.

Lemma hasColon_pretty_N_go x s :
  hasColon s = false -> hasColon (pretty_N_go x s) = false.
Proof.
  revert s. induction (N.lt_wf_0 x) as [x _ IH]; intros s Hs.
  assert (x = 0 \/ 0 < x)%N as [->|Hx] by lia.
  - rewrite pretty_N_go_0. exact Hs.
  - rewrite pretty_N_go_step by exact Hx.
    apply IH.
    + apply N.div_lt; lia.
    + cbn [hasColon]. rewrite pretty_N_char_no_colon. exact Hs.
Qed.

Lemma hasColon_pretty_N (n : N) : hasColon (pretty n) = false.
Proof.
  unfold pretty, pretty_N. destruct (decide (n = 0%N)); [reflexivity|].
  apply hasColon_pretty_N_go. reflexivity.
Qed.

Lemma hasColon_pretty_Z (z : Z) : hasColon (pretty z) = false.
Proof.
  destruct z as [|q|q]; [reflexivity| |].
  - apply (hasColon_pretty_N (N.pos q)).
  - change (pretty (Z.neg q)) with (String "-" (pretty (N.pos q))).
    cbn [hasColon]. change (Ascii.eqb "-" ":") with false. cbv iota.
    apply hasColon_pretty_N.
Qed.

Lemma hasColon_after a d : hasColon (a ++ ":" ++ d)%string = true.
Proof.
  induction a as [|c a IH]; [reflexivity|].
  change (hasColon (String c (a ++ ":" ++ d)%string) = true).
  cbn [hasColon]. destruct (Ascii.eqb c ":"); [reflexivity|exact IH].
Qed.

Lemma split_at_last_colon a b d1 d2 :
  hasColon d1 = false -> hasColon d2 = false ->
  (a ++ ":" ++ d1)%string = (b ++ ":" ++ d2)%string -> a = b /\ d1 = d2.
Proof.
  intros H1 H2. revert b. induction a as [|c a IH]; intros [|c' b] Heq.
  - injection Heq as Heq. auto.
  - injection Heq as _ Heq. change (d1 = (b ++ ":" ++ d2)%string) in Heq.
    rewrite Heq, hasColon_after in H1. discriminate.
  - injection Heq as _ Heq. change ((a ++ ":" ++ d1)%string = d2) in Heq.
    rewrite <- Heq, hasColon_after in H2. discriminate.
  - injection Heq as -> Heq.
    destruct (IH b Heq) as [-> ->]. auto.
Qed.

(** X23. Two outpoints have the same key in the UTXO map and in the set of
    reserved outpoints only if they are the same outpoint: the key
    [txid:index] determines the transaction id and the index, whatever
    characters the id holds. *)
Theorem outpointKey_determines_outpoint a i b j :
  outpointKey a i = outpointKey b j <-> a = b /\ i = j.
Proof.
  split; [|intros [-> ->]; reflexivity].
  unfold outpointKey. intros Heq.
  apply split_at_last_colon in Heq; try apply hasColon_pretty_Z.
  destruct Heq as [-> Hp]. split; [reflexivity|].
  apply (inj pretty). exact Hp.
Qed.

(** ** Looking transactions up *)

Section LookupProperties.

Context `{Primitives}.

Lemma findInChain_app c1 c2 id :
  findInChain (c1 ++ c2) id
  = match findInChain c1 id with
    | Some r => Some r
    | None => findInChain c2 id
    end.
Proof.
  induction c1 as [|b c1 IH]; [reflexivity|].
  cbn [app findInChain]. destruct (find _ _); [reflexivity|exact IH].
Qed.

Lemma findInChain_Some c id t h :
  findInChain c id = Some (t, h) ->
  exists b, b ∈ c /\ t ∈ blk_transactions b /\ tx_id t = id /\ h = blk_index b.
Proof.
  induction c as [|b c IH]; [discriminate|].
  cbn [findInChain]. destruct (find _ _) as [t'|] eqn:F.
  - intros [= -> <-]. apply find_some in F as [Hin Hid].
    apply bool_decide_eq_true in Hid.
    exists b. split; [left|]. split; [apply list_elem_of_In; exact Hin|auto].
  - intros Hf. destruct (IH Hf) as (b' & Hb & Hrest).
    exists b'. split; [right; exact Hb|exact Hrest].
Qed.

(** X24. After [POST /blocks] has accepted a block, [GET /tx/:id] finds
    every id the block carries, with a block height: the transaction of
    the block itself and the block's index, unless an older block of the
    chain already holds a transaction of that id, which is then the one
    returned. *)
Theorem accepted_block_txs_are_found st now body tx :
  validateBlock st now (assignIds body) = Ok tt ->
  tx ∈ blk_transactions (assignIds body) ->
  exists t h,
    getTx (postBlocks st now body).2 (tx_id tx) = TxFound t (Some h) /\
    tx_id t = tx_id tx /\
    match findInChain (chain st) (tx_id tx) with
    | Some r => (t, h) = r
    | None => t ∈ blk_transactions (assignIds body) /\ h = blk_index (assignIds body)
    end.
Proof.
  intros Hv Hin. rewrite postBlocks_state, Hv.
  destruct (accepted_fields st (assignIds body)) as (Hc & _).
  unfold getTx. rewrite Hc, findInChain_app.
  destruct (findInChain (chain st) (tx_id tx)) as [[t h]|] eqn:E.
  - exists t, h. split; [reflexivity|]. split; [|reflexivity].
    apply findInChain_Some in E as (_ & _ & _ & Hid & _). exact Hid.
  - cbn [findInChain].
    destruct (find _ (blk_transactions (assignIds body))) as [t|] eqn:F.
    + apply find_some in F as [Ht Hid]. apply bool_decide_eq_true in Hid.
      exists t, (blk_index (assignIds body)).
      split; [reflexivity|]. split; [exact Hid|].
      split; [apply list_elem_of_In; exact Ht|reflexivity].
    + exfalso. apply list_elem_of_In in Hin.
      pose proof (find_none _ _ F tx Hin) as Hn. cbn in Hn.
      apply bool_decide_eq_false in Hn. apply Hn. reflexivity.
Qed.

End LookupProperties.

Lemma accepted_block_txs_are_found_witness :
  exists t h,
    getTx (postBlocks (H := samplePrimitives) sampleStatePending 3500 sampleBlock3).2 "d3"
    = TxFound t (Some h) /\ tx_id t = "d3"%string /\ h = 3.
Proof.
  destruct (@accepted_block_txs_are_found samplePrimitives sampleStatePending 3500
              sampleBlock3 sampleSpend) as (t & h & Hget & Hid & Hrest).
  - vm_compute. reflexivity.
  - vm_compute. right. left.
  - exists t, h. split; [exact Hget|]. split; [exact Hid|].
    vm_compute in Hrest. apply Hrest.
Defined.

(** ** Rewards mined to one address *)

Section RewardProperties.

Context `{Primitives}.

Lemma candidate_empty_mempool st now addr b st' :
  mempool st = [] ->
  getBlockCandidate st now addr = (Candidate b, st') ->
  exists tip,
    last (chain st) = Some tip /\
    blk_index b = blk_index tip + 1 /\
    blk_transactions b
    = [assignId {| tx_id := ""; tx_isCoinbase := true; tx_inputs := [];
                   tx_outputs := [{| out_address := addr;
                                     out_amount := getBlockReward (config st) (blk_index tip + 1) + 0 |}] |}].
Proof.
  intros Hmp Hc. unfold getBlockCandidate in Hc.
  destruct (last (chain st)) as [tip|] eqn:Htip; [|discriminate].
  assert (Hpool : candidatePool st = []).
  { unfold candidatePool, slice0. rewrite Hmp. cbn. destruct (_ <? 0); apply take_nil. }
  rewrite Hpool in Hc. cbn [map length take drop fold_left app] in Hc.
  injection Hc as <- _. exists tip. repeat split.
Qed.

Lemma maybeRetarget_reward st st' h :
  maybeRetarget st = Ok st' ->
  getBlockReward (config st') h = getBlockReward (config st) h.
Proof.
  unfold maybeRetarget.
  destruct (_ || _); [intros [= <-]; reflexivity|].
  destruct (chainAt _ _); [|discriminate].
  destruct (chainAt _ _); [|discriminate].
  destruct (retargetDivisor _ _ _); [|discriminate].
  destruct (_ =? 0); [discriminate|].
  intros [= <-]. reflexivity.
Qed.

Lemma accepted_reward st block h :
  getBlockReward (config (accepted st block)) h = getBlockReward (config st) h.
Proof.
  assert (Ha : config (applyBlock st block) = config st).
  { unfold applyBlock. destruct (applyBlockTxs _ _ _ _ _) as [[u mp] ms]. reflexivity. }
  unfold accepted. destruct (maybeRetarget _) as [st2|e] eqn:E.
  - rewrite (maybeRetarget_reward _ _ h E), Ha. reflexivity.
  - rewrite Ha. reflexivity.
Qed.

Lemma accepted_single_reward st B cb o :
  mempool st = [] ->
  blk_transactions B = [cb] -> tx_inputs cb = [] -> tx_outputs cb = [o] ->
  utxo (accepted st B)
  = <[outpointKey (tx_id cb) 0 :=
        {| ue_amount := out_amount o; ue_address := out_address o;
           ue_blockHeight := blk_index B; ue_isCoinbase := tx_isCoinbase cb |}]> (utxo st) /\
  mempool (accepted st B) = [] /\
  last (chain (accepted st B)) = Some B.
Proof.
  intros Hmp Htx Hin Hout.
  destruct (accepted_fields st B) as (-> & -> & -> & _).
  split; [|split].
  - rewrite applyBlock_utxo, Htx. cbn [rebuildTxs]. rewrite Hin, Hout. reflexivity.
  - unfold applyBlock. rewrite Htx, Hmp. reflexivity.
  - apply last_snoc.
Qed.

(** X25. The coinbase of a template carries the address and the amount and
    nothing of the height, so its id is the same for every block that pays
    the same reward to the same address.  With an empty mempool, when a
    mined template has been accepted and the next one for the same address
    and the same reward is accepted too, the second reward takes the place
    of the first in the UTXO map: the map has one entry for the two. *)
Theorem rewards_to_one_address_share_an_entry
    st now addr b1 s1 n1 t1 now1 now' b2 s2 n2 t2 now2 :
  mempool st = [] ->
  getBlockCandidate st now addr = (Candidate b1, s1) ->
  validateBlock st now1 (assignIds (minerTry b1 n1 t1)) = Ok tt ->
  let st1 := (postBlocks st now1 (minerTry b1 n1 t1)).2 in
  getBlockCandidate st1 now' addr = (Candidate b2, s2) ->
  validateBlock st1 now2 (assignIds (minerTry b2 n2 t2)) = Ok tt ->
  getBlockReward (config st) (blk_index b1 + 1) = getBlockReward (config st) (blk_index b1) ->
  let st2 := (postBlocks st1 now2 (minerTry b2 n2 t2)).2 in
  exists k e1 e2,
    utxo st1 = <[k := e1]> (utxo st) /\
    utxo st2 = <[k := e2]> (utxo st) /\
    ue_blockHeight e1 = blk_index b1 /\
    ue_blockHeight e2 = blk_index b1 + 1 /\
    ue_address e2 = addr /\
    ue_amount e2 = getBlockReward (config st) (blk_index b1) + 0.
Proof.
  intros Hmp Hc1 Hv1 st1 Hc2 Hv2 Hrew st2.
  destruct (candidate_empty_mempool _ _ _ _ _ Hmp Hc1) as (tip & Htip & Hi1 & Htx1).
  set (r := getBlockReward (config st) (blk_index tip + 1) + 0) in Htx1.
  set (cb0 := {| tx_id := ""; tx_isCoinbase := true; tx_inputs := [];
                 tx_outputs := [{| out_address := addr; out_amount := r |}] |}) in Htx1.
  assert (Hcbin : tx_inputs (assignId cb0) = []) by apply assignId_inputs.
  assert (Hcbout : tx_outputs (assignId cb0) = [{| out_address := addr; out_amount := r |}]).
  { unfold assignId. destruct (bool_decide _); reflexivity. }
  set (B1 := assignIds (minerTry b1 n1 t1)) in *.
  assert (HB1 : blk_transactions B1 = [assignId cb0]).
  { unfold B1, assignIds, withTransactions, minerTry. cbn [blk_transactions].
    rewrite Htx1. cbn [map]. rewrite assignId_idempotent. reflexivity. }
  assert (Hst1 : st1 = accepted st B1).
  { unfold st1. rewrite postBlocks_state. fold B1. rewrite Hv1. reflexivity. }
  destruct (accepted_single_reward st B1 _ _ Hmp HB1 Hcbin Hcbout) as (Hu1 & Hmp1 & Hl1).
  rewrite <- Hst1 in Hu1, Hmp1, Hl1.
  destruct (candidate_empty_mempool _ _ _ _ _ Hmp1 Hc2) as (tip' & Htip' & Hi2 & Htx2).
  rewrite Hl1 in Htip'. injection Htip' as <-.
  assert (HiB1 : blk_index B1 = blk_index b1) by reflexivity.
  assert (Hr2 : getBlockReward (config st1) (blk_index B1 + 1) + 0 = r).
  { rewrite Hst1, accepted_reward, HiB1, Hrew. unfold r. rewrite Hi1. reflexivity. }
  rewrite Hr2 in Htx2. fold cb0 in Htx2.
  set (B2 := assignIds (minerTry b2 n2 t2)) in *.
  assert (HB2 : blk_transactions B2 = [assignId cb0]).
  { unfold B2, assignIds, withTransactions, minerTry. cbn [blk_transactions].
    rewrite Htx2. cbn [map]. rewrite assignId_idempotent. reflexivity. }
  assert (Hst2 : st2 = accepted st1 B2).
  { unfold st2. rewrite postBlocks_state. fold B2. rewrite Hv2. reflexivity. }
  destruct (accepted_single_reward st1 B2 _ _ Hmp1 HB2 Hcbin Hcbout) as (Hu2 & _ & _).
  rewrite <- Hst2, Hu1, insert_insert_eq in Hu2.
  eexists _, _, _. split; [exact Hu1|]. split; [exact Hu2|].
  cbn [ue_blockHeight ue_address ue_amount out_address out_amount].
  assert (HiB2 : blk_index B2 = blk_index b2) by reflexivity.
  split; [exact HiB1|].
  split; [rewrite HiB2, Hi2, HiB1; reflexivity|].
  split; [reflexivity|].
  unfold r. rewrite Hi1. reflexivity.
Qed.

End RewardProperties.

Lemma rewards_to_one_address_share_an_entry_witness :
  exists k e1 e2,
    utxo sampleStateReward1 = <[k := e1]> (utxo sampleState) /\
    utxo (postBlocks (H := samplePrimitives) sampleStateReward1 2600
            (minerTry sampleReward2 7 2600)).2
    = <[k := e2]> (utxo sampleState) /\
    ue_blockHeight e1 = 1 /\
    ue_blockHeight e2 = 1 + 1 /\
    ue_address e2 = sampleAddress /\
    ue_amount e2 = getBlockReward (config sampleState) 1 + 0.
Proof.
  refine (@rewards_to_one_address_share_an_entry samplePrimitives
            sampleState 1500 sampleAddress sampleReward1 sampleState 7 1600 1600
            2500 sampleReward2 sampleStateReward1 7 2600 2600 _ _ _ _ _ _).
  - reflexivity.
  - vm_compute. reflexivity.
  - vm_compute. reflexivity.
  - vm_compute. reflexivity.
  - vm_compute. reflexivity.
  - vm_compute. reflexivity.
Defined.

(** ** The configuration along a run *)

Section ConfigProperties.

Context `{Primitives}.

Lemma setBits_own cfg : setBits cfg (cfg_bits cfg) = cfg.
Proof. destruct cfg. reflexivity. Qed.

Lemma maybeRetarget_config st st' :
  maybeRetarget st = Ok st' -> exists b, config st' = setBits (config st) b.
Proof.
  unfold maybeRetarget.
  destruct (_ || _); [intros [= <-]; exists (cfg_bits (config st)); symmetry; apply setBits_own|].
  destruct (chainAt _ _); [|discriminate].
  destruct (chainAt _ _); [|discriminate].
  destruct (retargetDivisor _ _ _); [|discriminate].
  destruct (_ =? 0); [discriminate|].
  intros [= <-]. eexists. reflexivity.
Qed.

Lemma accepted_config st block : exists b, config (accepted st block) = setBits (config st) b.
Proof.
  assert (Ha : config (applyBlock st block) = config st).
  { unfold applyBlock. destruct (applyBlockTxs _ _ _ _ _) as [[u mp] ms]. reflexivity. }
  unfold accepted. destruct (maybeRetarget _) as [st2|e] eqn:E.
  - apply maybeRetarget_config in E as [b Hb]. exists b. rewrite Hb, Ha. reflexivity.
  - exists (cfg_bits (config st)). rewrite Ha. symmetry. apply setBits_own.
Qed.

Lemma postTransactions_config st body : config (postTransactions st body).2 = config st.
Proof.
  unfold postTransactions.
  destruct (_ ≫= _); [|reflexivity].
  destruct (mempoolGet _ _); reflexivity.
Qed.

Lemma p2pTx_config st body : config (p2pTx st body).2 = config st.
Proof.
  unfold p2pTx.
  destruct (_ || _); [reflexivity|].
  destruct (_ ≫= _); reflexivity.
Qed.

Lemma getBlockCandidate_config st now addr :
  config (getBlockCandidate st now addr).2 = config st.
Proof. unfold getBlockCandidate. destruct (last (chain st)); reflexivity. Qed.

(** A step leaves the chain and the configuration as they are, or appends a
    block and touches at most the bits. *)
Lemma step_config st st' :
  step st st' ->
  (chain st' = chain st /\ config st' = config st) \/
  (exists block b, chain st' = chain st ++ [block] /\ config st' = setBits (config st) b).
Proof.
  intros Hs. destruct Hs as [st body|st now body|st body|st now b|st now addr].
  - left. split; [apply postTransactions_keeps|apply postTransactions_config].
  - rewrite postBlocks_state.
    destruct (validateBlock st now (assignIds body)) as [[]|e]; [|left; auto].
    right. destruct (accepted_config st (assignIds body)) as [bits Hb].
    exists (assignIds body), bits. split; [apply accepted_fields|exact Hb].
  - left. split; [apply p2pTx_keeps|apply p2pTx_config].
  - rewrite p2pBlock_state. destruct (bool_decide _); [left; auto|].
    destruct (validateBlock st now (assignIds b)) as [[]|e]; [|left; auto].
    right. destruct (accepted_config st (assignIds b)) as [bits Hb].
    exists (assignIds b), bits. split; [apply accepted_fields|exact Hb].
  - left. split; [apply getBlockCandidate_keeps|apply getBlockCandidate_config].
Qed.

Lemma run_chain_length st st' :
  rtc step st st' -> (length (chain st) <= length (chain st'))%nat.
Proof.
  intros Hrun. induction Hrun as [st|st st1 st' Hstep _ IH]; [lia|].
  destruct (step_config st st1 Hstep) as [[Hc _]|(block & b & Hc & _)];
    rewrite Hc in IH; [exact IH|].
  rewrite length_app in IH. cbn in IH. lia.
Qed.

(** X26. No request and no peer message changes a consensus parameter
    other than the bits: the retarget interval, the block time, the
    subsidy, the halving interval, the coinbase maturity and the
    per-template limit stay what they were at boot, so the reward of a
    height never changes.  The bits themselves change only when the
    chain has grown. *)
Theorem consensus_parameters_are_fixed st st' :
  rtc step st st' ->
  config st' = setBits (config st) (cfg_bits (config st')) /\
  (forall h, getBlockReward (config st') h = getBlockReward (config st) h) /\
  (chain st' = chain st -> config st' = config st).
Proof.
  intros Hrun.
  assert (Hset : config st' = setBits (config st) (cfg_bits (config st'))).
  { induction Hrun as [st|st st1 st' Hstep _ IH]; [symmetry; apply setBits_own|].
    destruct (step_config st st1 Hstep) as [[_ Hc]|(block & b & _ & Hc)];
      rewrite Hc in IH; exact IH. }
  split; [exact Hset|]. split; [intros h; rewrite Hset; reflexivity|].
  induction Hrun as [st|st st1 st' Hstep Hrest IH]; [reflexivity|].
  intros Hsame. apply run_chain_length in Hrest as Hlen. rewrite Hsame in Hlen.
  destruct (step_config st st1 Hstep) as [[Hc Hcfg]|(block & b & Hc & _)].
  - rewrite <- Hcfg. apply IH.
    + rewrite Hset, Hcfg. reflexivity.
    + rewrite Hsame, Hc. reflexivity.
  - rewrite Hc, length_app in Hlen. cbn in Hlen. lia.
Qed.

End ConfigProperties.

Lemma consensus_parameters_are_fixed_witness :
  config sampleState2 = setBits (config sampleState) (cfg_bits (config sampleState2)).
Proof.
  exact (proj1 (@consensus_parameters_are_fixed samplePrimitives
                  sampleState sampleState2 sample_run)).
Defined.

(** * The node on untyped requests *)

(** ** Numbers *)

(** The operations of [Js.number] give what the machine's binary64
    operations give, on a list of pairs with ties, fractions, subnormal
    numbers and overflows among them, and on a thousand pairs from the
    generator. *)
Lemma number_operations_agree_with_binary64 :
  forallb agreesWithBinary64
    [(Js.Fin (2^53) 0, Js.Fin 1 0); (Js.Fin (2^53+2) 0, Js.Fin 1 0);
     (Js.Fin (2^53) 0, Js.Fin 3 0); (Js.Fin (-(2^53)) 0, Js.Fin (-1) 0);
     (Js.Fin (-(2^53+2)) 0, Js.Fin (-1) 0); (Js.Fin 5 0, Js.Fin 7 0);
     (Js.Fin 5 0, Js.Fin (-(2^53)) 0); (Js.Fin 5 0, Js.Fin (2^53+4) 0);
     (Js.Fin 1 (-1), Js.Fin (2^53-1) 0); (Js.Fin 3 (-1), Js.Fin (2^53-1) 0);
     (Js.Fin (2^53-1) 971, Js.Fin (2^53-1) 971); (Js.Fin (2^53-1) 971, Js.Fin 1 917);
     (Js.Fin (2^53-1) 971, Js.Fin 1 970); (Js.Fin (2^53-1) 971, Js.Fin 1 969);
     (Js.Fin 1 (-1074), Js.Fin 1 (-1074)); (Js.Fin 1 (-1074), Js.Fin (2^52) (-1074));
     (Js.Fin (2^60) 0, Js.Fin (2^7) 0); (Js.Fin (2^60) 0, Js.Fin (2^7+1) 0);
     (Js.Fin 123456789 10, Js.Fin (-987654321) (-3)); (Js.Inf false, Js.Fin 1 0);
     (Js.Inf false, Js.Inf true); (Js.Inf true, Js.Inf true); (Js.NaN, Js.Fin 1 0);
     (Js.Fin 0 0, Js.Fin 0 0); (Js.Fin 1 0, Js.Fin (-1) 0); (Js.Fin 1 0, Js.Fin 1 (-60));
     (Js.Fin 1 0, Js.Fin 1 (-53)); (Js.Fin 1 0, Js.Fin 3 (-54)); (Js.Fin 1 0, Js.Fin (-1) (-54));
     (Js.Fin 1 0, Js.Fin (-1) (-55)); (Js.Fin 1 0, Js.Fin (-3) (-55))]
  = true /\
  forallb agreesWithBinary64 (numberPairs 1000 12345) = true.
Proof. split; vm_compute; reflexivity. Qed.

(** Integers add without loss while the sum stays below [2^53]. *)
Lemma round_small m e : Z.abs m < 2 ^ 53 -> e <= 0 -> Js.round m e = Js.Fin m e.
Proof.
  intros Hm He. unfold Js.round.
  assert (Hk : Z.log2 (Z.abs m) + 1 - 53 <= 0).
  { destruct (Z.eq_dec (Z.abs m) 0) as [->|Hz]; [cbn; lia|].
    assert (Z.log2 (Z.abs m) < 53) by (apply Z.log2_lt_pow2; lia). lia. }
  apply Z.leb_le in Hk. rewrite Hk.
  assert (Ho : Js.overflows (Z.abs m) e = false).
  { unfold Js.overflows. destruct (Z.leb_spec 0 e).
    - replace e with 0 by lia. apply Z.leb_gt. rewrite Z.mul_1_r.
      eapply Z.lt_le_trans; [exact Hm|]. apply Z.pow_le_mono_r; lia.
    - apply Z.leb_gt. eapply Z.lt_le_trans; [exact Hm|]. apply Z.pow_le_mono_r; lia. }
  rewrite Ho. f_equal. rewrite Z.mul_comm. apply Z.abs_sgn.
Qed.

Lemma add_ofZ a b :
  Z.abs (a + b) < 2 ^ 53 -> Js.add (Js.ofZ a) (Js.ofZ b) = Js.ofZ (a + b).
Proof.
  intros Hs. unfold Js.add, Js.ofZ. cbn [Z.min Z.compare Z.sub Z.add Z.opp Z.pow Z.pow_pos].
  change (2 ^ (0 - Z.min 0 0)) with 1. rewrite !Z.mul_1_r.
  apply round_small; [exact Hs|reflexivity].
Qed.


Lemma ltb_ofZ a b : Js.ltb (Js.ofZ a) (Js.ofZ b) = (a <? b).
Proof.
  unfold Js.ltb, Js.ofZ. change (2 ^ (0 - Z.min 0 0)) with 1. rewrite !Z.mul_1_r. reflexivity.
Qed.

Lemma leb_ofZ a b : Js.leb (Js.ofZ a) (Js.ofZ b) = (a <=? b).
Proof.
  unfold Js.leb, Js.ofZ. change (2 ^ (0 - Z.min 0 0)) with 1. rewrite !Z.mul_1_r. reflexivity.
Qed.

(** ** Typed requests run the same *)

Section EmbeddingProperties.

Context `{Primitives}.

Lemma headerHash_embedBlock b : Js.headerHash (embedBlock b) = headerHash b.
Proof. reflexivity. Qed.

Lemma last_embedBlock c : last (map embedBlock c) = embedBlock <$> last c.
Proof. change (map embedBlock c) with (embedBlock <$> c). apply fmap_last. Qed.

Lemma setOutputs_embed id h cb outs idx (u : gmap string UtxoEntry) :
  Js.setOutputs id h cb (map embedOutput outs) idx (embedEntry <$> u)
  = embedEntry <$> setOutputs id h cb outs idx u.
Proof.
  revert idx u. induction outs as [|o outs IH]; intros idx u; [reflexivity|].
  cbn [map Js.setOutputs setOutputs]. rewrite <- IH, fmap_insert. reflexivity.
Qed.

Lemma deleteInputs_embed ins (u : gmap string UtxoEntry) :
  Js.deleteInputs ins (embedEntry <$> u) = embedEntry <$> deleteInputs ins u.
Proof.
  revert u. induction ins as [|i ins IH]; intros u; [reflexivity|].
  cbn [Js.deleteInputs deleteInputs]. rewrite <- IH, fmap_delete. reflexivity.
Qed.

Lemma rebuildTxs_embed b txs (u : gmap string UtxoEntry) :
  Js.rebuildTxs (embedBlock b) (map embedTx txs) (embedEntry <$> u)
  = Ok (embedEntry <$> rebuildTxs b txs u).
Proof.
  revert u. induction txs as [|tx txs IH]; intros u; [reflexivity|].
  cbn [map Js.rebuildTxs rebuildTxs embedTx Js.t_inputs Js.t_id Js.t_isCoinbase Js.t_outputs].
  rewrite deleteInputs_embed, setOutputs_embed. apply IH.
Qed.

Lemma rebuildBlocks_embed c (u : gmap string UtxoEntry) :
  Js.rebuildBlocks (map embedBlock c) (embedEntry <$> u)
  = Ok (embedEntry <$> rebuildBlocks c u).
Proof.
  revert u. induction c as [|b c IH]; intros u; [reflexivity|].
  cbn [map Js.rebuildBlocks rebuildBlocks].
  change (Js.b_transactions (embedBlock b)) with (map embedTx (blk_transactions b)).
  rewrite rebuildTxs_embed. cbn [mbind result_bind rbind]. apply IH.
Qed.

Lemma rebuildUTXO_embed c :
  Js.rebuildUTXO (map embedBlock c) = Ok (embedEntry <$> rebuildUTXO c).
Proof.
  unfold Js.rebuildUTXO, rebuildUTXO. rewrite <- rebuildBlocks_embed, fmap_empty. reflexivity.
Qed.

(** For a block built by [extendWithUntyped], the header rules of
    [validateBlock] hold and the verdict is the one of the transactions. *)
Lemma validateBlock_extendWithUntyped st now txs :
  digest32 ->
  Js.validateBlock (embedState st) now (extendWithUntyped st now txs)
  = ('(coinbaseCount, feeTotal, _) ←
       Js.validateBlockTxs (config st) (extendWithUntyped st now txs) txs 0 Js.zero
         (embedEntry <$> utxo st);
     _ ← throwIf (negb (coinbaseCount =? 1)) "block must have exactly 1 coinbase";
     let expected := Js.add (Js.ofZ (getBlockReward (config st) (nextIndex st))) feeTotal in
     match find Js.t_isCoinbase txs with
     | None => Err "Cannot read properties of undefined (reading 'outputs')"
     | Some coinbase =>
         throwIf (Js.ltb expected (Js.sumAmounts (Js.t_outputs coinbase))) "coinbase too large"
     end).
Proof.
  intros Hd. unfold Js.validateBlock.
  change (Js.s_chain (embedState st)) with (map embedBlock (chain st)).
  rewrite last_embedBlock.
  assert (Hhead :
    match embedBlock <$> last (chain st) with
    | None => throwIf (negb (Js.b_index (extendWithUntyped st now txs) =? 0))
                "genesis index must be 0"
    | Some tip =>
        _ ← throwIf (negb (Js.b_index (extendWithUntyped st now txs) =? Js.b_index tip + 1))
              "bad index";
        throwIf (negb (bool_decide (Js.b_previousHash (extendWithUntyped st now txs)
                                    = Js.headerHash tip)))
          "prev hash mismatch"
    end = Ok tt).
  { unfold extendWithUntyped, nextIndex. cbn.
    destruct (last (chain st)) as [tip|]; [|reflexivity].
    cbn. rewrite Z.eqb_refl. cbn. rewrite bool_decide_eq_true_2 by reflexivity. reflexivity. }
  rewrite Hhead. cbn [mbind result_bind rbind].
  assert (Hts : (now + MAX_FUTURE <? Js.b_timestamp (extendWithUntyped st now txs)) = false).
  { apply Z.ltb_ge. cbn. unfold MAX_FUTURE. lia. }
  rewrite Hts. cbn [throwIf mbind result_bind rbind].
  rewrite bool_decide_eq_true_2 by reflexivity. cbn [negb throwIf mbind result_bind rbind].
  change (Js.b_bits (extendWithUntyped st now txs)) with easyBits.
  unfold Js.headerHash at 1. rewrite hash_meets_easyBits by exact Hd. reflexivity.
Qed.

Lemma round_not_negative m e e' :
  0 <= m -> Js.ltb (Js.round m e) (Js.Fin 0 e') = false.
Proof.
  intros Hm. unfold Js.round.
  set (a := Z.abs m). set (k := Z.log2 a + 1 - 53).
  assert (Ha : 0 <= a) by (unfold a; lia).
  set (p := if k <=? 0 then (a, e)
            else (if (2 ^ (k - 1) <? a mod 2 ^ k) || ((a mod 2 ^ k =? 2 ^ (k - 1)) && Z.odd (a / 2 ^ k))
                  then a / 2 ^ k + 1 else a / 2 ^ k, e + k)).
  assert (Hp : 0 <= p.1).
  { unfold p. destruct (Z.leb_spec k 0); [exact Ha|]. cbn [fst].
    assert (0 <= a / 2 ^ k) by (apply Z.div_pos; [exact Ha|apply Z.pow_pos_nonneg; lia]).
    destruct (_ || _); lia. }
  destruct p as [a' e'']. cbn [fst] in Hp.
  destruct (Js.overflows a' e'').
  - cbn. apply Z.ltb_ge. lia.
  - cbn [Js.ltb]. apply Z.ltb_ge. rewrite Z.mul_0_l.
    apply Z.mul_nonneg_nonneg; [|apply Z.pow_nonneg; lia].
    apply Z.mul_nonneg_nonneg; [|exact Hp]. destruct m; cbn; lia.
Qed.

End EmbeddingProperties.

(** ** A block that is applied in part *)

Section PartlyAppliedBlock.

Context `{Primitives}.

Lemma sub_zero_zero : Js.sub Js.zero Js.zero = Js.zero.
Proof. vm_compute. reflexivity. Qed.

Lemma add_zero_zero : Js.add Js.zero Js.zero = Js.zero.
Proof. vm_compute. reflexivity. Qed.

Lemma add_zero_ofZ0 : Js.add Js.zero (Js.ofZ 0) = Js.zero.
Proof. vm_compute. reflexivity. Qed.

Lemma assignId_named tx : Js.t_id tx <> ""%string -> Js.assignId tx = Ok tx.
Proof.
  intros Hid. unfold Js.assignId. rewrite bool_decide_eq_false_2 by exact Hid. reflexivity.
Qed.

(** C2. A block with a coinbase and a spend whose [inputs] is not an array
    (and that has no output) passes [validateBlock], which reads only
    [tx.inputs.length]; [applyBlock] then writes the coinbase output and
    throws on the spend before [chain.push].  [POST /blocks] answers 400
    and the node is left with a UTXO entry that no block of its chain
    made: the live map is no longer what [rebuildUTXO] gives for the
    chain. *)
Theorem partly_applied_block_breaks_replay st now cbId badId addr :
  digest32 ->
  reachable st ->
  cbId <> ""%string -> badId <> ""%string ->
  utxo st !! outpointKey cbId 0 = None ->
  let body :=
    extendWithUntyped st now [embedTx (coinbaseTx cbId addr 0); notIterableSpend badId] in
  let entry :=
    {| Js.u_amount := Js.ofZ 0; Js.u_address := addr;
       Js.u_blockHeight := nextIndex st; Js.u_isCoinbase := true |} in
  exists st',
    Js.validateBlock (embedState st) now body = Ok tt /\
    Js.postBlocks (embedState st) now body = (BadRequest "tx.inputs is not iterable", st') /\
    Js.s_chain st' = Js.s_chain (embedState st) /\
    Js.s_utxo st' = <[outpointKey cbId 0 := entry]> (Js.s_utxo (embedState st)) /\
    Js.rebuildUTXO (Js.s_chain st') = Ok (Js.s_utxo (embedState st)) /\
    Js.s_utxo st' <> Js.s_utxo (embedState st).
Proof.
  intros Hd Hr Hcb Hbad Hkey body entry.
  pose proof (proj1 (utxo_is_replay_of_typed_runs st Hr)) as Hinv.
  assert (Hassign : Js.assignIds body = Ok body).
  { unfold Js.assignIds, body. cbn [extendWithUntyped Js.b_transactions Js.assignAll].
    rewrite !assignId_named by assumption. reflexivity. }
  assert (Hval : Js.validateBlock (embedState st) now body = Ok tt).
  { unfold body. rewrite validateBlock_extendWithUntyped by exact Hd.
    cbn [Js.validateBlockTxs embedTx coinbaseTx notIterableSpend Js.t_isCoinbase Js.t_inputs
         Js.t_outputs Js.t_id tx_isCoinbase tx_inputs tx_outputs tx_id length Nat.eqb negb
         throwIf mbind result_bind rbind map find].
    change (Js.sumAmounts []) with Js.zero.
    change (Js.ltb Js.zero Js.zero) with false.
    cbn [throwIf mbind result_bind rbind].
    rewrite sub_zero_zero, add_zero_zero.
    change (0 + 1 =? 1) with true. cbn [negb throwIf mbind result_bind rbind].
    change (Js.sumAmounts [embedOutput {| out_address := addr; out_amount := 0 |}])
      with (Js.add Js.zero (Js.ofZ 0)).
    rewrite add_zero_ofZ0.
    pose proof (getBlockReward_nonneg (config st) (nextIndex st)) as Hrew.
    unfold Js.add, Js.ofZ, Js.zero.
    rewrite round_not_negative; [reflexivity|].
    change (2 ^ (0 - Z.min 0 0)) with 1. lia. }
  set (u1 := <[outpointKey cbId 0 := entry]> (Js.s_utxo (embedState st))).
  assert (Happly : exists mp ms,
            Js.applyBlock (embedState st) body
            = ({| Js.s_chain := Js.s_chain (embedState st); Js.s_mempool := mp;
                  Js.s_utxo := u1; Js.s_seenTx := Js.s_seenTx (embedState st);
                  Js.s_seenBlockHash := Js.s_seenBlockHash (embedState st);
                  Js.s_mempoolSpent := ms; Js.s_config := Js.s_config (embedState st) |},
               Some "tx.inputs is not iterable"%string)).
  { unfold Js.applyBlock, body.
    cbn [extendWithUntyped Js.b_transactions Js.b_index Js.applyBlockTxs embedTx coinbaseTx
         notIterableSpend Js.t_isCoinbase Js.t_inputs Js.t_outputs Js.t_id tx_isCoinbase
         tx_inputs tx_outputs tx_id map Js.deleteInputs Js.setOutputs embedOutput
         Js.o_amount Js.o_address out_amount out_address].
    destruct (Js.mempoolTruthy cbId _); eexists _, _; reflexivity. }
  destruct Happly as (mp & ms & Happly).
  eexists. split; [exact Hval|]. split.
  { unfold Js.postBlocks. rewrite Hassign, Hval, Happly. reflexivity. }
  cbn [Js.s_chain Js.s_utxo].
  split; [reflexivity|]. split; [reflexivity|]. split.
  - change (Js.s_chain (embedState st)) with (map embedBlock (chain st)).
    rewrite rebuildUTXO_embed, <- Hinv. reflexivity.
  - intros Heq. apply (f_equal (fun m => m !! outpointKey cbId 0)) in Heq.
    unfold u1 in Heq. rewrite lookup_insert_eq in Heq.
    change (Js.s_utxo (embedState st)) with (embedEntry <$> utxo st) in Heq.
    rewrite lookup_fmap, Hkey in Heq. discriminate.
Qed.

End PartlyAppliedBlock.

(** ** What [validateTx] rejects, and what it lets through *)











Section UntypedTxProperties.

Context `{Primitives}.


End UntypedTxProperties.

(** ** Typed requests in range run the same *)





Section SimulationProperties.

Context `{Primitives}.

Lemma outputJson_embed o : Js.outputJson (embedOutput o) = outputJson o.
Proof.
  unfold Js.outputJson, outputJson, embedOutput, Js.ofZ, Js.numberJson.
  cbn [Js.o_amount Js.o_address]. change (0 <=? 0) with true. cbv iota.
  change (2 ^ 0) with 1. rewrite Z.mul_1_r. reflexivity.
Qed.

Lemma verifyInputSig_embed tx i :
  Js.verifyInputSig (tx_inputs tx) (map embedOutput (tx_outputs tx)) i = verifyInputSig tx i.
Proof.
  unfold Js.verifyInputSig, verifyInputSig. rewrite map_map.
  rewrite (map_ext _ _ outputJson_embed). reflexivity.
Qed.





End SimulationProperties.



Section BlockSimulation.

Context `{Primitives}.



End BlockSimulation.

(** ** Accepted spends and accepted blocks, in range *)

Lemma validateTxOutputs_embed A outs s :
  0 <= A -> amountsWithin A outs ->
  Z.abs s + Z.of_nat (length outs) * A < 2 ^ 53 ->
  match validateTxOutputs outs s with
  | Ok s' =>
      Js.validateTxOutputs (map embedOutput outs) (Js.ofZ s) = Ok (Js.ofZ s') /\
      Z.abs s' <= Z.abs s + Z.of_nat (length outs) * A
  | Err e => Js.validateTxOutputs (map embedOutput outs) (Js.ofZ s) = Err e
  end.
Proof.
  intros HA Ho. revert s. induction Ho as [|o outs Hle _ IH]; intros s Hs.
  - cbn. split; [reflexivity|lia].
  - cbn [map validateTxOutputs Js.validateTxOutputs embedOutput Js.o_amount length] in *.
    rewrite Nat2Z.inj_succ in *.
    change Js.zero with (Js.ofZ 0). rewrite leb_ofZ.
    destruct (throwIf _ "output <= 0") as [[]|e]; cbn [mbind result_bind rbind]; [|reflexivity].
    rewrite add_ofZ by nia.
    specialize (IH (s + out_amount o) ltac:(nia)).
    destruct (validateTxOutputs outs _) as [s'|e]; [|exact IH].
    destruct IH as [Heq Hb]. split; [exact Heq|nia].
Qed.

Lemma existsb_embedOutput outs :
  existsb (fun o => Js.leb (Js.o_amount o) Js.zero) (map embedOutput outs)
  = existsb (fun o => out_amount o <=? 0) outs.
Proof.
  induction outs as [|o outs IH]; [reflexivity|].
  cbn [map existsb embedOutput Js.o_amount]. rewrite IH.
  change (Js.leb (Js.ofZ (out_amount o)) Js.zero)
    with (Js.leb (Js.ofZ (out_amount o)) (Js.ofZ 0)).
  rewrite leb_ofZ. reflexivity.
Qed.

Section TxSimulation.

Context `{Primitives}.

Lemma validateTxInputs_embed A st h tx ins used s :
  0 <= A -> entriesWithin A (utxo st) ->
  Z.abs s + Z.of_nat (length ins) * A < 2 ^ 53 ->
  match validateTxInputs st h tx ins used s with
  | Ok s' =>
      Js.validateTxInputs (embedState st) h (tx_inputs tx) (map embedOutput (tx_outputs tx))
        ins used (Js.ofZ s)
      = Ok (Js.ofZ s') /\
      Z.abs s' <= Z.abs s + Z.of_nat (length ins) * A
  | Err e =>
      Js.validateTxInputs (embedState st) h (tx_inputs tx) (map embedOutput (tx_outputs tx))
        ins used (Js.ofZ s)
      = Err e
  end.
Proof.
  intros HA Hu. revert used s. induction ins as [|i rest IH]; intros used s Hs.
  - cbn. split; [reflexivity|lia].
  - cbn [validateTxInputs Js.validateTxInputs length] in *. rewrite Nat2Z.inj_succ in *.
    destruct (throwIf _ "double spend in tx") as [[]|e];
      cbn [mbind result_bind rbind]; [|reflexivity].
    change (Js.s_utxo (embedState st)) with (embedEntry <$> utxo st).
    change (Js.s_config (embedState st)) with (config st).
    rewrite lookup_fmap.
    destruct (utxo st !! outpointKey (in_txid i) (in_index i)) as [ent|] eqn:E;
      cbn [fmap option_fmap option_map]; [|reflexivity].
    pose proof (Hu _ _ E) as Hent.
    cbn [embedEntry Js.u_isCoinbase Js.u_blockHeight Js.u_address Js.u_amount].
    destruct (throwIf _ "coinbase not mature") as [[]|e];
      cbn [mbind result_bind rbind]; [|reflexivity].
    rewrite verifyInputSig_embed.
    destruct (verifyInputSig tx i) as [[]|e]; cbn [mbind result_bind rbind]; [|reflexivity].
    destruct (throwIf _ "pubKey does not match UTXO address") as [[]|e];
      cbn [mbind result_bind rbind]; [|reflexivity].
    rewrite add_ofZ by nia.
    specialize (IH ({[outpointKey (in_txid i) (in_index i)]} ∪ used) (s + ue_amount ent)
                  ltac:(nia)).
    destruct (validateTxInputs st h tx rest _ _) as [s'|e]; [|exact IH].
    destruct IH as [Heq Hb]. split; [exact Heq|nia].
Qed.

(** On a typed transaction whose amounts are in range, the untyped
    [validateTx] gives what the typed one gives. *)
Lemma validateTx_embed A st tx h :
  0 <= A -> entriesWithin A (utxo st) -> amountsWithin A (tx_outputs tx) ->
  txTerms tx * A < 2 ^ 53 ->
  Js.validateTx (embedState st) (embedTx tx) h = validateTx st tx h.
Proof.
  intros HA Hu Ho Hr. unfold txTerms in Hr. unfold Js.validateTx, validateTx.
  cbn [embedTx Js.t_inputs Js.t_isCoinbase Js.t_outputs].
  destruct (tx_isCoinbase tx).
  - rewrite existsb_embedOutput. reflexivity.
  - pose proof (validateTxInputs_embed A st h tx (tx_inputs tx) ∅ 0 HA Hu ltac:(cbn; nia))
      as Hin.
    change (Js.ofZ 0) with Js.zero in Hin.
    destruct (validateTxInputs st h tx (tx_inputs tx) ∅ 0) as [inSum|e];
      [|rewrite Hin; reflexivity].
    destruct Hin as [Hin Hib]. rewrite Hin. cbn [mbind result_bind rbind].
    pose proof (validateTxOutputs_embed A (tx_outputs tx) 0 HA Ho ltac:(cbn; nia)) as Hout.
    change (Js.ofZ 0) with Js.zero in Hout.
    destruct (validateTxOutputs (tx_outputs tx) 0) as [outSum|e];
      [|rewrite Hout; reflexivity].
    destruct Hout as [Hout Hob]. rewrite Hout. cbn [mbind result_bind rbind].
    rewrite ltb_ofZ. reflexivity.
Qed.

(** X7. While the amounts are integers small enough for the binary64 sums
    to be exact, a spend that [validateTx] accepts has inputs that are
    pairwise different outpoints, each found in the UTXO map, mature if
    it is a coinbase output, owned by the address of the input's public
    key and signed; its outputs are all positive, and their sum is at
    most the sum of the amounts of the outputs it spends. *)
Theorem validateTx_accepted_spend A st tx h :
  0 <= A -> entriesWithin A (utxo st) -> amountsWithin A (tx_outputs tx) ->
  txTerms tx * A < 2 ^ 53 ->
  tx_isCoinbase tx = false ->
  Js.validateTx (embedState st) (embedTx tx) h = Ok tt ->
  NoDup (map inputKey (tx_inputs tx)) /\
  Forall (fun i => exists e,
            utxo st !! inputKey i = Some e /\
            (ue_isCoinbase e = true -> coinbaseMaturity (config st) <= h - ue_blockHeight e) /\
            pubKeyToAddress (in_pubKey i) = ue_address e /\
            verifyInputSig tx i = Ok tt) (tx_inputs tx) /\
  Forall (fun o => 0 < out_amount o) (tx_outputs tx) /\
  sumZ (map out_amount (tx_outputs tx))
  <= sumZ (map (inputAmount (utxo st)) (tx_inputs tx)).
Proof.
  intros HA Hu Ho Hr Hcb Hv. rewrite (validateTx_embed A) in Hv by assumption.
  exact (typed_spend_accepted st tx h Hcb Hv).
Qed.



End TxSimulation.

(** ** The properties above on sample requests *)

Lemma entriesWithin_check A (u : gmap string UtxoEntry) :
  forallb (fun ke : string * UtxoEntry => Z.abs (ue_amount ke.2) <=? A) (map_to_list u) = true ->
  entriesWithin A u.
Proof.
  intros Hall k e He. rewrite forallb_forall in Hall.
  apply elem_of_map_to_list, list_elem_of_In in He.
  apply Z.leb_le. exact (Hall (k, e) He).
Qed.

Lemma sample_entries_within : entriesWithin 6 (utxo sampleState2).
Proof. apply entriesWithin_check. vm_compute. reflexivity. Qed.

Lemma partly_applied_block_breaks_replay_witness :
  exists st',
    Js.postBlocks (H := samplePrimitives) (embedState sampleState) 1500
      (extendWithUntyped (H := samplePrimitives) sampleState 1500
         [embedTx (coinbaseTx "c1" sampleAddress 0); notIterableSpend "x1"])
    = (BadRequest "tx.inputs is not iterable", st') /\
    Js.rebuildUTXO (Js.s_chain st') = Ok (Js.s_utxo (embedState sampleState)) /\
    Js.s_utxo st' <> Js.s_utxo (embedState sampleState).
Proof.
  destruct (@partly_applied_block_breaks_replay samplePrimitives sampleState 1500
              "c1" "x1" sampleAddress) as (st' & _ & Hpost & _ & _ & Hre & Hne).
  - exact sample_digest32.
  - apply reach_boot.
  - discriminate.
  - discriminate.
  - vm_compute. reflexivity.
  - exists st'. split; [exact Hpost|]. split; [exact Hre|exact Hne].
Defined.





Lemma validateTx_accepted_spend_witness :
  sumZ (map out_amount (tx_outputs sampleSpend))
  <= sumZ (map (inputAmount (utxo sampleState2)) (tx_inputs sampleSpend)).
Proof.
  refine (proj2 (proj2 (proj2 (@validateTx_accepted_spend samplePrimitives 6
                                 sampleState2 sampleSpend 3 _ _ _ _ _ _)))).
  - lia.
  - exact sample_entries_within.
  - repeat constructor; cbn; lia.
  - vm_compute. reflexivity.
  - reflexivity.
  - vm_compute. reflexivity.
Defined.

